(** * Helsinki multi-vehicle VRP: the script [helsinki_vrp_portfolio.py]

    The script loads a table of customers, builds a distance matrix and a
    travel-time matrix with the haversine formula, states a vehicle routing
    problem with capacities and time windows through the routing library's
    interface, asks the library for a solution, and walks that solution into
    three dictionaries (routes, arrival times, loads) that it then prints.

    The development follows the script section by section.  Python integers
    are [Z]; node, index and vehicle numbers, which are only ever used as
    positions, are [nat]; Python floats are the kernel's binary64 [float];
    lists are lists, indexed with stdpp's [!!] and updated with [<[_:=_]>];
    dictionaries are association lists in insertion order, because the
    script iterates over them. *)

From Stdlib Require Import ZArith Lia List Bool Floats.
From stdpp Require Import base option list strings pretty.

Local Open Scope nat_scope.

(** ** 1. Load data *)

(** One line of [helsinki_vrp.csv], with the six columns the script reads. *)
Record Row := mkRow {
  city : string;
  lat : float;
  lon : float;
  demand : Z;
  tw_start : Z;
  tw_end : Z
}.

Abbreviation DataFrame := (list Row).

Definition cities (df : DataFrame) : list string := map city df.
Definition lats (df : DataFrame) : list float := map lat df.
Definition lons (df : DataFrame) : list float := map lon df.
Definition demands (df : DataFrame) : list Z := map demand df.
Definition time_windows (df : DataFrame) : list (Z * Z) :=
  map (fun r => (tw_start r, tw_end r)) df.

Definition num_nodes (df : DataFrame) : nat := length (cities df).
Definition depot_index : nat := 0.

Definition num_vehicles : nat := 3.
Definition vehicle_capacities : list Z := [15; 15; 15]%Z.

Definition max_route_duration : Z := 240.

(** ** 2. Distance & time matrix *)

(** What a Python call gives: a value, or an exception that nothing in the
    script catches.  The last two come from the routing library:
    [SystemError] is how its wrapper reports a callback value it cannot
    take, [SolverFail] stands for its [Exception('CP Solver fail')]. *)
Inductive Exception :=
| ValueError | OverflowError | IndexError | SystemError | SolverFail.

Inductive result (A : Type) :=
| Ok (a : A)
| Raise (e : Exception).
Arguments Ok {A} a.
Arguments Raise {A} e.

Definition bind {A B} (r : result A) (k : A -> result B) : result B :=
  match r with
  | Ok a => k a
  | Raise e => Raise e
  end.

Declare Scope py_scope.
Delimit Scope py_scope with py.
Notation "'do' x <- r ; k" := (bind r (fun x => k))
  (at level 10, x name, r at level 100, k at level 200) : py_scope.

(** [l[i]] *)
Definition getitem {A} (l : list A) (i : nat) : result A :=
  match l !! i with
  | Some x => Ok x
  | None => Raise IndexError
  end.

(** [for x in l: body] with a body that can raise. *)
Fixpoint for_in {A S} (l : list A) (body : A -> S -> result S) (s : S) : result S :=
  match l with
  | [] => Ok s
  | x :: l' => bind (body x s) (for_in l' body)
  end.

(** The functions of the [math] module that come from the platform's C
    library, and the float power operator, which calls the C library's
    [pow].  Their code is not in the repository; each gives a float or
    raises. *)
Class PyMath := {
  math_radians : float -> result float;
  math_sin : float -> result float;
  math_cos : float -> result float;
  math_asin : float -> result float;
  float_pow : float -> float -> result float
}.

(** [math.sqrt]: the correctly rounded square root; a negative argument
    raises [ValueError]. *)
Definition math_sqrt (x : float) : result float :=
  let r := PrimFloat.sqrt x in
  if PrimFloat.is_nan r && negb (PrimFloat.is_nan x) then Raise ValueError else Ok r.

(** A number in a matrix cell: the [0] the matrix is filled with is an
    integer, a computed distance is a float. *)
Inductive Number :=
| Int (z : Z)
| Float (f : float).

(** [round(x)] on a float: the nearest integer, a tie going to the even one;
    [ValueError] on a NaN and [OverflowError] on an infinity. *)
Definition round_half_even (m : positive) (e : Z) : Z :=
  if (0 <=? e)%Z then Z.pos m * 2 ^ e
  else
    let d := (2 ^ (- e))%Z in
    let q := (Z.pos m / d)%Z in
    let r := (Z.pos m mod d)%Z in
    match (2 * r ?= d)%Z with
    | Lt => q
    | Gt => q + 1
    | Eq => if Z.even q then q else q + 1
    end%Z.

Definition round (x : float) : result Z :=
  match Prim2SF x with
  | S754_zero _ => Ok 0%Z
  | S754_infinity _ => Raise OverflowError
  | S754_nan => Raise ValueError
  | S754_finite s m e => Ok (cond_Zopp s (round_half_even m e))
  end.

Section Matrices.
Context {M : PyMath}.
Local Open Scope py_scope.

Definition haversine (lat1 lon1 lat2 lon2 : float) : result float :=
  let R := 6371%float in
  do lat1 <- math_radians lat1;
  do lon1 <- math_radians lon1;
  do lat2 <- math_radians lat2;
  do lon2 <- math_radians lon2;
  let dlat := (lat2 - lat1)%float in
  let dlon := (lon2 - lon1)%float in
  do s1 <- math_sin (dlat / 2)%float;
  do s1 <- float_pow s1 2%float;
  do c1 <- math_cos lat1;
  do c2 <- math_cos lat2;
  do s2 <- math_sin (dlon / 2)%float;
  do s2 <- float_pow s2 2%float;
  let a := (s1 + c1 * c2 * s2)%float in
  do r <- math_sqrt a;
  do r <- math_asin r;
  let c := (2 * r)%float in
  Ok (R * c)%float.

(** The body of the inner loop, on the pair of matrices. *)
Definition matrix_cell (df : DataFrame) (i j : nat)
    (ms : list (list Number) * list (list Z))
    : result (list (list Number) * list (list Z)) :=
  let '(dist_matrix, time_matrix) := ms in
  if i =? j then Ok ms
  else
    do lat_i <- getitem (lats df) i;
    do lon_i <- getitem (lons df) i;
    do lat_j <- getitem (lats df) j;
    do lon_j <- getitem (lons df) j;
    do d <- haversine lat_i lon_i lat_j lon_j;
    let dist_matrix := alter (<[j := Float d]>) i dist_matrix in
    do t <- round (d * 2)%float;
    let time_matrix := alter (<[j := t]>) i time_matrix in
    Ok (dist_matrix, time_matrix).

Definition build_matrices (df : DataFrame)
    : result (list (list Number) * list (list Z)) :=
  let n := num_nodes df in
  let dist_matrix := replicate n (replicate n (Int 0)) in
  let time_matrix := replicate n (replicate n 0%Z) in
  for_in (seq 0 n)
    (fun i => for_in (seq 0 n) (fun j => matrix_cell df i j))
    (dist_matrix, time_matrix).
End Matrices.

(** ** 3. The routing library's interface

    The library is not part of the repository.  What follows is the part of
    its interface the script calls: the index manager, the model with its
    dimensions, an assignment of the model's variables, and the constraints
    an assignment returned by the library satisfies. *)

(** [RoutingIndexManager(num_nodes, num_vehicles, depot)].  Indices
    [0 .. num_nodes-1] stand for the nodes themselves (the depot's own index
    is the start of vehicle 0), then come the starts of vehicles [1 ..], then
    the ends of all vehicles. *)
Record RoutingIndexManager := mkManager {
  mgr_nodes : nat;
  mgr_vehicles : nat;
  mgr_depot : nat
}.

(** Number of indices that have a successor (all but the vehicle ends). *)
Definition Size (m : RoutingIndexManager) : nat :=
  mgr_nodes m + mgr_vehicles m - 1.

Definition GetNumberOfIndices (m : RoutingIndexManager) : nat :=
  Size m + mgr_vehicles m.

(** [IndexToNode] is given for the indices of the manager, those below
    [GetNumberOfIndices]; the library passes no other to a callback and an
    assignment it returns holds no other.  Past the last index the library
    reads out of bounds, which nothing here describes. *)
Definition IndexToNode (m : RoutingIndexManager) (index : nat) : nat :=
  if index <? mgr_nodes m then index else mgr_depot m.

Definition NodeToIndex (m : RoutingIndexManager) (node : nat) : nat := node.

Definition Start (m : RoutingIndexManager) (v : nat) : nat :=
  if v =? 0 then mgr_depot m else mgr_nodes m + v - 1.

Definition End (m : RoutingIndexManager) (v : nat) : nat := Size m + v.

Definition IsEnd (m : RoutingIndexManager) (index : nat) : bool :=
  Size m <=? index.

(** A dimension: a quantity accumulated along each route.  [dim_cumul_range]
    holds the current bounds of [CumulVar(index)]. *)
Record Dimension := mkDimension {
  dim_name : string;
  dim_transit : nat -> nat -> Z;
  dim_slack_max : Z;
  dim_capacities : list Z;
  dim_fix_start_cumul_to_zero : bool;
  dim_cumul_range : list (Z * Z)
}.

Record RoutingModel := mkRouting {
  manager : RoutingIndexManager;
  arc_cost : nat -> nat -> Z;
  dimensions : list Dimension
}.

Definition NewRoutingModel (m : RoutingIndexManager) : RoutingModel :=
  {| manager := m; arc_cost := fun _ _ => 0%Z; dimensions := [] |}.

Definition RegisterTransitCallback (cb : nat -> nat -> Z) : nat -> nat -> Z := cb.

Definition RegisterUnaryTransitCallback (cb : nat -> Z) : nat -> nat -> Z :=
  fun from_index _ => cb from_index.

Definition SetArcCostEvaluatorOfAllVehicles
    (evaluator : nat -> nat -> Z) (r : RoutingModel) : RoutingModel :=
  {| manager := manager r; arc_cost := evaluator; dimensions := dimensions r |}.

Definition list_max (l : list Z) : Z := fold_right Z.max 0%Z l.

(** Every cumul variable starts with the range [0 .. largest capacity]. *)
Definition AddDimensionWithVehicleCapacity
    (evaluator : nat -> nat -> Z) (slack_max : Z) (capacities : list Z)
    (fix_start_cumul_to_zero : bool) (name : string)
    (r : RoutingModel) : RoutingModel :=
  {| manager := manager r;
     arc_cost := arc_cost r;
     dimensions := dimensions r ++
       [ {| dim_name := name;
            dim_transit := evaluator;
            dim_slack_max := slack_max;
            dim_capacities := capacities;
            dim_fix_start_cumul_to_zero := fix_start_cumul_to_zero;
            dim_cumul_range :=
              replicate (GetNumberOfIndices (manager r))
                        (0%Z, list_max capacities) |} ] |}.

Definition AddDimension
    (evaluator : nat -> nat -> Z) (slack_max capacity : Z)
    (fix_start_cumul_to_zero : bool) (name : string)
    (r : RoutingModel) : RoutingModel :=
  AddDimensionWithVehicleCapacity evaluator slack_max
    (replicate (mgr_vehicles (manager r)) capacity)
    fix_start_cumul_to_zero name r.

(** [IntVar.SetRange(l, u)] narrows the variable's domain, it never widens
    it. *)
Definition narrow (l u : Z) (range : Z * Z) : Z * Z :=
  (Z.max (fst range) l, Z.min (snd range) u).

Definition dim_SetRange (index : nat) (l u : Z) (d : Dimension) : Dimension :=
  {| dim_name := dim_name d;
     dim_transit := dim_transit d;
     dim_slack_max := dim_slack_max d;
     dim_capacities := dim_capacities d;
     dim_fix_start_cumul_to_zero := dim_fix_start_cumul_to_zero d;
     dim_cumul_range := alter (narrow l u) index (dim_cumul_range d) |}.

(** The model once [CumulVar(index)] of the dimension [name] has been
    narrowed: the dimension object the script holds in [time_dim] is the
    model's own, so the model changes. *)
Definition set_range
    (name : string) (index : nat) (l u : Z) (r : RoutingModel) : RoutingModel :=
  {| manager := manager r;
     arc_cost := arc_cost r;
     dimensions :=
       map (fun d => if String.eqb (dim_name d) name
                     then dim_SetRange index l u d else d)
           (dimensions r) |}.

(** The range of [routing.GetDimensionOrDie(name).CumulVar(index)]. *)
Definition CumulVar_range (r : RoutingModel) (name : string) (index : nat)
    : option (Z * Z) :=
  d ← find (fun d => String.eqb (dim_name d) name) (dimensions r);
  dim_cumul_range d !! index.

(** The library's integers have 64 bits. *)
Definition int64 (z : Z) : bool := (- 2 ^ 63 <=? z)%Z && (z <? 2 ^ 63)%Z.

(** [routing.GetDimensionOrDie(name).CumulVar(index).SetRange(l, u)].  A
    bound that does not fit 64 bits raises [OverflowError] when the wrapper
    converts it.  A range that leaves the variable no value makes the solver
    fail, which the wrapper raises as an exception.  Otherwise the variable
    is narrowed. *)
Definition CumulVar_SetRange
    (name : string) (index : nat) (l u : Z) (r : RoutingModel)
    : result RoutingModel :=
  if int64 l && int64 u then
    let r' := set_range name index l u r in
    match CumulVar_range r' name index with
    | Some (lo, hi) => if (lo <=? hi)%Z then Ok r' else Raise SolverFail
    | None => Ok r'
    end
  else Raise OverflowError.

(** An assignment of the model's variables: the successor of every index and
    the cumul of every dimension at every index. *)
Record Assignment := mkAssignment {
  NextVar : nat -> nat;
  CumulValue : string -> nat -> Z
}.

(** The indices met from [index] on, up to and with the first end index.
    [None] when [fuel] successors were followed without reaching an end. *)
Fixpoint route_from (m : RoutingIndexManager) (next : nat -> nat)
    (fuel index : nat) : option (list nat) :=
  match fuel with
  | 0 => None
  | S fuel' =>
      if IsEnd m index then Some [index]
      else cons index <$> route_from m next fuel' (next index)
  end.

Definition vehicle_route (m : RoutingIndexManager) (a : Assignment) (v : nat)
    : option (list nat) :=
  route_from m (NextVar a) (GetNumberOfIndices m) (Start m v).

Fixpoint arcs (p : list nat) : list (nat * nat) :=
  match p with
  | i :: (j :: _) as q => (i, j) :: arcs q
  | _ => []
  end.

Definition in_range (range : option (Z * Z)) (x : Z) : bool :=
  match range with
  | Some (l, u) => (l <=? x)%Z && (x <=? u)%Z
  | None => false
  end.

(** The constraints of one dimension on the route of vehicle [v]:
    every cumul lies in its variable's range and under the vehicle's
    capacity, each arc adds its transit and a slack between 0 and the
    dimension's allowance, and the start cumul is 0 when the dimension says
    so. *)
Definition dimension_holds (m : RoutingIndexManager) (d : Dimension)
    (cumul : nat -> Z) (v : nat) (p : list nat) : bool :=
  forallb (fun i => in_range (dim_cumul_range d !! i) (cumul i)
                    && in_range ((fun c => (0%Z, c)) <$> dim_capacities d !! v) (cumul i)) p
  && forallb (fun '(i, j) =>
                let slack := (cumul j - cumul i - dim_transit d i j)%Z in
                (0 <=? slack)%Z && (slack <=? dim_slack_max d)%Z) (arcs p)
  && (if dim_fix_start_cumul_to_zero d then (cumul (Start m v) =? 0)%Z else true).

Definition all_routes (m : RoutingIndexManager) (a : Assignment) : list nat :=
  flat_map (fun v => default [] (vehicle_route m a v)) (seq 0 (mgr_vehicles m)).

(** What the library promises of an assignment it returns for model [r]:
    the successors form one path per vehicle from its start to its end, every
    index that has a successor lies on exactly one of them (the script
    declares no optional node), and every dimension holds on every route.
    A path never has more indices than the manager has, which bounds the
    walk. *)
Definition IsFeasible (r : RoutingModel) (a : Assignment) : bool :=
  let m := manager r in
  forallb (fun v =>
             match vehicle_route m a v with
             | None => false
             | Some p =>
                 bool_decide (last p = Some (End m v))
                 && forallb (fun d => dimension_holds m d (CumulValue a (dim_name d)) v p)
                            (dimensions r)
             end) (seq 0 (mgr_vehicles m))
  && forallb (fun i => count_occ Nat.eq_dec (all_routes m a) i =? 1) (seq 0 (Size m)).

(** ** 3. The script's model *)

Section Model.
Variable df : DataFrame.
Variable time_matrix : list (list Z).

Definition script_manager : RoutingIndexManager :=
  {| mgr_nodes := num_nodes df; mgr_vehicles := num_vehicles; mgr_depot := depot_index |}.

(** [time_matrix[f][t]] and [demands[node]], for the indices of the
    manager, the only ones the library passes: there [IndexToNode] yields a
    row of the table, and the positions are in range for the matrices the
    script builds. *)
Definition time_callback (from_index to_index : nat) : Z :=
  let f := IndexToNode script_manager from_index in
  let t := IndexToNode script_manager to_index in
  default 0%Z (time_matrix !! f ≫= (.!! t)).

Definition demand_callback (from_index : nat) : Z :=
  let node := IndexToNode script_manager from_index in
  default 0%Z (demands df !! node).

Definition enumerate {A} (l : list A) : list (nat * A) := zip (seq 0 (length l)) l.

(** Lines 54-100 as they run.  The library reads a callback of one
    argument at every index that has a successor when a dimension is added on
    it, so line 72 raises when a demand does not fit 64 bits; the callback of
    two arguments is only read by the search.  Each [SetRange] of the two
    loops can raise. *)
Definition declare_routing : result RoutingModel :=
  (let routing := NewRoutingModel script_manager in
   let transit_callback_index := RegisterTransitCallback time_callback in
   let routing := SetArcCostEvaluatorOfAllVehicles transit_callback_index routing in
   let demand_callback_index := RegisterUnaryTransitCallback demand_callback in
   do routing <-
     (if forallb (fun index => int64 (demand_callback index))
                 (seq 0 (Size script_manager))
      then Ok (AddDimensionWithVehicleCapacity demand_callback_index 0
                 vehicle_capacities true "Capacity" routing)
      else Raise SystemError);
   let routing :=
     AddDimension transit_callback_index 30 max_route_duration false "Time" routing in
   do routing <-
     for_in (enumerate (time_windows df))
       (fun '(node_idx, (start, end_)) routing =>
          let index := NodeToIndex script_manager node_idx in
          CumulVar_SetRange "Time" index start end_ routing)
       routing;
   do routing <-
     for_in (seq 0 num_vehicles)
       (fun v routing =>
          let start_index := Start script_manager v in
          CumulVar_SetRange "Time" start_index 0 max_route_duration routing)
       routing;
   Ok routing)%py.

(** The model that lines 54-100 leave when none of them raises: every
    [SetRange] has narrowed its variable. *)
Definition script_routing : RoutingModel :=
  let routing := NewRoutingModel script_manager in
  let transit_callback_index := RegisterTransitCallback time_callback in
  let routing := SetArcCostEvaluatorOfAllVehicles transit_callback_index routing in
  let demand_callback_index := RegisterUnaryTransitCallback demand_callback in
  let routing :=
    AddDimensionWithVehicleCapacity demand_callback_index 0 vehicle_capacities
      true "Capacity" routing in
  let routing :=
    AddDimension transit_callback_index 30 max_route_duration false "Time" routing in
  let routing :=
    fold_left (fun routing '(node_idx, (start, end_)) =>
                 let index := NodeToIndex script_manager node_idx in
                 set_range "Time" index start end_ routing)
              (enumerate (time_windows df)) routing in
  let routing :=
    fold_left (fun routing v =>
                 let start_index := Start script_manager v in
                 set_range "Time" start_index 0 max_route_duration routing)
              (seq 0 num_vehicles) routing in
  routing.
End Model.

(** The search parameters the script sets. *)
Inductive FirstSolutionStrategy := PATH_CHEAPEST_ARC.
Inductive LocalSearchMetaheuristic := GUIDED_LOCAL_SEARCH.

Record RoutingSearchParameters := mkParams {
  first_solution_strategy : FirstSolutionStrategy;
  local_search_metaheuristic : LocalSearchMetaheuristic;
  time_limit_seconds : Z
}.

Definition params : RoutingSearchParameters :=
  {| first_solution_strategy := PATH_CHEAPEST_ARC;
     local_search_metaheuristic := GUIDED_LOCAL_SEARCH;
     time_limit_seconds := 10 |}.

(** [routing.SolveWithParameters]: the library's search, a solution or
    nothing. *)
Definition Solver := RoutingModel -> RoutingSearchParameters -> option Assignment.

(** ** 4. Extract routes per vehicle *)

(** The script's variables that section 4 reads or writes. *)
Record Store := mkStore {
  routing : RoutingModel;
  solution : Assignment;
  vehicle_routes : list (nat * list nat);
  vehicle_times : list (nat * list Z);
  vehicle_loads : list (nat * Z)
}.

(** The three dictionaries are created empty. *)
Definition empty_store (r : RoutingModel) (a : Assignment) : Store :=
  {| routing := r; solution := a;
     vehicle_routes := []; vehicle_times := []; vehicle_loads := [] |}.

(** [d[k] = x] on a dictionary kept in insertion order. *)
Fixpoint dict_set {A} (k : nat) (x : A) (d : list (nat * A)) : list (nat * A) :=
  match d with
  | [] => [(k, x)]
  | (k', y) :: d' => if k' =? k then (k, x) :: d' else (k', y) :: dict_set k x d'
  end.

Fixpoint dict_get {A} (k : nat) (d : list (nat * A)) : option A :=
  match d with
  | [] => None
  | (k', y) :: d' => if k' =? k then Some y else dict_get k d'
  end.

(** [for x in l: body], where the body can fail to end. *)
Fixpoint for_each {A S} (l : list A) (body : A -> S -> option S) (s : S) : option S :=
  match l with
  | [] => Some s
  | x :: l' => body x s ≫= for_each l' body
  end.

Section Extract.
Variable df : DataFrame.

(** The [while not routing.IsEnd(index)] loop.  It yields the index at
    which it stops and the three accumulators; [None] when [fuel] rounds
    did not reach an end index.  [demands[node]] is always in range, as in
    [demand_callback]. *)
Fixpoint route_loop (s : Store) (fuel index : nat)
    (route_nodes : list nat) (route_times : list Z) (total_load : Z)
    : option (nat * list nat * list Z * Z) :=
  match fuel with
  | 0 => None
  | S fuel' =>
      if IsEnd (manager (routing s)) index
      then Some (index, route_nodes, route_times, total_load)
      else
        let node := IndexToNode (manager (routing s)) index in
        let time_val := CumulValue (solution s) "Time" index in
        let route_nodes := route_nodes ++ [node] in
        let route_times := route_times ++ [time_val] in
        let total_load := (total_load + default 0 (demands df !! node))%Z in
        let index := NextVar (solution s) index in
        route_loop s fuel' index route_nodes route_times total_load
  end.

(** The body of [for v in range(num_vehicles)]. *)
Definition extract_vehicle (v : nat) (s : Store) : option Store :=
  let index := Start (manager (routing s)) v in
  '(index, route_nodes, route_times, total_load) ←
    route_loop s (GetNumberOfIndices (manager (routing s))) index [] [] 0%Z;
  (* add final depot *)
  let node := IndexToNode (manager (routing s)) index in
  let time_val := CumulValue (solution s) "Time" index in
  let route_nodes := route_nodes ++ [node] in
  let route_times := route_times ++ [time_val] in
  if 2 <? length route_nodes
  then Some {| routing := routing s;
               solution := solution s;
               vehicle_routes := dict_set v route_nodes (vehicle_routes s);
               vehicle_times := dict_set v route_times (vehicle_times s);
               vehicle_loads := dict_set v total_load (vehicle_loads s) |}
  else Some s.

Definition extract_routes (s : Store) : option Store :=
  for_each (seq 0 num_vehicles) extract_vehicle s.

(** The console report: one string per call of [print]. *)
Definition newline : string := String (Ascii.ascii_of_nat 10) EmptyString.

Definition print_route (s : Store) (v : nat) (nodes : list nat) : list string :=
  let names := map (fun i => default EmptyString (cities df !! i)) nodes in
  let times_v := default [] (dict_get v (vehicle_times s)) in
  [ newline +:+ "Vehicle " +:+ pretty v +:+ " route (load="
      +:+ pretty (default 0%Z (dict_get v (vehicle_loads s))) +:+ "):" ]
  ++ map (fun '(name, t) => "  " +:+ name +:+ " at t=" +:+ pretty t) (zip names times_v)
  ++ [ EmptyString ].

Definition print_routes (s : Store) : list string :=
  flat_map (fun '(v, nodes) => print_route s v nodes) (vehicle_routes s).
End Extract.

(** ** 5. Map visualization *)

(** The colour of each route. *)
Definition colors : list string := ["blue"; "red"; "orange"; "purple"; "brown"].

Definition route_colors (routes : list (nat * list nat)) : list (nat * result string) :=
  map (fun '(idx, (v, nodes)) => (v, getitem colors (idx mod length colors)))
      (enumerate routes).

(** The points of each route.  A point of the map is what
    [points_from_xy(lon, lat)] gives once [to_crs] has carried it to the
    map's projection; the projection is the plotting library's. *)
Section Plot.
Variable Point : Type.
Variable to_crs : float -> float -> Point.

Definition geometry (row : Row) : Point := to_crs (lon row) (lat row).

(** [d[k] = x] and [d[k]] on a dictionary with string keys. *)
Fixpoint name_set (k : string) (x : Point) (d : list (string * Point))
    : list (string * Point) :=
  match d with
  | [] => [(k, x)]
  | (k', y) :: d' => if String.eqb k' k then (k, x) :: d' else (k', y) :: name_set k x d'
  end.

Fixpoint name_get (k : string) (d : list (string * Point)) : option Point :=
  match d with
  | [] => None
  | (k', y) :: d' => if String.eqb k' k then Some y else name_get k d'
  end.

(** [coords = {row["city"]: row.geometry for _, row in gdf_points.iterrows()}] *)
Definition coords (df : DataFrame) : list (string * Point) :=
  fold_left (fun d row => name_set (city row) (geometry row) d) df [].

(** What the two lookups of the plotting loop can raise. *)
Inductive LookupError := CitiesIndexError | CoordsKeyError.

(** A list comprehension whose element expression can raise. *)
Fixpoint comprehension {A B : Type} (f : A -> LookupError + B) (l : list A)
    : LookupError + list B :=
  match l with
  | [] => inr []
  | x :: l' =>
      match f x with
      | inl e => inl e
      | inr y =>
          match comprehension f l' with
          | inl e => inl e
          | inr ys => inr (y :: ys)
          end
      end
  end.

(** [route_cities = [cities[i] for i in nodes]] and
    [pts = [coords[c] for c in route_cities]] *)
Definition route_points (df : DataFrame) (nodes : list nat) : LookupError + list Point :=
  match comprehension (fun i => match cities df !! i with
                                | Some c => inr c
                                | None => inl CitiesIndexError
                                end) nodes with
  | inl e => inl e
  | inr route_cities =>
      comprehension (fun c => match name_get c (coords df) with
                              | Some p => inr p
                              | None => inl CoordsKeyError
                              end) route_cities
  end.

End Plot.

(** ** The script from top to bottom *)

(** What the script does to the world around it, in order: the call of the
    library's search and the lines it prints. *)
Inductive Effect :=
| SolveWithParameters (r : RoutingModel) (p : RoutingSearchParameters)
| print (line : string).

(** How a run ends: an uncaught exception, the index manager refusing a table
    without a depot row, [exit()], an extraction loop that never leaves, or
    control reaching the plotting section with the three dictionaries.  The
    search is taken as a call that returns. *)
Inductive Outcome :=
| Raised (e : Exception)
| Aborted
| Exited
| Hangs
| Plots (s : Store).

Record Run := mkRun {
  effects : list Effect;
  outcome : Outcome
}.

Definition script {M : PyMath} (solve : Solver) (df : DataFrame) : Run :=
  match build_matrices df with
  | Raise e => {| effects := []; outcome := Raised e |}
  | Ok (dist_matrix, time_matrix) =>
      if num_nodes df =? 0 then {| effects := []; outcome := Aborted |}
      else
        match declare_routing df time_matrix with
        | Raise e => {| effects := []; outcome := Raised e |}
        | Ok routing =>
            match solve routing params with
            | None =>
                {| effects := [SolveWithParameters routing params;
                               print "No solution found."];
                   outcome := Exited |}
            | Some solution =>
                match extract_routes df (empty_store routing solution) with
                | None =>
                    {| effects := [SolveWithParameters routing params];
                       outcome := Hangs |}
                | Some s' =>
                    {| effects := SolveWithParameters routing params
                                  :: map print (print_routes df s');
                       outcome := Plots s' |}
                end
            end
        end
  end.

(** * Definitions for the statements *)

(** ** What section 4 records of a route *)

Definition Zsum (l : list Z) : Z := fold_right Z.add 0%Z l.

(** What the extraction records of a route [p]: its nodes, the Time cumul at
    each of its indices, and the demands of the nodes before the final
    depot. *)
Definition nodes_of (m : RoutingIndexManager) (p : list nat) : list nat :=
  map (IndexToNode m) p.

Definition times_of (a : Assignment) (p : list nat) : list Z :=
  map (CumulValue a "Time") p.

Definition load_of (df : DataFrame) (m : RoutingIndexManager) (p : list nat) : Z :=
  Zsum (map (fun j => default 0%Z (demands df !! IndexToNode m j)) (removelast p)).

(** The vehicles, among [vs], whose route has more than two indices, each
    with its route. *)
Definition kept_routes (m : RoutingIndexManager) (a : Assignment) (vs : list nat)
    : list (nat * list nat) :=
  omap (fun v => p ← vehicle_route m a v;
                 if 2 <? length p then Some (v, p) else None) vs.

(** ** The two dimensions of the script's model *)

Definition with_range (d : Dimension) (ranges : list (Z * Z)) : Dimension :=
  {| dim_name := dim_name d;
     dim_transit := dim_transit d;
     dim_slack_max := dim_slack_max d;
     dim_capacities := dim_capacities d;
     dim_fix_start_cumul_to_zero := dim_fix_start_cumul_to_zero d;
     dim_cumul_range := ranges |}.

Definition capacity_dimension (df : DataFrame) : Dimension :=
  {| dim_name := "Capacity";
     dim_transit := RegisterUnaryTransitCallback (demand_callback df);
     dim_slack_max := 0;
     dim_capacities := vehicle_capacities;
     dim_fix_start_cumul_to_zero := true;
     dim_cumul_range :=
       replicate (GetNumberOfIndices (script_manager df)) (0%Z, 15%Z) |}.

Definition time_dimension (df : DataFrame) (time_matrix : list (list Z))
    (ranges : list (Z * Z)) : Dimension :=
  {| dim_name := "Time";
     dim_transit := RegisterTransitCallback (time_callback df time_matrix);
     dim_slack_max := 30;
     dim_capacities := replicate num_vehicles max_route_duration;
     dim_fix_start_cumul_to_zero := false;
     dim_cumul_range := ranges |}.

(** The ranges of the Time cumul variables once the script has stated the
    time windows and the depot start times. *)
Definition time_ranges (df : DataFrame) : list (Z * Z) :=
  fold_left
    (fun rs v => alter (narrow 0 max_route_duration) (Start (script_manager df) v) rs)
    (seq 0 num_vehicles)
    (fold_left
       (fun rs x => alter (narrow (fst (snd x)) (snd (snd x)))
                          (NodeToIndex (script_manager df) (fst x)) rs)
       (enumerate (time_windows df))
       (replicate (GetNumberOfIndices (script_manager df)) (0%Z, max_route_duration))).

(** ** Cells of the matrices *)

(** [mx[i][j]] *)
Definition cell {A} (mx : list (list A)) (i j : nat) : option A :=
  mx !! i ≫= (.!! j).

(** What the loop body computes for the cell [(i, j)]: the distance and the
    travel time. *)
Definition computed {M : PyMath} (df : DataFrame) (i j : nat) : result (float * Z) :=
  (do lat_i <- getitem (lats df) i;
   do lon_i <- getitem (lons df) i;
   do lat_j <- getitem (lats df) j;
   do lon_j <- getitem (lons df) j;
   do d <- haversine lat_i lon_i lat_j lon_j;
   do t <- round (d * 2)%float;
   Ok (d, t))%py.

(** The cell [(k, l)] of both matrices holds what the body computes for it. *)
Definition written {M : PyMath} (df : DataFrame)
    (ms : list (list Number) * list (list Z)) (k l : nat) : Prop :=
  exists d t, computed df k l = Ok (d, t)
              /\ cell (fst ms) k l = Some (Float d) /\ cell (snd ms) k l = Some t.

(** Both matrices have a cell at every position below [n]. *)
Definition defined (n : nat) (ms : list (list Number) * list (list Z)) : Prop :=
  forall k l, k < n -> l < n ->
    is_Some (cell (fst ms) k l) /\ is_Some (cell (snd ms) k l).

(** A number that is at least zero. *)
Definition at_least_zero (x : Number) : Prop :=
  match x with
  | Int z => (0 <= z)%Z
  | Float f => (0 <=? f)%float = true
  end.

(** The travel time that goes with a distance: 0 with the initial 0, the
    rounding of twice the distance otherwise. *)
Definition time_of_distance (x : Number) (t : Z) : Prop :=
  match x with
  | Int z => z = 0%Z /\ t = 0%Z
  | Float f => round (f * 2)%float = Ok t
  end.

(** ** Signs of floats, and what the formula needs of the C library *)

(** Not negative: a NaN, a zero of either sign, or a number with a positive sign *)
Definition not_negative (x : float) : Prop := (x <? 0)%float = false.

Definition SFnot_negative (x : spec_float) : Prop :=
  match x with
  | S754_infinity s | S754_finite s _ _ => s = false
  | _ => True
  end.

(** What the script's formula needs of the C library: [sin] is odd, a square
    does not depend on the sign, and [asin] of a number that is not negative
    is not negative. *)
Class CLibraryFacts (M : PyMath) : Prop := {
  sin_odd : forall x s, math_sin x = Ok s -> math_sin (- x)%float = Ok (- s)%float;
  square_even : forall x, float_pow (- x)%float 2%float = float_pow x 2%float;
  asin_not_negative :
    forall x r, math_asin x = Ok r -> not_negative x -> not_negative r
}.

(** ** The defects of a problem instance *)

(** The defects the specification lists for a problem instance. *)
Definition negative_demand (df : DataFrame) : bool :=
  existsb (fun r => (demand r <? 0)%Z) df.

Definition non_positive_capacity : bool :=
  existsb (fun c => (c <=? 0)%Z) vehicle_capacities.

Definition depot_demand_nonzero (df : DataFrame) : bool :=
  match df !! depot_index with
  | Some r => negb (demand r =? 0)%Z
  | None => false
  end.

Definition inverted_window (df : DataFrame) : bool :=
  existsb (fun r => (tw_end r <? tw_start r)%Z) df.

(** A node the depot cannot reach in time even on a direct trip. *)
Definition unreachable_node (df : DataFrame) (time_matrix : list (list Z)) : bool :=
  existsb (fun '(n, r) =>
             match cell time_matrix depot_index n with
             | Some t => (Z.min (tw_end r) max_route_duration <? t)%Z
             | None => false
             end) (enumerate df).

Definition malformed (df : DataFrame) (time_matrix : list (list Z)) : bool :=
  negative_demand df || non_positive_capacity || depot_demand_nonzero df
  || inverted_window df || unreachable_node df time_matrix.

Definition search_attempted (run : Run) : Prop :=
  exists r p, In (SolveWithParameters r p) (effects run).

(** ** What lines 54-100 need of a table *)

(** The integers of the table fit the library's 64 bits. *)
Definition table_int64 (df : DataFrame) : bool :=
  forallb (fun r => int64 (demand r) && int64 (tw_start r) && int64 (tw_end r)) df.

(** The travel times fit them too. *)
Definition matrix_int64 (time_matrix : list (list Z)) : bool :=
  forallb (forallb int64) time_matrix.

(** A window that leaves its variable a value: it meets
    [0 .. max_route_duration]. *)
Definition window_accepted (row : Row) : bool :=
  (Z.max 0 (tw_start row) <=? Z.min max_route_duration (tw_end row))%Z.

Definition windows_accepted (df : DataFrame) : bool := forallb window_accepted df.

(** A range that holds a value; no range counts as one that does. *)
Definition nonempty (range : option (Z * Z)) : bool :=
  match range with
  | Some (lo, hi) => (lo <=? hi)%Z
  | None => true
  end.

(** The ranges of the Time cumul variables after the first loop. *)
Definition window_ranges (df : DataFrame) : list (Z * Z) :=
  fold_left
    (fun rs x => alter (narrow (fst (snd x)) (snd (snd x)))
                       (NodeToIndex (script_manager df) (fst x)) rs)
    (enumerate (time_windows df))
    (replicate (GetNumberOfIndices (script_manager df)) (0%Z, max_route_duration)).

(** ** A small table for the examples: the depot and two customers *)

Definition example_df : DataFrame :=
  [ mkRow "Depot" 60.1875%float 24.9375%float 0 0 240;
    mkRow "Kallio" 60.25%float 25%float 5 0 100;
    mkRow "Espoo" 60.3125%float 24.75%float 7 50 120 ].

(** A stand-in for the C library, exact enough to run the script on
    coordinates as close to each other as the example's: the half-differences
    of the angles are about a thousandth of a radian, where [sin x] and
    [asin x] are [x] to seven digits; [cos] is a power series; the only power
    the script takes is a square.  First pi / 180 and the series. *)
Definition deg_to_rad : float := (0x1.921fb54442d18p+1 / 180)%float.

Definition cos_series (x : float) : float :=
  let y := (x * x)%float in
  (1 - y / 2 * (1 - y / 12 * (1 - y / 30 * (1 - y / 56 * (1 - y / 90 *
     (1 - y / 132 * (1 - y / 182 * (1 - y / 240 * (1 - y / 306)))))))))%float.

Definition small_angle_math : PyMath :=
  {| math_radians := fun x => Ok (x * deg_to_rad)%float;
     math_sin := fun x => Ok x;
     math_cos := fun x => Ok (cos_series x);
     math_asin := fun x =>
       if (PrimFloat.abs x <=? 1)%float then Ok x else Raise ValueError;
     float_pow := fun x y =>
       if (y =? 2)%float then Ok (x * x)%float else Raise ValueError |}.

(** The travel times the script computes for the example (the same integers
    as with the real C library). *)
Definition example_time_matrix : list (list Z) :=
  [[0; 16; 35]; [16; 0; 31]; [35; 31; 0]]%Z.

Definition example_dist_matrix : list (list Number) :=
  Eval vm_compute in
    match build_matrices (M := small_angle_math) example_df with
    | Ok ms => fst ms
    | Raise _ => []
    end.

(** Vehicle 0 serves both customers, waiting 3 minutes for the second
    window to open; vehicles 1 and 2 stay at the depot.  Indices 0 to 2 are
    the nodes, 3 and 4 the starts of vehicles 1 and 2, 5 to 7 the ends. *)
Definition example_solution : Assignment :=
  {| NextVar := fun index => nth index [1; 2; 5; 6; 7] 0;
     CumulValue := fun name index =>
       if String.eqb name "Time"
       then nth index [0; 16; 50; 0; 0; 85; 0; 0]%Z 0%Z
       else nth index [0; 0; 5; 0; 0; 12; 0; 0]%Z 0%Z |}.

(** A search that tries one candidate and returns it when it is feasible. *)
Definition try_candidate (candidate : Assignment) : Solver :=
  fun r _ => if IsFeasible r candidate then Some candidate else None.

(** A search that finds nothing. *)
Definition no_solution : Solver := fun _ _ => None.

(** The example with a customer that gives goods back: a negative demand. *)
Definition negative_demand_df : DataFrame :=
  [ mkRow "Depot" 60.1875%float 24.9375%float 0 0 240;
    mkRow "Kallio" 60.25%float 25%float 7 0 100;
    mkRow "Espoo" 60.3125%float 24.75%float (-5) 50 120 ].

Definition negative_demand_solution : Assignment :=
  {| NextVar := fun index => nth index [1; 2; 5; 6; 7] 0;
     CumulValue := fun name index =>
       if String.eqb name "Time"
       then nth index [0; 16; 50; 0; 0; 85; 0; 0]%Z 0%Z
       else nth index [0; 0; 7; 0; 0; 2; 0; 0]%Z 0%Z |}.

(** The example with the second customer's window turned around. *)
Definition inverted_window_df : DataFrame :=
  [ mkRow "Depot" 60.1875%float 24.9375%float 0 0 240;
    mkRow "Kallio" 60.25%float 25%float 5 0 100;
    mkRow "Espoo" 60.3125%float 24.75%float 7 120 50 ].

(** ** Definitions for the further properties *)

(** A search that only returns feasible assignments. *)
Definition sound (solve : Solver) : Prop :=
  forall r p a, solve r p = Some a -> IsFeasible r a = true.

(** Whether the route of vehicle [v] has more than two indices. *)
Definition long_route (m : RoutingIndexManager) (a : Assignment) (v : nat) : bool :=
  match vehicle_route m a v with
  | Some p => 2 <? length p
  | None => false
  end.

(** The lines printed for one recorded route [p] of vehicle [v]. *)
Definition report_of (df : DataFrame) (m : RoutingIndexManager) (a : Assignment)
    (v : nat) (p : list nat) : list string :=
  [ newline +:+ "Vehicle " +:+ pretty v +:+ " route (load="
      +:+ pretty (load_of df m p) +:+ "):" ]
  ++ map (fun i => "  " +:+ default EmptyString (cities df !! IndexToNode m i)
                   +:+ " at t=" +:+ pretty (CumulValue a "Time" i)) p
  ++ [ EmptyString ].

(** What section 4 leaves for the example, or the empty store had it not
    ended. *)
Definition example_store : Store :=
  default (empty_store (script_routing example_df example_time_matrix) example_solution)
    (extract_routes example_df
       (empty_store (script_routing example_df example_time_matrix) example_solution)).

(** The last row of the table with the city name [name]. *)
Definition last_named (df : DataFrame) (name : string) : option Row :=
  last (List.filter (fun r => String.eqb (city r) name) df).

(** A projection for the examples: the coordinates as they are. *)
Definition plate_carree (lon lat : float) : float * float := (lon, lat).

(** The example's table with its second customer renamed as the first. *)
Definition same_name_df : DataFrame :=
  [ mkRow "Depot" 60.1875%float 24.9375%float 0 0 240;
    mkRow "Kallio" 60.25%float 25%float 5 0 100;
    mkRow "Kallio" 60.3125%float 24.75%float 7 50 120 ].

(** A table with the depot row only, and the assignment that sends every
    vehicle from its start straight to its end. *)
Definition depot_only_df : DataFrame :=
  [ mkRow "Depot" 60.1875%float 24.9375%float 0 0 240 ].

Definition idle_solution : Assignment :=
  {| NextVar := fun index => index + 3; CumulValue := fun _ _ => 0%Z |}.

(** * Properties *)

(** ** Routes and the extraction loop *)

(** A route is a run of indices that have a successor, closed by an end
    index; it starts where the walk started and follows the successors. *)
Lemma route_from_inv m next fuel i p :
  route_from m next fuel i = Some p ->
  exists q e, p = q ++ [e] /\ IsEnd m e = true
              /\ Forall (fun j => IsEnd m j = false) q
              /\ head p = Some i.
Proof.
  revert i p. induction fuel as [|fuel IH]; intros i p H; simpl in H; [discriminate|].
  destruct (IsEnd m i) eqn:Hend.
  - inversion H; subst. exists [], i. repeat split; auto.
  - destruct (route_from m next fuel (next i)) as [p'|] eqn:Hp'; simpl in H; [|discriminate].
    inversion H; subst. destruct (IH _ _ Hp') as (q & e & -> & He & Hq & _).
    exists (i :: q), e. repeat split; auto.
Qed.

(** Consecutive indices of a route are linked by the successor function. *)
Lemma route_from_arcs m next fuel i p :
  route_from m next fuel i = Some p ->
  Forall (fun '(j, k) => k = next j) (arcs p).
Proof.
  revert i p. induction fuel as [|fuel IH]; intros i p H; simpl in H; [discriminate|].
  destruct (IsEnd m i).
  - inversion H; subst; constructor.
  - destruct (route_from m next fuel (next i)) as [p'|] eqn:Hp'; simpl in H; [|discriminate].
    inversion H; subst.
    destruct (route_from_inv _ _ _ _ _ Hp') as (q & e & Hqe & _ & _ & Hhd).
    destruct p' as [|j p']; [destruct q; discriminate|].
    simpl in Hhd. inversion Hhd; subst. simpl.
    constructor; [reflexivity | exact (IH _ _ Hp')].
Qed.

(** More fuel changes nothing once the walk has reached an end: the result
    does not depend on the bound. *)
Lemma route_from_more_fuel m next fuel fuel' i p :
  route_from m next fuel i = Some p -> fuel <= fuel' ->
  route_from m next fuel' i = Some p.
Proof.
  revert fuel' i p. induction fuel as [|fuel IH]; intros fuel' i p H Hle;
    simpl in H; [discriminate|].
  destruct fuel' as [|fuel']; [lia|]. simpl.
  destruct (IsEnd m i); [exact H|].
  destruct (route_from m next fuel (next i)) as [p'|] eqn:Hp'; simpl in H; [|discriminate].
  rewrite (IH fuel' _ _ Hp') by lia. exact H.
Qed.

(** A walk that reaches an end gives, from each index on it, the rest of
    the walk. *)
Lemma route_from_suffix m next fuel i p k j :
  route_from m next fuel i = Some p -> p !! k = Some j ->
  route_from m next (fuel - k) j = Some (drop k p).
Proof.
  revert i p k. induction fuel as [|fuel IH]; intros i p k H Hk; simpl in H; [discriminate|].
  destruct k as [|k].
  - assert (Hj : j = i).
    { destruct (IsEnd m i).
      - inversion H; subst. simpl in Hk. congruence.
      - destruct (route_from m next fuel (next i)); simpl in H; [|discriminate].
        inversion H; subst. simpl in Hk. congruence. }
    subst j. simpl. exact H.
  - destruct (IsEnd m i).
    + inversion H; subst. simpl in Hk. discriminate.
    + destruct (route_from m next fuel (next i)) as [p'|] eqn:Hp'; simpl in H; [|discriminate].
      inversion H; subst. simpl in Hk |- *. exact (IH _ _ _ Hp' Hk).
Qed.

Lemma route_from_unique m next fuel1 fuel2 i p1 p2 :
  route_from m next fuel1 i = Some p1 -> route_from m next fuel2 i = Some p2 -> p1 = p2.
Proof.
  intros H1 H2.
  apply (route_from_more_fuel _ _ _ (Nat.max fuel1 fuel2)) in H1; [|lia].
  apply (route_from_more_fuel _ _ _ (Nat.max fuel1 fuel2)) in H2; [|lia].
  congruence.
Qed.

(** No index comes twice on a walk that reaches an end. *)
Lemma route_from_NoDup m next fuel i p :
  route_from m next fuel i = Some p -> NoDup p.
Proof.
  revert i p. induction fuel as [|fuel IH]; intros i p H; [discriminate|].
  pose proof H as Hroute. simpl in H. destruct (IsEnd m i).
  - inversion H; subst. apply NoDup_cons; split; [apply not_elem_of_nil | apply NoDup_nil_2].
  - destruct (route_from m next fuel (next i)) as [p'|] eqn:Hp'; simpl in H; [|discriminate].
    inversion H; subst. apply NoDup_cons. split; [|exact (IH _ _ Hp')].
    intros Hin. apply list_elem_of_lookup_1 in Hin as [k Hk].
    pose proof (route_from_suffix _ _ _ _ _ _ _ Hp' Hk) as Hsuf.
    pose proof (route_from_unique _ _ _ _ _ _ _ Hroute Hsuf) as Heq.
    apply (f_equal length) in Heq. rewrite length_drop in Heq. simpl in Heq. lia.
Qed.

(** So a walk that reaches an end has at most as many indices as the manager
    has: the bound on the walk loses no route. *)
Lemma route_from_enough_fuel m next fuel i p :
  0 < mgr_vehicles m ->
  route_from m next fuel i = Some p ->
  route_from m next (GetNumberOfIndices m) i = Some p.
Proof.
  intros Hv H.
  destruct (route_from_inv _ _ _ _ _ H) as (q & e & -> & _ & Hq & _).
  assert (Hlen : length q <= Size m).
  { pose proof (route_from_NoDup _ _ _ _ _ H) as Hnd.
    apply NoDup_app in Hnd as (Hnd & _ & _).
    rewrite <- (length_seq (Size m) 0).
    apply NoDup_incl_length; [now apply NoDup_ListNoDup|].
    intros j Hj. apply in_seq. rewrite Forall_forall in Hq.
    apply list_elem_of_In in Hj. specialize (Hq j Hj).
    unfold IsEnd in Hq. apply Nat.leb_gt in Hq. lia. }
  destruct (Nat.le_gt_cases fuel (GetNumberOfIndices m)) as [Hle|Hgt].
  - exact (route_from_more_fuel _ _ _ _ _ _ H Hle).
  - assert (Hexact : forall n j r, route_from m next n j = Some r ->
                                   route_from m next (length r) j = Some r).
    { clear. induction n as [|n IH]; intros j r Hr; simpl in Hr; [discriminate|].
      destruct (IsEnd m j) eqn:Hend.
      - inversion Hr; subst. simpl. now rewrite Hend.
      - destruct (route_from m next n (next j)) as [r'|] eqn:Hr'; simpl in Hr; [|discriminate].
        inversion Hr; subst. simpl. rewrite Hend, (IH _ _ Hr'). reflexivity. }
    apply Hexact in H. apply (route_from_more_fuel _ _ _ _ _ _ H).
    rewrite length_app. simpl. unfold GetNumberOfIndices. lia.
Qed.

(** The extraction loop walks the same route: it stops at the route's end
    index, having appended the node and the Time cumul of every earlier index
    and added their demands. *)
Lemma route_loop_route_from df s fuel i q e rn rt tl :
  route_from (manager (routing s)) (NextVar (solution s)) fuel i = Some (q ++ [e]) ->
  IsEnd (manager (routing s)) e = true ->
  route_loop df s fuel i rn rt tl =
    Some (e,
          rn ++ map (IndexToNode (manager (routing s))) q,
          rt ++ map (CumulValue (solution s) "Time") q,
          (tl + Zsum (map (fun j => default 0%Z (demands df !! IndexToNode (manager (routing s)) j)) q))%Z).
Proof.
  revert i q rn rt tl. induction fuel as [|fuel IH]; intros i q rn rt tl H He;
    simpl in H |- *; [discriminate|].
  destruct (IsEnd (manager (routing s)) i) eqn:Hend.
  - inversion H as [Hp]. destruct q as [|j q].
    + simpl in Hp. inversion Hp; subst. simpl. rewrite !app_nil_r, Z.add_0_r. reflexivity.
    + simpl in Hp. inversion Hp as [[Hj Hq]]. destruct q; discriminate.
  - destruct (route_from _ _ fuel _) as [p'|] eqn:Hp'; simpl in H; [|discriminate].
    inversion H as [Hp]. destruct q as [|j q].
    + simpl in Hp. inversion Hp; subst. congruence.
    + simpl in Hp. inversion Hp; subst.
      rewrite (IH _ _ _ _ _ Hp' He). simpl.
      rewrite <- !app_assoc. simpl. do 2 f_equal. lia.
Qed.

Lemma route_loop_more_fuel df s fuel fuel' i rn rt tl r :
  route_loop df s fuel i rn rt tl = Some r -> fuel <= fuel' ->
  route_loop df s fuel' i rn rt tl = Some r.
Proof.
  revert fuel' i rn rt tl. induction fuel as [|fuel IH]; intros fuel' i rn rt tl H Hle;
    simpl in H; [discriminate|].
  destruct fuel' as [|fuel']; [lia|]. simpl.
  destruct (IsEnd (manager (routing s)) i); [exact H|].
  apply IH; [exact H | lia].
Qed.

(** Dictionaries. *)
Lemma dict_set_fresh {A} k (x : A) d :
  Forall (fun e => fst e < k) d -> dict_set k x d = d ++ [(k, x)].
Proof.
  induction 1 as [|[k' y] d Hk _ IH]; simpl; [reflexivity|].
  simpl in Hk. destruct (Nat.eqb_spec k' k); [lia|]. now rewrite IH.
Qed.

Lemma dict_get_In {A} k (x : A) d : dict_get k d = Some x -> In (k, x) d.
Proof.
  induction d as [|[k' y] d IH]; simpl; [discriminate|].
  destruct (Nat.eqb_spec k' k); intros H.
  - inversion H; subst. now left.
  - right. auto.
Qed.

Lemma lookup_map {A B} (f : A -> B) (l : list A) (i : nat) :
  map f l !! i = f <$> (l !! i).
Proof.
  revert i. induction l as [|x l IH]; intros [|i]; simpl; auto.
Qed.

Lemma extract_vehicle_spec df s v p :
  vehicle_route (manager (routing s)) (solution s) v = Some p ->
  extract_vehicle df v s =
    Some (if 2 <? length p
          then {| routing := routing s;
                  solution := solution s;
                  vehicle_routes :=
                    dict_set v (nodes_of (manager (routing s)) p) (vehicle_routes s);
                  vehicle_times :=
                    dict_set v (times_of (solution s) p) (vehicle_times s);
                  vehicle_loads :=
                    dict_set v (load_of df (manager (routing s)) p) (vehicle_loads s) |}
          else s).
Proof.
  intros Hp. unfold vehicle_route in Hp.
  destruct (route_from_inv _ _ _ _ _ Hp) as (q & e & -> & He & _ & _).
  unfold extract_vehicle.
  rewrite (route_loop_route_from df s _ _ q e [] [] 0%Z Hp He). simpl.
  unfold nodes_of, times_of, load_of.
  rewrite removelast_last, !map_app, !length_app, length_map. simpl.
  destruct (2 <? length q + 1); reflexivity.
Qed.

(** The loop over the vehicles leaves the model and the solution as they
    were and appends to each dictionary one entry per kept route, in the
    order of the vehicles. *)
Lemma extract_loop_spec df n : forall lo s,
  (forall v, lo <= v < lo + n ->
             is_Some (vehicle_route (manager (routing s)) (solution s) v)) ->
  Forall (fun e => fst e < lo) (vehicle_routes s) ->
  Forall (fun e => fst e < lo) (vehicle_times s) ->
  Forall (fun e => fst e < lo) (vehicle_loads s) ->
  exists s',
    for_each (seq lo n) (extract_vehicle df) s = Some s'
    /\ routing s' = routing s /\ solution s' = solution s
    /\ let m := manager (routing s) in
       let kept := kept_routes m (solution s) (seq lo n) in
       vehicle_routes s' = vehicle_routes s ++ map (fun e => (fst e, nodes_of m (snd e))) kept
       /\ vehicle_times s' = vehicle_times s ++ map (fun e => (fst e, times_of (solution s) (snd e))) kept
       /\ vehicle_loads s' = vehicle_loads s ++ map (fun e => (fst e, load_of df m (snd e))) kept.
Proof.
  induction n as [|n IH]; intros lo s Hdef Hr Ht Hl; simpl.
  - exists s. unfold kept_routes. simpl. rewrite !app_nil_r. repeat split.
  - destruct (Hdef lo ltac:(lia)) as [p Hp].
    rewrite (extract_vehicle_spec df s lo p Hp). simpl.
    set (s1 := if 2 <? length p then _ else s).
    assert (Hs1 : routing s1 = routing s /\ solution s1 = solution s)
      by (subst s1; destruct (2 <? length p); auto).
    destruct Hs1 as [Hrt Hsol].
    assert (Hweak : forall A (d : list (nat * A)),
               Forall (fun e => fst e < lo) d -> Forall (fun e => fst e < S lo) d).
    { intros A d Hd. eapply Forall_impl; [exact Hd|]. simpl. intros; lia. }
    destruct (IH (S lo) s1) as (s' & Hrun & Hrt' & Hsol' & Hvr & Hvt & Hvl).
    + intros v Hv. rewrite Hrt, Hsol. apply Hdef. lia.
    + subst s1. destruct (2 <? length p); simpl; auto.
      rewrite dict_set_fresh by assumption.
      apply Forall_app; split; auto.
    + subst s1. destruct (2 <? length p); simpl; auto.
      rewrite dict_set_fresh by assumption.
      apply Forall_app; split; auto.
    + subst s1. destruct (2 <? length p); simpl; auto.
      rewrite dict_set_fresh by assumption.
      apply Forall_app; split; auto.
    + exists s'. split; [exact Hrun|]. rewrite Hrt', Hsol', Hrt, Hsol.
      split; [reflexivity|]. split; [reflexivity|].
      simpl in Hvr, Hvt, Hvl. rewrite Hrt, Hsol in Hvr, Hvt, Hvl.
      unfold kept_routes in *. simpl. rewrite Hp. simpl.
      rewrite Hvr, Hvt, Hvl. subst s1.
      destruct (2 <? length p); simpl; [|auto].
      rewrite !dict_set_fresh by assumption.
      rewrite <- !app_assoc. auto.
Qed.

Lemma kept_routes_In m a vs v p :
  In (v, p) (kept_routes m a vs) ->
  In v vs /\ vehicle_route m a v = Some p /\ 2 < length p.
Proof.
  unfold kept_routes. induction vs as [|w vs IH]; simpl; [intros []|].
  destruct (vehicle_route m a w) as [pw|] eqn:Hw; simpl.
  - destruct (Nat.ltb_spec 2 (length pw)) as [Hlt|Hge]; simpl.
    + intros [Hin|Hin]; [inversion Hin; subst; auto | apply IH in Hin; tauto].
    + intros Hin; apply IH in Hin; tauto.
  - intros Hin; apply IH in Hin; tauto.
Qed.

Lemma kept_routes_complete m a vs v p :
  In v vs -> vehicle_route m a v = Some p -> 2 < length p ->
  In (v, p) (kept_routes m a vs).
Proof.
  unfold kept_routes. intros Hv Hp Hlen.
  induction vs as [|w vs IH]; simpl; [destruct Hv|].
  destruct Hv as [->|Hv].
  - rewrite Hp. simpl. destruct (Nat.ltb_spec 2 (length p)); [now left | lia].
  - destruct (vehicle_route m a w) as [pw|]; simpl; auto.
    destruct (2 <? length pw); simpl; auto.
Qed.

(** Two entries of the dictionaries under one vehicle come from one route. *)
Lemma kept_routes_functional m a vs v p1 p2 :
  In (v, p1) (kept_routes m a vs) -> In (v, p2) (kept_routes m a vs) -> p1 = p2.
Proof.
  intros H1 H2. apply kept_routes_In in H1 as (_ & H1 & _).
  apply kept_routes_In in H2 as (_ & H2 & _). congruence.
Qed.

Lemma kept_routes_cons m a v vs p :
  vehicle_route m a v = Some p ->
  kept_routes m a (v :: vs)
  = if 2 <? length p then (v, p) :: kept_routes m a vs else kept_routes m a vs.
Proof.
  intros Hp. unfold kept_routes. simpl. rewrite Hp. simpl.
  destruct (2 <? length p); reflexivity.
Qed.

Lemma dict_get_kept {A} (f : list nat -> A) m a vs v x :
  dict_get v (map (fun e => (fst e, f (snd e))) (kept_routes m a vs)) = Some x ->
  exists p, In (v, p) (kept_routes m a vs) /\ x = f p.
Proof.
  intros H. apply dict_get_In in H. apply in_map_iff in H as ([v' p] & Heq & Hin).
  simpl in Heq. inversion Heq; subst. eauto.
Qed.

Lemma dict_get_map_Some {A B} (f : A -> B) (d : list (nat * A)) k x :
  In (k, x) d -> (forall y, In (k, y) d -> y = x) ->
  dict_get k (map (fun e => (fst e, f (snd e))) d) = Some (f x).
Proof.
  induction d as [|[k' y] d IH]; simpl; [intros []|].
  intros Hin Hfun. destruct (Nat.eqb_spec k' k) as [->|Hk].
  - rewrite (Hfun y); [reflexivity | now left].
  - destruct Hin as [Heq|Hin]; [inversion Heq; congruence|].
    apply IH; [exact Hin|]. intros z Hz. apply Hfun. now right.
Qed.

Lemma dict_get_map_None {A B} (f : A -> B) (d : list (nat * A)) k :
  (forall y, ~ In (k, y) d) ->
  dict_get k (map (fun e => (fst e, f (snd e))) d) = None.
Proof.
  induction d as [|[k' y] d IH]; simpl; [reflexivity|].
  intros Hno. destruct (Nat.eqb_spec k' k) as [->|Hk].
  - exfalso. apply (Hno y). now left.
  - apply IH. intros z Hz. apply (Hno z). now right.
Qed.

(** ** What a feasible assignment gives *)

Lemma feasible_route r a v :
  IsFeasible r a = true ->
  v < mgr_vehicles (manager r) ->
  exists p,
    vehicle_route (manager r) a v = Some p
    /\ last p = Some (End (manager r) v)
    /\ forall d, In d (dimensions r) ->
         dimension_holds (manager r) d (CumulValue a (dim_name d)) v p = true.
Proof.
  intros Hf Hv. unfold IsFeasible in Hf.
  apply andb_true_iff in Hf as [Hroutes _].
  rewrite forallb_forall in Hroutes.
  specialize (Hroutes v). rewrite in_seq in Hroutes.
  specialize (Hroutes ltac:(lia)).
  destruct (vehicle_route (manager r) a v) as [p|]; [|discriminate].
  apply andb_true_iff in Hroutes as [Hlast Hdims].
  exists p. split; [reflexivity|]. split.
  - now apply bool_decide_eq_true in Hlast.
  - now rewrite forallb_forall in Hdims.
Qed.

Lemma feasible_once r a i :
  IsFeasible r a = true ->
  i < Size (manager r) ->
  count_occ Nat.eq_dec (all_routes (manager r) a) i = 1.
Proof.
  intros Hf Hi. unfold IsFeasible in Hf.
  apply andb_true_iff in Hf as [_ Hcount].
  rewrite forallb_forall in Hcount.
  specialize (Hcount i). rewrite in_seq in Hcount.
  specialize (Hcount ltac:(lia)). now apply Nat.eqb_eq in Hcount.
Qed.

Lemma dimension_holds_inv m d cumul v p :
  dimension_holds m d cumul v p = true ->
  (forall i, In i p ->
     in_range (dim_cumul_range d !! i) (cumul i) = true
     /\ in_range ((fun c => (0%Z, c)) <$> dim_capacities d !! v) (cumul i) = true)
  /\ Forall (fun '(i, j) =>
               (0 <= cumul j - cumul i - dim_transit d i j <= dim_slack_max d)%Z) (arcs p)
  /\ (dim_fix_start_cumul_to_zero d = true -> cumul (Start m v) = 0%Z).
Proof.
  unfold dimension_holds. intros H.
  apply andb_true_iff in H as [H Hfix]. apply andb_true_iff in H as [Hin Harcs].
  rewrite forallb_forall in Hin. rewrite forallb_forall in Harcs.
  split; [|split].
  - intros i Hi. apply andb_true_iff. exact (Hin i Hi).
  - apply Forall_forall. intros [i j] Hij. apply list_elem_of_In in Hij.
    specialize (Harcs _ Hij). simpl in Harcs.
    apply andb_true_iff in Harcs as [H1 H2]. lia.
  - intros Hz. rewrite Hz in Hfix. lia.
Qed.

Lemma in_range_inv r x :
  in_range r x = true -> exists l u, r = Some (l, u) /\ (l <= x <= u)%Z.
Proof.
  destruct r as [[l u]|]; simpl; [|discriminate].
  intros H. apply andb_true_iff in H as [H1 H2]. exists l, u. split; [reflexivity | lia].
Qed.

(** Along a route, when every arc adds [g] of its tail to the cumul, the
    cumul at the end is the cumul at the start plus the sum of [g] over the
    indices before the end. *)
Lemma cumul_telescope (cumul g : nat -> Z) q e :
  Forall (fun '(i, j) => cumul j = (cumul i + g i)%Z) (arcs (q ++ [e])) ->
  cumul e = (cumul (hd e q) + Zsum (map g q))%Z.
Proof.
  induction q as [|i q IH]; simpl; intros H; [lia|].
  destruct q as [|j q].
  - simpl in *. inversion H; subst. lia.
  - simpl in H. inversion H as [|? ? Hij Hrest]; subst.
    specialize (IH Hrest). simpl in IH |- *. lia.
Qed.

(** ** The dimensions of the script's model *)

(** A run of narrowings of cumul variables of the Time dimension changes
    nothing in the model but the ranges of that dimension. *)
Lemma SetRange_fold {X} (f : RoutingModel -> X -> RoutingModel)
    (idx : X -> nat) (lo hi : X -> Z) (xs : list X) :
  (forall r x, f r x = set_range "Time" (idx x) (lo x) (hi x) r) ->
  forall r dc dt,
    dimensions r = [dc; dt] -> dim_name dc = "Capacity" -> dim_name dt = "Time" ->
    manager (fold_left f xs r) = manager r
    /\ dimensions (fold_left f xs r) =
         [dc; with_range dt
                (fold_left (fun rs x => alter (narrow (lo x) (hi x)) (idx x) rs)
                           xs (dim_cumul_range dt))].
Proof.
  intros Hf. induction xs as [|x xs IH]; intros r dc dt Hd Hc Ht; simpl.
  - split; [reflexivity|]. rewrite Hd. destruct dt; reflexivity.
  - destruct (IH (f r x) dc (dim_SetRange (idx x) (lo x) (hi x) dt)) as [Hm Hds].
    + rewrite Hf. simpl. rewrite Hd. simpl. rewrite Hc, Ht. reflexivity.
    + exact Hc.
    + exact Ht.
    + rewrite Hm, Hds, Hf. split; reflexivity.
Qed.

(** Narrowing keeps the number of ranges, never widens a range, and leaves
    the range of a narrowed variable inside the bounds it was given. *)
Lemma narrow_fold {X} (idx : X -> nat) (lo hi : X -> Z) (xs : list X) :
  forall rs : list (Z * Z),
    let rs' := fold_left (fun rs x => alter (narrow (lo x) (hi x)) (idx x) rs) xs rs in
    length rs' = length rs
    /\ (forall i l u, rs' !! i = Some (l, u) ->
          exists l0 u0, rs !! i = Some (l0, u0) /\ (l0 <= l)%Z /\ (u <= u0)%Z)
    /\ (forall x, In x xs -> forall l u, rs' !! idx x = Some (l, u) ->
          (lo x <= l)%Z /\ (u <= hi x)%Z).
Proof.
  induction xs as [|x xs IH]; intros rs; simpl.
  - split; [reflexivity|]. split; [|intros ? []].
    intros i l u H. exists l, u. split; [exact H | lia].
  - destruct (IH (alter (narrow (lo x) (hi x)) (idx x) rs)) as (Hlen & Hmono & Hin).
    assert (Hstep : forall i l u,
               alter (narrow (lo x) (hi x)) (idx x) rs !! i = Some (l, u) ->
               exists l0 u0, rs !! i = Some (l0, u0) /\ (l0 <= l)%Z /\ (u <= u0)%Z
                             /\ (i = idx x -> (lo x <= l)%Z /\ (u <= hi x)%Z)).
    { intros i l u H. destruct (Nat.eq_dec (idx x) i) as [Heq|Hne].
      - subst i. rewrite list_lookup_alter_eq in H.
        destruct (rs !! idx x) as [[l0 u0]|]; simpl in H; [|discriminate].
        unfold narrow in H. simpl in H. inversion H; subst.
        exists l0, u0. split; [reflexivity|]. lia.
      - rewrite list_lookup_alter_ne in H by exact Hne.
        exists l, u. split; [exact H|]. split; [lia|]. split; [lia|]. congruence. }
    split; [rewrite Hlen; apply length_alter|]. split.
    + intros i l u H. destruct (Hmono _ _ _ H) as (l1 & u1 & H1 & Hl1 & Hu1).
      destruct (Hstep _ _ _ H1) as (l0 & u0 & H0 & Hl0 & Hu0 & _).
      exists l0, u0. split; [exact H0|]. lia.
    + intros y [<-|Hy] l u H.
      * destruct (Hmono _ _ _ H) as (l1 & u1 & H1 & Hl1 & Hu1).
        destruct (Hstep _ _ _ H1) as (l0 & u0 & H0 & Hl0 & Hu0 & Hb).
        specialize (Hb eq_refl). lia.
      * exact (Hin y Hy l u H).
Qed.

Lemma script_routing_spec df time_matrix :
  manager (script_routing df time_matrix) = script_manager df
  /\ dimensions (script_routing df time_matrix) =
       [capacity_dimension df; time_dimension df time_matrix (time_ranges df)].
Proof.
  unfold script_routing.
  set (r0 := AddDimension _ _ _ _ _ _).
  set (f1 := fun (routing : RoutingModel) (x : nat * (Z * Z)) => _).
  set (f2 := fun (routing : RoutingModel) (v : nat) => _).
  set (dt := time_dimension df time_matrix
               (replicate (GetNumberOfIndices (script_manager df)) (0%Z, max_route_duration))).
  assert (H0 : dimensions r0 = [capacity_dimension df; dt]) by reflexivity.
  assert (Hm0 : manager r0 = script_manager df) by reflexivity.
  destruct (SetRange_fold f1 (fun x => NodeToIndex (script_manager df) (fst x))
              (fun x => fst (snd x)) (fun x => snd (snd x))
              (enumerate (time_windows df))) with (r := r0)
              (dc := capacity_dimension df) (dt := dt) as [Hm1 Hd1];
    [intros r [n [s e]]; reflexivity | exact H0 | reflexivity | reflexivity |].
  destruct (SetRange_fold f2 (fun v => Start (script_manager df) v)
              (fun _ => 0%Z) (fun _ => max_route_duration)
              (seq 0 num_vehicles)) with (r := fold_left f1 (enumerate (time_windows df)) r0)
              (dc := capacity_dimension df)
              (dt := with_range dt
                       (fold_left
                          (fun rs x => alter (narrow (fst (snd x)) (snd (snd x)))
                                             (NodeToIndex (script_manager df) (fst x)) rs)
                          (enumerate (time_windows df)) (dim_cumul_range dt)))
              as [Hm2 Hd2];
    [intros r v; reflexivity | exact Hd1 | reflexivity | reflexivity |].
  split.
  - rewrite Hm2, Hm1. exact Hm0.
  - rewrite Hd2. reflexivity.
Qed.

Lemma In_enumerate {A} (l : list A) n y :
  l !! n = Some y -> In (n, y) (enumerate l).
Proof.
  intros H. apply list_elem_of_In. unfold enumerate.
  apply (list_elem_of_lookup_2 _ n).
  apply lookup_zip_with_Some. exists n, y. split; [reflexivity|]. split; [|exact H].
  apply lookup_seq. split; [reflexivity|]. now apply lookup_lt_Some in H.
Qed.

(** Every Time cumul variable ends with a range inside
    [0 .. max_route_duration]. *)
Lemma time_ranges_bounds df i l u :
  time_ranges df !! i = Some (l, u) -> (0 <= l)%Z /\ (u <= max_route_duration)%Z.
Proof.
  unfold time_ranges. intros H.
  destruct (narrow_fold (fun v => Start (script_manager df) v)
              (fun _ => 0%Z) (fun _ => max_route_duration) (seq 0 num_vehicles)
              (fold_left
                 (fun rs x => alter (narrow (fst (snd x)) (snd (snd x)))
                                    (NodeToIndex (script_manager df) (fst x)) rs)
                 (enumerate (time_windows df))
                 (replicate (GetNumberOfIndices (script_manager df))
                            (0%Z, max_route_duration)))) as (_ & Hmono & _).
  destruct (Hmono _ _ _ H) as (l1 & u1 & H1 & Hl1 & Hu1).
  destruct (narrow_fold (fun x : nat * (Z * Z) => NodeToIndex (script_manager df) (fst x))
              (fun x => fst (snd x)) (fun x => snd (snd x))
              (enumerate (time_windows df))
              (replicate (GetNumberOfIndices (script_manager df))
                         (0%Z, max_route_duration))) as (_ & Hmono' & _).
  destruct (Hmono' _ _ _ H1) as (l0 & u0 & H0 & Hl0 & Hu0).
  apply lookup_replicate in H0 as [H0 _]. inversion H0; subst. lia.
Qed.

(** The Time cumul variable of node [n]'s own index ends with a range inside
    the node's time window. *)
Lemma time_ranges_window df n row l u :
  df !! n = Some row ->
  time_ranges df !! n = Some (l, u) ->
  (tw_start row <= l)%Z /\ (u <= tw_end row)%Z.
Proof.
  unfold time_ranges. intros Hrow H.
  destruct (narrow_fold (fun v => Start (script_manager df) v)
              (fun _ => 0%Z) (fun _ => max_route_duration) (seq 0 num_vehicles)
              (fold_left
                 (fun rs x => alter (narrow (fst (snd x)) (snd (snd x)))
                                    (NodeToIndex (script_manager df) (fst x)) rs)
                 (enumerate (time_windows df))
                 (replicate (GetNumberOfIndices (script_manager df))
                            (0%Z, max_route_duration)))) as (_ & Hmono & _).
  destruct (Hmono _ _ _ H) as (l1 & u1 & H1 & Hl1 & Hu1).
  destruct (narrow_fold (fun x : nat * (Z * Z) => NodeToIndex (script_manager df) (fst x))
              (fun x => fst (snd x)) (fun x => snd (snd x))
              (enumerate (time_windows df))
              (replicate (GetNumberOfIndices (script_manager df))
                         (0%Z, max_route_duration))) as (_ & _ & Hin).
  assert (Hx : In (n, (tw_start row, tw_end row)) (enumerate (time_windows df))).
  { apply In_enumerate. unfold time_windows. rewrite lookup_map, Hrow. reflexivity. }
  specialize (Hin _ Hx l1 u1 H1). simpl in Hin. lia.
Qed.

Lemma num_nodes_length df : num_nodes df = length df.
Proof. unfold num_nodes, cities. apply length_map. Qed.

(** An index that stands for a node other than the depot is that node. *)
Lemma IndexToNode_customer df i :
  IndexToNode (script_manager df) i <> depot_index ->
  IndexToNode (script_manager df) i = i.
Proof.
  unfold IndexToNode. cbn [mgr_nodes mgr_depot script_manager].
  destruct (i <? num_nodes df); [reflexivity | congruence].
Qed.

Lemma IndexToNode_Start df v :
  IndexToNode (script_manager df) (Start (script_manager df) v) = depot_index.
Proof.
  unfold IndexToNode, Start. cbn [mgr_nodes mgr_depot script_manager].
  destruct (v =? 0) eqn:Hv.
  - unfold depot_index. destruct (0 <? num_nodes df); reflexivity.
  - apply Nat.eqb_neq in Hv.
    destruct (Nat.ltb_spec (num_nodes df + v - 1) (num_nodes df)); [lia | reflexivity].
Qed.

Lemma IndexToNode_End df v :
  IndexToNode (script_manager df) (End (script_manager df) v) = depot_index.
Proof.
  unfold IndexToNode, End, Size. cbn [mgr_nodes mgr_vehicles mgr_depot script_manager].
  unfold num_vehicles.
  destruct (Nat.ltb_spec (num_nodes df + 3 - 1 + v) (num_nodes df)); [lia | reflexivity].
Qed.

(** ** Feasible assignments of the script's model *)

(** The route of a vehicle in a feasible assignment of the script's model:
    it runs from the vehicle's start to the vehicle's end, and the Capacity
    and the Time dimension hold on it. *)
Lemma script_feasible_route df time_matrix a v :
  IsFeasible (script_routing df time_matrix) a = true ->
  v < num_vehicles ->
  let m := script_manager df in
  exists q,
    vehicle_route m a v = Some (q ++ [End m v])
    /\ hd (End m v) q = Start m v
    /\ Forall (fun j => IsEnd m j = false) q
    /\ dimension_holds m (capacity_dimension df) (CumulValue a "Capacity") v
         (q ++ [End m v]) = true
    /\ dimension_holds m (time_dimension df time_matrix (time_ranges df))
         (CumulValue a "Time") v (q ++ [End m v]) = true.
Proof.
  intros Hf Hv m. destruct (script_routing_spec df time_matrix) as [Hm Hd].
  destruct (feasible_route _ a v Hf) as (p & Hp & Hlast & Hdims).
  { rewrite Hm. exact Hv. }
  rewrite Hm in Hp, Hlast. rewrite Hd, Hm in Hdims. fold m in Hp, Hlast, Hdims.
  pose proof (route_from_inv _ _ _ _ _ Hp) as (q & e & -> & He & Hq & Hhd).
  rewrite last_snoc in Hlast. inversion Hlast; subst e.
  exists q. split; [exact Hp|]. split.
  - destruct q as [|i q]; simpl in Hhd |- *.
    + congruence.
    + congruence.
  - split; [exact Hq|]. split.
    + apply (Hdims (capacity_dimension df)). now left.
    + apply (Hdims (time_dimension df time_matrix (time_ranges df))). right; now left.
Qed.

(** Section 4 on a feasible assignment of the script's model: it ends, and
    the three dictionaries hold one entry per kept route. *)
Lemma extract_routes_feasible df time_matrix a :
  IsFeasible (script_routing df time_matrix) a = true ->
  exists s',
    extract_routes df (empty_store (script_routing df time_matrix) a) = Some s'
    /\ routing s' = script_routing df time_matrix
    /\ solution s' = a
    /\ let m := script_manager df in
       let kept := kept_routes m a (seq 0 num_vehicles) in
       vehicle_routes s' = map (fun e => (fst e, nodes_of m (snd e))) kept
       /\ vehicle_times s' = map (fun e => (fst e, times_of a (snd e))) kept
       /\ vehicle_loads s' = map (fun e => (fst e, load_of df m (snd e))) kept.
Proof.
  intros Hf. destruct (script_routing_spec df time_matrix) as [Hm _].
  destruct (extract_loop_spec df num_vehicles 0
              (empty_store (script_routing df time_matrix) a))
    as (s' & Hrun & Hr & Hs & Hrest).
  - intros v Hv. cbn [routing solution empty_store]. rewrite Hm.
    destruct (feasible_route _ a v Hf) as (p & Hp & _).
    + rewrite Hm. cbn [mgr_vehicles script_manager]. lia.
    + rewrite Hm in Hp. eauto.
  - constructor.
  - constructor.
  - constructor.
  - exists s'. split; [exact Hrun|]. split; [exact Hr|]. split; [exact Hs|].
    cbn [routing solution empty_store vehicle_routes vehicle_times vehicle_loads app] in Hrest.
    rewrite Hm in Hrest. exact Hrest.
Qed.

(** On a feasible route the Capacity cumul at the end is the sum of the
    demands of the route's nodes, the depot counted once. *)
Lemma capacity_cumul_is_load df time_matrix a v q :
  IsFeasible (script_routing df time_matrix) a = true ->
  v < num_vehicles ->
  vehicle_route (script_manager df) a v = Some (q ++ [End (script_manager df) v]) ->
  CumulValue a "Capacity" (End (script_manager df) v)
  = load_of df (script_manager df) (q ++ [End (script_manager df) v]).
Proof.
  intros Hf Hv Hp.
  destruct (script_feasible_route df time_matrix a v Hf Hv) as (q' & Hp' & Hhd & _ & Hcap & _).
  rewrite Hp in Hp'. inversion Hp' as [Hqq]. apply app_inj_tail in Hqq as [<- _].
  apply dimension_holds_inv in Hcap as (_ & Harcs & Hfix).
  specialize (Hfix eq_refl).
  unfold load_of. rewrite removelast_last.
  rewrite (cumul_telescope (CumulValue a "Capacity") (demand_callback df) q).
  - rewrite Hhd, Hfix. reflexivity.
  - eapply Forall_impl; [exact Harcs|]. intros [i j]. simpl.
    unfold RegisterUnaryTransitCallback. lia.
Qed.

(** The Time cumul at any index of a feasible route lies in
    [0 .. max_route_duration], and at a node's own index it lies in the
    node's time window. *)
Lemma time_cumul_on_route df time_matrix a v q i :
  IsFeasible (script_routing df time_matrix) a = true ->
  v < num_vehicles ->
  vehicle_route (script_manager df) a v = Some (q ++ [End (script_manager df) v]) ->
  In i (q ++ [End (script_manager df) v]) ->
  (0 <= CumulValue a "Time" i <= max_route_duration)%Z
  /\ forall row, df !! i = Some row ->
       (tw_start row <= CumulValue a "Time" i <= tw_end row)%Z.
Proof.
  intros Hf Hv Hp Hi.
  destruct (script_feasible_route df time_matrix a v Hf Hv) as (q' & Hp' & _ & _ & _ & Htime).
  rewrite Hp in Hp'. inversion Hp' as [Hqq]. apply app_inj_tail in Hqq as [<- _].
  apply dimension_holds_inv in Htime as (Hin & _ & _).
  destruct (Hin i Hi) as [Hr _].
  apply in_range_inv in Hr as (l & u & Hlu & Hle).
  cbn [dim_cumul_range time_dimension] in Hlu.
  pose proof (time_ranges_bounds df i l u Hlu) as Hb.
  split; [lia|]. intros row Hrow.
  pose proof (time_ranges_window df i row l u Hrow Hlu). lia.
Qed.

(** A window that closes before it opens leaves the model without a feasible
    assignment. *)
Lemma inverted_window_infeasible df time_matrix a :
  inverted_window df = true ->
  IsFeasible (script_routing df time_matrix) a = false.
Proof.
  intros Hinv. unfold inverted_window in Hinv.
  apply existsb_exists in Hinv as (row & Hrow & Hlt).
  apply list_elem_of_In, list_elem_of_lookup_1 in Hrow as [n Hn].
  destruct (IsFeasible (script_routing df time_matrix) a) eqn:Hf; [|reflexivity].
  exfalso.
  assert (Hlen : n < num_nodes df).
  { rewrite num_nodes_length. now apply lookup_lt_Some in Hn. }
  destruct (script_routing_spec df time_matrix) as [Hm _].
  pose proof (feasible_once _ a n Hf) as Honce. rewrite Hm in Honce.
  assert (Hin : In n (all_routes (script_manager df) a)).
  { apply (count_occ_In Nat.eq_dec). rewrite Honce; [lia|].
    unfold Size. cbn [mgr_nodes mgr_vehicles script_manager]. unfold num_vehicles. lia. }
  unfold all_routes in Hin. apply in_flat_map in Hin as (v & Hv & Hin).
  apply in_seq in Hv. cbn [mgr_vehicles script_manager] in Hv.
  destruct (script_feasible_route df time_matrix a v Hf ltac:(lia)) as (q & Hp & _).
  rewrite Hp in Hin. simpl in Hin.
  destruct (time_cumul_on_route df time_matrix a v q n Hf ltac:(lia) Hp Hin) as [_ Hw].
  specialize (Hw row Hn). lia.
Qed.

(** ** The examples *)

Example example_matrices :
  snd <$> match build_matrices (M := small_angle_math) example_df with
          | Ok ms => Some ms
          | Raise _ => None
          end
  = Some example_time_matrix.
Proof. vm_compute. reflexivity. Qed.

Example example_solution_feasible :
  IsFeasible (script_routing example_df example_time_matrix) example_solution = true.
Proof. vm_compute. reflexivity. Qed.

Example example_extraction :
  (fun s => (vehicle_routes s, vehicle_times s, vehicle_loads s))
    <$> extract_routes example_df
          (empty_store (script_routing example_df example_time_matrix) example_solution)
  = Some ([(0, [0; 1; 2; 0])], [(0, [0; 16; 50; 85]%Z)], [(0, 12%Z)]).
Proof. vm_compute. reflexivity. Qed.

Example inverted_window_df_inverted : inverted_window inverted_window_df = true.
Proof. reflexivity. Qed.

(** ** C1: loads and capacities *)

(** C1. In every feasible assignment of the script's model, the demands of
    the nodes on each vehicle's route (the depot counted once) add up to at
    most the capacity of that vehicle, which is 15; and section 4 ends and
    records, for every vehicle it keeps, a [total_load] that is at most the
    vehicle's capacity. *)
Theorem C1_route_load_within_capacity df time_matrix a :
  IsFeasible (script_routing df time_matrix) a = true ->
  (forall v, v < num_vehicles ->
     exists p capacity,
       vehicle_route (script_manager df) a v = Some p
       /\ vehicle_capacities !! v = Some capacity
       /\ capacity = 15%Z
       /\ (load_of df (script_manager df) p <= capacity)%Z)
  /\ exists s',
       extract_routes df (empty_store (script_routing df time_matrix) a) = Some s'
       /\ forall v total_load,
            dict_get v (vehicle_loads s') = Some total_load ->
            exists capacity,
              vehicle_capacities !! v = Some capacity /\ (total_load <= capacity)%Z.
Proof.
  intros Hf.
  assert (Hroute : forall v, v < num_vehicles ->
            exists p capacity,
              vehicle_route (script_manager df) a v = Some p
              /\ vehicle_capacities !! v = Some capacity
              /\ capacity = 15%Z
              /\ (load_of df (script_manager df) p <= capacity)%Z).
  { intros v Hv.
    destruct (script_feasible_route df time_matrix a v Hf Hv) as (q & Hp & _ & _ & Hcap & _).
    pose proof (capacity_cumul_is_load df time_matrix a v q Hf Hv Hp) as Hload.
    apply dimension_holds_inv in Hcap as (Hin & _ & _).
    destruct (Hin (End (script_manager df) v)) as [_ Hc].
    { apply in_or_app. right. now left. }
    apply in_range_inv in Hc as (l & u & Hlu & Hle).
    cbn [dim_capacities capacity_dimension] in Hlu.
    destruct (vehicle_capacities !! v) as [c|] eqn:Hcv; simpl in Hlu; [|discriminate].
    inversion Hlu; subst. exists (q ++ [End (script_manager df) v]), u.
    split; [exact Hp|]. split; [reflexivity|]. split; [|rewrite <- Hload; lia].
    unfold num_vehicles in Hv. unfold vehicle_capacities in Hcv.
    destruct v as [|[|[|v]]]; simpl in Hcv; [congruence | congruence | congruence | lia]. }
  split; [exact Hroute|].
  destruct (extract_routes_feasible df time_matrix a Hf)
    as (s' & Hrun & _ & _ & _ & _ & Hloads).
  exists s'. split; [exact Hrun|].
  intros v total_load Hget. apply dict_get_In in Hget.
  rewrite Hloads in Hget. apply in_map_iff in Hget as ([v' p] & Heq & Hin).
  simpl in Heq. inversion Heq; subst.
  apply kept_routes_In in Hin as (Hv & Hp & _).
  apply in_seq in Hv. destruct (Hroute v ltac:(lia)) as (p' & capacity & Hp' & Hc & _ & Hle).
  rewrite Hp in Hp'. inversion Hp'; subst. eauto.
Qed.

Lemma C1_route_load_within_capacity_witness :
  (forall v, v < num_vehicles ->
     exists p capacity,
       vehicle_route (script_manager example_df) example_solution v = Some p
       /\ vehicle_capacities !! v = Some capacity
       /\ capacity = 15%Z
       /\ (load_of example_df (script_manager example_df) p <= capacity)%Z)
  /\ exists s',
       extract_routes example_df
         (empty_store (script_routing example_df example_time_matrix) example_solution)
       = Some s'
       /\ forall v total_load,
            dict_get v (vehicle_loads s') = Some total_load ->
            exists capacity,
              vehicle_capacities !! v = Some capacity /\ (total_load <= capacity)%Z.
Proof.
  apply (C1_route_load_within_capacity example_df example_time_matrix example_solution).
  vm_compute. reflexivity.
Defined.

(** ** C2 and C9: arrival times *)

(** C2. In every feasible assignment of the script's model, section 4 ends,
    and wherever a recorded route visits a node other than the depot, the
    time recorded at that position, which is the Time cumul at the node, lies
    in the node's window [tw_start .. tw_end]. *)
Theorem C2_arrival_within_time_window df time_matrix a :
  IsFeasible (script_routing df time_matrix) a = true ->
  exists s',
    extract_routes df (empty_store (script_routing df time_matrix) a) = Some s'
    /\ forall v route_nodes route_times k node time_val row,
         dict_get v (vehicle_routes s') = Some route_nodes ->
         dict_get v (vehicle_times s') = Some route_times ->
         route_nodes !! k = Some node ->
         route_times !! k = Some time_val ->
         node <> depot_index ->
         df !! node = Some row ->
         time_val = CumulValue a "Time" (NodeToIndex (script_manager df) node)
         /\ (tw_start row <= time_val <= tw_end row)%Z.
Proof.
  intros Hf.
  destruct (extract_routes_feasible df time_matrix a Hf)
    as (s' & Hrun & _ & _ & Hroutes & Htimes & _).
  exists s'. split; [exact Hrun|].
  intros v route_nodes route_times k node time_val row Hn Ht Hk Hkt Hnode Hrow.
  rewrite Hroutes in Hn. rewrite Htimes in Ht.
  apply dict_get_kept in Hn as (p & Hin & ->).
  apply dict_get_kept in Ht as (p' & Hin' & ->).
  pose proof (kept_routes_functional _ _ _ _ _ _ Hin Hin'); subst p'.
  apply kept_routes_In in Hin as (Hv & Hp & _). apply in_seq in Hv.
  unfold nodes_of in Hk. unfold times_of in Hkt.
  rewrite lookup_map in Hk. rewrite lookup_map in Hkt.
  destruct (p !! k) as [i|] eqn:Hi; simpl in Hk, Hkt; [|discriminate].
  inversion Hk; subst node. inversion Hkt; subst time_val.
  rewrite (IndexToNode_customer df i Hnode) in Hrow |- *.
  unfold NodeToIndex. split; [reflexivity|].
  destruct (script_feasible_route df time_matrix a v Hf ltac:(lia)) as (q & Hq & _).
  rewrite Hp in Hq. inversion Hq; subst p.
  destruct (time_cumul_on_route df time_matrix a v q i Hf ltac:(lia) Hp) as [_ Hw].
  - apply list_elem_of_In. eapply list_elem_of_lookup_2. exact Hi.
  - exact (Hw row Hrow).
Qed.

Lemma C2_arrival_within_time_window_witness :
  exists s',
    extract_routes example_df
      (empty_store (script_routing example_df example_time_matrix) example_solution)
    = Some s'
    /\ forall v route_nodes route_times k node time_val row,
         dict_get v (vehicle_routes s') = Some route_nodes ->
         dict_get v (vehicle_times s') = Some route_times ->
         route_nodes !! k = Some node ->
         route_times !! k = Some time_val ->
         node <> depot_index ->
         example_df !! node = Some row ->
         time_val = CumulValue example_solution "Time"
                      (NodeToIndex (script_manager example_df) node)
         /\ (tw_start row <= time_val <= tw_end row)%Z.
Proof.
  apply (C2_arrival_within_time_window example_df example_time_matrix example_solution).
  vm_compute. reflexivity.
Defined.

(** C9. In every feasible assignment of the script's model, each vehicle's
    route runs from its start to its end, the Time cumul at the start lies in
    [0 .. max_route_duration], and the Time cumul at the end, the route's
    elapsed time, is at most [max_route_duration].  Section 4 ends, and in
    every list of times it records the first entry lies in
    [0 .. max_route_duration] and the last is at most [max_route_duration]. *)
Theorem C9_route_duration_bounded df time_matrix a :
  IsFeasible (script_routing df time_matrix) a = true ->
  (forall v, v < num_vehicles ->
     exists p,
       vehicle_route (script_manager df) a v = Some p
       /\ head p = Some (Start (script_manager df) v)
       /\ last p = Some (End (script_manager df) v)
       /\ (0 <= CumulValue a "Time" (Start (script_manager df) v) <= max_route_duration)%Z
       /\ (CumulValue a "Time" (End (script_manager df) v) <= max_route_duration)%Z)
  /\ exists s',
       extract_routes df (empty_store (script_routing df time_matrix) a) = Some s'
       /\ forall v route_times,
            dict_get v (vehicle_times s') = Some route_times ->
            exists t_start t_end,
              head route_times = Some t_start
              /\ last route_times = Some t_end
              /\ (0 <= t_start <= max_route_duration)%Z
              /\ (t_end <= max_route_duration)%Z.
Proof.
  intros Hf.
  assert (Hroute : forall v, v < num_vehicles ->
            exists q,
              vehicle_route (script_manager df) a v
              = Some (q ++ [End (script_manager df) v])
              /\ head (q ++ [End (script_manager df) v])
                 = Some (Start (script_manager df) v)
              /\ (0 <= CumulValue a "Time" (Start (script_manager df) v)
                  <= max_route_duration)%Z
              /\ (CumulValue a "Time" (End (script_manager df) v)
                  <= max_route_duration)%Z).
  { intros v Hv.
    destruct (script_feasible_route df time_matrix a v Hf Hv) as (q & Hp & Hhd & _).
    exists q. split; [exact Hp|].
    assert (Hhead : head (q ++ [End (script_manager df) v])
                    = Some (Start (script_manager df) v)).
    { destruct q as [|i q]; simpl in Hhd |- *; congruence. }
    split; [exact Hhead|].
    destruct (time_cumul_on_route df time_matrix a v q (Start (script_manager df) v) Hf Hv Hp)
      as [Hs _].
    { apply list_elem_of_In. apply head_Some_elem_of. exact Hhead. }
    destruct (time_cumul_on_route df time_matrix a v q (End (script_manager df) v) Hf Hv Hp)
      as [He _].
    { apply in_or_app. right. now left. }
    split; [exact Hs | lia]. }
  split.
  - intros v Hv. destruct (Hroute v Hv) as (q & Hp & Hhd & Hs & He).
    exists (q ++ [End (script_manager df) v]).
    split; [exact Hp|]. split; [exact Hhd|]. split; [apply last_snoc|]. auto.
  - destruct (extract_routes_feasible df time_matrix a Hf)
      as (s' & Hrun & _ & _ & _ & Htimes & _).
    exists s'. split; [exact Hrun|].
    intros v route_times Ht. rewrite Htimes in Ht.
    apply dict_get_kept in Ht as (p & Hin & ->).
    apply kept_routes_In in Hin as (Hv & Hp & _). apply in_seq in Hv.
    destruct (Hroute v ltac:(lia)) as (q & Hq & Hhd & Hs & He).
    rewrite Hp in Hq. inversion Hq; subst p.
    exists (CumulValue a "Time" (Start (script_manager df) v)),
           (CumulValue a "Time" (End (script_manager df) v)).
    unfold times_of. split; [|split; [|auto]].
    + destruct (q ++ [End (script_manager df) v]) as [|i p']; simpl in Hhd |- *;
        [discriminate | congruence].
    + rewrite map_app. simpl. apply last_snoc.
Qed.

Lemma C9_route_duration_bounded_witness :
  (forall v, v < num_vehicles ->
     exists p,
       vehicle_route (script_manager example_df) example_solution v = Some p
       /\ head p = Some (Start (script_manager example_df) v)
       /\ last p = Some (End (script_manager example_df) v)
       /\ (0 <= CumulValue example_solution "Time" (Start (script_manager example_df) v)
           <= max_route_duration)%Z
       /\ (CumulValue example_solution "Time" (End (script_manager example_df) v)
           <= max_route_duration)%Z)
  /\ exists s',
       extract_routes example_df
         (empty_store (script_routing example_df example_time_matrix) example_solution)
       = Some s'
       /\ forall v route_times,
            dict_get v (vehicle_times s') = Some route_times ->
            exists t_start t_end,
              head route_times = Some t_start
              /\ last route_times = Some t_end
              /\ (0 <= t_start <= max_route_duration)%Z
              /\ (t_end <= max_route_duration)%Z.
Proof.
  apply (C9_route_duration_bounded example_df example_time_matrix example_solution).
  vm_compute. reflexivity.
Defined.

(** ** C3: every customer on exactly one route *)

Lemma count_nodes_of df node p :
  node <> depot_index -> node < num_nodes df ->
  count_occ Nat.eq_dec (nodes_of (script_manager df) p) node
  = count_occ Nat.eq_dec p node.
Proof.
  intros Hne Hlt. induction p as [|i p IH]; simpl; [reflexivity|].
  rewrite IH. unfold IndexToNode. cbn [mgr_nodes mgr_depot script_manager].
  destruct (Nat.ltb_spec i (num_nodes df)) as [Hi|Hi]; [reflexivity|].
  destruct (Nat.eq_dec depot_index node) as [Hd|Hd]; [congruence|].
  destruct (Nat.eq_dec i node) as [Hin|Hin]; [lia | reflexivity].
Qed.

(** A route of at most two indices is the vehicle's start followed by its
    end: no customer's index is on it. *)
Lemma short_route_no_customer df v q node :
  hd (End (script_manager df) v) q = Start (script_manager df) v ->
  length (q ++ [End (script_manager df) v]) <= 2 ->
  node <> depot_index -> node < num_nodes df ->
  count_occ Nat.eq_dec (q ++ [End (script_manager df) v]) node = 0.
Proof.
  intros Hhd Hlen Hne Hlt.
  assert (Hend : End (script_manager df) v <> node).
  { unfold End, Size. cbn [mgr_nodes mgr_vehicles script_manager].
    unfold num_vehicles. lia. }
  assert (Hstart : Start (script_manager df) v <> node).
  { unfold Start. cbn [mgr_nodes mgr_depot script_manager].
    destruct (v =? 0) eqn:Hv0; [congruence|]. apply Nat.eqb_neq in Hv0. lia. }
  destruct q as [|i [|j q]]; simpl in Hhd, Hlen |- *.
  - destruct (Nat.eq_dec _ node); [contradiction | reflexivity].
  - subst i. destruct (Nat.eq_dec (Start _ v) node); [contradiction|].
    destruct (Nat.eq_dec (End _ v) node); [contradiction | reflexivity].
  - rewrite length_app in Hlen. simpl in Hlen. lia.
Qed.

(** Counting a customer over the recorded routes is counting its index over
    all routes: dropping the short routes loses nothing. *)
Lemma count_kept_routes df a node vs :
  node <> depot_index -> node < num_nodes df ->
  (forall v, In v vs ->
     exists q, vehicle_route (script_manager df) a v
               = Some (q ++ [End (script_manager df) v])
               /\ hd (End (script_manager df) v) q = Start (script_manager df) v) ->
  count_occ Nat.eq_dec
    (concat (map snd (map (fun e => (fst e, nodes_of (script_manager df) (snd e)))
                          (kept_routes (script_manager df) a vs)))) node
  = count_occ Nat.eq_dec
      (flat_map (fun v => default [] (vehicle_route (script_manager df) a v)) vs) node.
Proof.
  intros Hne Hlt. induction vs as [|v vs IH]; intros Hroutes; [reflexivity|].
  destruct (Hroutes v ltac:(now left)) as (q & Hp & Hhd).
  assert (IH' := IH ltac:(intros w Hw; apply Hroutes; now right)). clear IH.
  cbn [flat_map]. rewrite count_occ_app, Hp. cbn [default id].
  rewrite (kept_routes_cons _ _ _ _ _ Hp).
  destruct (Nat.ltb_spec 2 (length (q ++ [End (script_manager df) v]))) as [Hlong|Hshort].
  - cbn [map concat fst snd]. rewrite count_occ_app, IH'.
    rewrite count_nodes_of by assumption. reflexivity.
  - rewrite IH'. rewrite (short_route_no_customer df v q node) by assumption.
    reflexivity.
Qed.

(** C3. In every feasible assignment of the script's model, section 4 ends,
    and every node other than the depot occurs exactly once in the recorded
    routes taken together: it is on one route, once.  (The script declares
    no optional node, so there is no list of unassigned nodes.) *)
Theorem C3_each_customer_on_exactly_one_route df time_matrix a :
  IsFeasible (script_routing df time_matrix) a = true ->
  exists s',
    extract_routes df (empty_store (script_routing df time_matrix) a) = Some s'
    /\ forall node,
         node <> depot_index -> node < num_nodes df ->
         count_occ Nat.eq_dec (concat (map snd (vehicle_routes s'))) node = 1.
Proof.
  intros Hf.
  destruct (extract_routes_feasible df time_matrix a Hf)
    as (s' & Hrun & _ & _ & Hroutes & _ & _).
  exists s'. split; [exact Hrun|]. intros node Hne Hlt.
  rewrite Hroutes, count_kept_routes; try assumption.
  - destruct (script_routing_spec df time_matrix) as [Hm _].
    pose proof (feasible_once _ a node Hf) as Honce.
    rewrite Hm in Honce. apply Honce.
    unfold Size. cbn [mgr_nodes mgr_vehicles script_manager]. unfold num_vehicles. lia.
  - intros v Hv. apply in_seq in Hv.
    destruct (script_feasible_route df time_matrix a v Hf ltac:(lia)) as (q & Hp & Hhd & _).
    eauto.
Qed.

Lemma C3_each_customer_on_exactly_one_route_witness :
  exists s',
    extract_routes example_df
      (empty_store (script_routing example_df example_time_matrix) example_solution)
    = Some s'
    /\ forall node,
         node <> depot_index -> node < num_nodes example_df ->
         count_occ Nat.eq_dec (concat (map snd (vehicle_routes s'))) node = 1.
Proof.
  apply (C3_each_customer_on_exactly_one_route
           example_df example_time_matrix example_solution).
  vm_compute. reflexivity.
Defined.

(** ** C5: what section 4 records *)

(** C5. On a feasible assignment of the script's model section 4 ends; it
    leaves the model and the solution as they were; and for every vehicle,
    with [p] its route (the indices from the vehicle's start to its end, each
    the successor of the one before):
    when [p] has more than two indices, the three dictionaries hold under the
    vehicle the nodes of [p] in order, a list that starts and ends with the
    depot, the Time cumul at every index of [p], both depot ends included,
    and the sum of the demands of the nodes before the final depot;
    otherwise the vehicle is in none of the three dictionaries. *)
Theorem C5_extraction_output df time_matrix a :
  IsFeasible (script_routing df time_matrix) a = true ->
  let m := script_manager df in
  exists s',
    extract_routes df (empty_store (script_routing df time_matrix) a) = Some s'
    /\ routing s' = script_routing df time_matrix
    /\ solution s' = a
    /\ forall v, v < num_vehicles ->
         exists p,
           vehicle_route m a v = Some p
           /\ head p = Some (Start m v)
           /\ last p = Some (End m v)
           /\ Forall (fun '(i, j) => j = NextVar a i) (arcs p)
           /\ if 2 <? length p
              then dict_get v (vehicle_routes s') = Some (map (IndexToNode m) p)
                   /\ head (map (IndexToNode m) p) = Some depot_index
                   /\ last (map (IndexToNode m) p) = Some depot_index
                   /\ dict_get v (vehicle_times s') = Some (map (CumulValue a "Time") p)
                   /\ dict_get v (vehicle_loads s')
                      = Some (Zsum (map (fun j => default 0%Z (demands df !! IndexToNode m j))
                                        (removelast p)))
              else dict_get v (vehicle_routes s') = None
                   /\ dict_get v (vehicle_times s') = None
                   /\ dict_get v (vehicle_loads s') = None.
Proof.
  intros Hf m.
  destruct (extract_routes_feasible df time_matrix a Hf)
    as (s' & Hrun & Hr & Hs & Hroutes & Htimes & Hloads).
  fold m in Hroutes, Htimes, Hloads.
  exists s'. split; [exact Hrun|]. split; [exact Hr|]. split; [exact Hs|].
  intros v Hv.
  destruct (script_feasible_route df time_matrix a v Hf Hv) as (q & Hp & Hhd & _).
  fold m in Hp, Hhd. exists (q ++ [End m v]).
  split; [exact Hp|].
  assert (Hhead : head (q ++ [End m v]) = Some (Start m v)).
  { destruct q as [|i q]; simpl in Hhd |- *; congruence. }
  split; [exact Hhead|]. split; [apply last_snoc|].
  split; [exact (route_from_arcs _ _ _ _ _ Hp)|].
  rewrite Hroutes, Htimes, Hloads.
  destruct (Nat.ltb_spec 2 (length (q ++ [End m v]))) as [Hlong|Hshort].
  - assert (Hin : In (v, q ++ [End m v]) (kept_routes m a (seq 0 num_vehicles))).
    { apply kept_routes_complete; [apply in_seq; lia | exact Hp | exact Hlong]. }
    assert (Hfun : forall y, In (v, y) (kept_routes m a (seq 0 num_vehicles)) ->
                             y = q ++ [End m v]).
    { intros y Hy. exact (kept_routes_functional _ _ _ _ _ _ Hy Hin). }
    split; [exact (dict_get_map_Some (nodes_of m) _ _ _ Hin Hfun)|].
    split.
    { destruct (q ++ [End m v]) as [|i p']; [discriminate|].
      simpl in Hhead |- *. inversion Hhead. unfold m. now rewrite IndexToNode_Start. }
    split.
    { rewrite map_app. simpl. rewrite last_snoc. unfold m. now rewrite IndexToNode_End. }
    split; [exact (dict_get_map_Some (times_of a) _ _ _ Hin Hfun)|].
    exact (dict_get_map_Some (load_of df m) _ _ _ Hin Hfun).
  - assert (Hno : forall y, ~ In (v, y) (kept_routes m a (seq 0 num_vehicles))).
    { intros y Hy. apply kept_routes_In in Hy as (_ & Hy & Hlen).
      rewrite Hp in Hy. inversion Hy; subst y. lia. }
    split; [exact (dict_get_map_None (nodes_of m) _ _ Hno)|].
    split; [exact (dict_get_map_None (times_of a) _ _ Hno)|].
    exact (dict_get_map_None (load_of df m) _ _ Hno).
Qed.

Lemma C5_extraction_output_witness :
  let m := script_manager example_df in
  exists s',
    extract_routes example_df
      (empty_store (script_routing example_df example_time_matrix) example_solution)
    = Some s'
    /\ routing s' = script_routing example_df example_time_matrix
    /\ solution s' = example_solution
    /\ forall v, v < num_vehicles ->
         exists p,
           vehicle_route m example_solution v = Some p
           /\ head p = Some (Start m v)
           /\ last p = Some (End m v)
           /\ Forall (fun '(i, j) => j = NextVar example_solution i) (arcs p)
           /\ if 2 <? length p
              then dict_get v (vehicle_routes s') = Some (map (IndexToNode m) p)
                   /\ head (map (IndexToNode m) p) = Some depot_index
                   /\ last (map (IndexToNode m) p) = Some depot_index
                   /\ dict_get v (vehicle_times s')
                      = Some (map (CumulValue example_solution "Time") p)
                   /\ dict_get v (vehicle_loads s')
                      = Some (Zsum (map (fun j => default 0%Z
                                           (demands example_df !! IndexToNode m j))
                                        (removelast p)))
              else dict_get v (vehicle_routes s') = None
                   /\ dict_get v (vehicle_times s') = None
                   /\ dict_get v (vehicle_loads s') = None.
Proof.
  apply (C5_extraction_output example_df example_time_matrix example_solution).
  vm_compute. reflexivity.
Defined.

(** ** The ranges of the Time cumul variables *)

(** A run of narrowings at pairwise different indices narrows each range it
    touches once and leaves the others as they were. *)
Lemma narrow_fold_exact {X} (idx : X -> nat) (lo hi : X -> Z) (xs : list X) :
  List.NoDup (map idx xs) ->
  forall rs : list (Z * Z),
    let rs' := fold_left (fun rs x => alter (narrow (lo x) (hi x)) (idx x) rs) xs rs in
    (forall i, ~ In i (map idx xs) -> rs' !! i = rs !! i)
    /\ (forall x, In x xs -> rs' !! idx x = narrow (lo x) (hi x) <$> rs !! idx x).
Proof.
  induction xs as [|y xs IH]; intros Hnd rs; simpl.
  - split; [reflexivity | intros x []].
  - inversion Hnd as [|? ? Hy Hnd']; subst.
    destruct (IH Hnd' (alter (narrow (lo y) (hi y)) (idx y) rs)) as [Hframe Hhit].
    split.
    + intros i Hi. rewrite Hframe by tauto. apply list_lookup_alter_ne. tauto.
    + intros x [<-|Hx].
      * rewrite Hframe by exact Hy. apply list_lookup_alter_eq.
      * rewrite (Hhit x Hx). rewrite list_lookup_alter_ne; [reflexivity|].
        intros Heq. apply Hy. rewrite Heq. now apply in_map.
Qed.

Lemma map_fst_enumerate {A} (l : list A) : map fst (enumerate l) = seq 0 (length l).
Proof. unfold enumerate. apply fst_zip. now rewrite length_seq. Qed.

Lemma In_enumerate_inv {A} (l : list A) n y :
  In (n, y) (enumerate l) -> l !! n = Some y.
Proof.
  intros H. apply list_elem_of_In, list_elem_of_lookup in H as [i Hi].
  unfold enumerate in Hi. apply lookup_zip_with_Some in Hi as (k & x & Heq & Hk & Hx).
  inversion Heq; subst. apply lookup_seq in Hk as [-> _]. exact Hx.
Qed.

Lemma time_windows_length df : length (time_windows df) = num_nodes df.
Proof. unfold time_windows, num_nodes, cities. now rewrite !length_map. Qed.

Lemma starts_distinct df :
  num_nodes df <> 0 ->
  List.NoDup (map (Start (script_manager df)) (seq 0 num_vehicles)).
Proof.
  intros Hn. unfold Start, num_vehicles. cbn [mgr_nodes mgr_depot script_manager].
  simpl. unfold depot_index.
  repeat constructor; simpl; lia.
Qed.

(** The ranges after the first loop: a node's window cut to
    [0 .. max_route_duration] at the node's own index, the whole range at the
    other indices. *)
Lemma window_ranges_exact df :
  (forall n row, df !! n = Some row ->
     window_ranges df !! n
     = Some (Z.max 0 (tw_start row), Z.min max_route_duration (tw_end row)))
  /\ (forall i, num_nodes df <= i < GetNumberOfIndices (script_manager df) ->
        window_ranges df !! i = Some (0%Z, max_route_duration)).
Proof.
  unfold window_ranges.
  set (rs0 := replicate (GetNumberOfIndices (script_manager df)) (0%Z, max_route_duration)).
  set (rs1 := fold_left _ (enumerate (time_windows df)) rs0).
  destruct (narrow_fold_exact (fun x : nat * (Z * Z) => NodeToIndex (script_manager df) (fst x))
              (fun x => fst (snd x)) (fun x => snd (snd x))
              (enumerate (time_windows df))) with (rs := rs0) as [Hframe1 Hhit1].
  { change (List.NoDup (map fst (enumerate (time_windows df)))).
    rewrite map_fst_enumerate. apply List.seq_NoDup. }
  fold rs1 in Hframe1, Hhit1.
  assert (Hrs0 : forall i, i < GetNumberOfIndices (script_manager df) ->
                           rs0 !! i = Some (0%Z, max_route_duration)).
  { intros i Hi. now apply lookup_replicate_2. }
  split.
  - intros n row Hrow.
    assert (Hx : In (n, (tw_start row, tw_end row)) (enumerate (time_windows df))).
    { apply In_enumerate. unfold time_windows. rewrite lookup_map, Hrow. reflexivity. }
    pose proof (Hhit1 _ Hx) as Hh. cbn [fst snd] in Hh. unfold NodeToIndex in Hh.
    rewrite Hh, Hrs0; [reflexivity|].
    apply lookup_lt_Some in Hrow. rewrite <- num_nodes_length in Hrow.
    unfold GetNumberOfIndices, Size. cbn [mgr_nodes mgr_vehicles script_manager].
    unfold num_vehicles. lia.
  - intros i Hi. rewrite Hframe1; [apply Hrs0; lia|].
    change (~ In i (map fst (enumerate (time_windows df)))).
    rewrite map_fst_enumerate, in_seq, time_windows_length. lia.
Qed.

(** The ranges after the second loop. *)
Lemma time_ranges_exact df :
  num_nodes df <> 0 ->
  (forall n row, df !! n = Some row ->
     time_ranges df !! n
     = Some (Z.max 0 (tw_start row), Z.min max_route_duration (tw_end row)))
  /\ (forall i, num_nodes df <= i < GetNumberOfIndices (script_manager df) ->
        time_ranges df !! i = Some (0%Z, max_route_duration)).
Proof.
  intros Hn. destruct (window_ranges_exact df) as [Hnode Hother].
  change (time_ranges df)
    with (fold_left (fun rs v => alter (narrow 0 max_route_duration)
                                       (Start (script_manager df) v) rs)
                    (seq 0 num_vehicles) (window_ranges df)).
  destruct (narrow_fold_exact (fun v => Start (script_manager df) v)
              (fun _ => 0%Z) (fun _ => max_route_duration)
              (seq 0 num_vehicles) (starts_distinct df Hn) (window_ranges df))
    as [Hframe2 Hhit2].
  assert (Hidem : forall r : Z * Z,
            (0 <= fst r)%Z -> (snd r <= max_route_duration)%Z ->
            narrow 0 max_route_duration r = r).
  { intros [l u] Hl Hu. unfold narrow. simpl in *. f_equal; lia. }
  split.
  - intros n row Hrow.
    destruct (in_dec Nat.eq_dec n (map (Start (script_manager df)) (seq 0 num_vehicles)))
      as [Hin|Hout].
    + apply in_map_iff in Hin as (v & <- & Hv).
      rewrite (Hhit2 v Hv), (Hnode _ row Hrow). simpl. rewrite Hidem; [reflexivity| |];
        simpl; unfold max_route_duration; lia.
    + rewrite Hframe2 by exact Hout. exact (Hnode n row Hrow).
  - intros i Hi.
    destruct (in_dec Nat.eq_dec i (map (Start (script_manager df)) (seq 0 num_vehicles)))
      as [Hin|Hout].
    + apply in_map_iff in Hin as (v & <- & Hv).
      rewrite (Hhit2 v Hv), (Hother _ Hi). simpl. rewrite Hidem; [reflexivity| |];
        simpl; unfold max_route_duration; lia.
    + rewrite Hframe2 by exact Hout. exact (Hother i Hi).
Qed.

Lemma CumulVar_range_Time df time_matrix index :
  CumulVar_range (script_routing df time_matrix) "Time" index = time_ranges df !! index.
Proof.
  unfold CumulVar_range. destruct (script_routing_spec df time_matrix) as [_ Hd].
  rewrite Hd. reflexivity.
Qed.

(** ** Lines 54-100 as they run *)

Lemma bind_Ok {A B} (r : result A) (k : A -> result B) b :
  bind r k = Ok b -> exists a, r = Ok a /\ k a = Ok b.
Proof. destruct r as [a|e]; simpl; [eauto | discriminate]. Qed.

Lemma narrow_fold_frame {X} (idx : X -> nat) (lo hi : X -> Z) (xs : list X) :
  forall (rs : list (Z * Z)) i,
    ~ In i (map idx xs) ->
    fold_left (fun rs x => alter (narrow (lo x) (hi x)) (idx x) rs) xs rs !! i = rs !! i.
Proof.
  induction xs as [|y xs IH]; intros rs i Hi; simpl; [reflexivity|].
  rewrite IH by (simpl in Hi; tauto).
  apply list_lookup_alter_ne. simpl in Hi. tauto.
Qed.

(** Narrowing never gives a value back to a range that has none. *)
Lemma narrow_fold_stays_empty {X} (idx : X -> nat) (lo hi : X -> Z) (xs : list X) :
  forall (rs : list (Z * Z)) i,
    nonempty (rs !! i) = false ->
    nonempty (fold_left (fun rs x => alter (narrow (lo x) (hi x)) (idx x) rs) xs rs !! i)
    = false.
Proof.
  induction xs as [|y xs IH]; intros rs i Hi; simpl; [exact Hi|].
  apply IH. destruct (Nat.eq_dec (idx y) i) as [<-|Hne].
  - rewrite list_lookup_alter_eq. destruct (rs !! idx y) as [[a b]|]; [|discriminate].
    cbn in Hi |- *. apply Z.leb_gt in Hi. apply Z.leb_gt. lia.
  - rewrite list_lookup_alter_ne by exact Hne. exact Hi.
Qed.

(** A range checked when it was narrowed still holds a value at the end, when
    every later narrowing was checked as well. *)
Lemma checked_range_nonempty {X} (idx : X -> nat) (lo hi : X -> Z) (xs : list X)
    (rs : list (Z * Z)) i :
  let final := fold_left (fun rs x => alter (narrow (lo x) (hi x)) (idx x) rs) xs rs in
  nonempty (rs !! i) = true ->
  (forall y, In y xs -> nonempty (final !! idx y) = true) ->
  nonempty (final !! i) = true.
Proof.
  intros final Hi Hxs.
  destruct (in_dec Nat.eq_dec i (map idx xs)) as [Hin|Hout].
  - apply in_map_iff in Hin as (y & <- & Hy). exact (Hxs y Hy).
  - unfold final. rewrite narrow_fold_frame by exact Hout. exact Hi.
Qed.

Lemma set_range_dimensions r dc dt index l u :
  dimensions r = [dc; dt] -> dim_name dc = "Capacity" -> dim_name dt = "Time" ->
  dimensions (set_range "Time" index l u r) = [dc; dim_SetRange index l u dt]
  /\ CumulVar_range (set_range "Time" index l u r) "Time" index
     = alter (narrow l u) index (dim_cumul_range dt) !! index.
Proof.
  intros Hd Hc Ht.
  assert (H : dimensions (set_range "Time" index l u r) = [dc; dim_SetRange index l u dt]).
  { unfold set_range. cbn [dimensions]. rewrite Hd. cbn [map]. rewrite Hc, Ht. reflexivity. }
  split; [exact H|]. unfold CumulVar_range. rewrite H. cbn [find]. rewrite Hc.
  cbn [dim_name dim_SetRange]. rewrite Ht. reflexivity.
Qed.

(** One [SetRange] of the script: what it returns. *)
Lemma CumulVar_SetRange_Time r dc dt index l u :
  dimensions r = [dc; dt] -> dim_name dc = "Capacity" -> dim_name dt = "Time" ->
  CumulVar_SetRange "Time" index l u r
  = if int64 l && int64 u
    then if nonempty (alter (narrow l u) index (dim_cumul_range dt) !! index)
         then Ok (set_range "Time" index l u r)
         else Raise SolverFail
    else Raise OverflowError.
Proof.
  intros Hd Hc Ht. unfold CumulVar_SetRange.
  destruct (int64 l && int64 u); [|reflexivity].
  destruct (set_range_dimensions r dc dt index l u Hd Hc Ht) as [_ ->].
  destruct (alter (narrow l u) index (dim_cumul_range dt) !! index) as [[a b]|];
    reflexivity.
Qed.

(** A loop of [SetRange] calls whose bounds fit 64 bits: it ends without an
    exception when every variable it touches is left a value, with each
    variable narrowed; else the solver fails. *)
Lemma SetRange_loop {X} (body : X -> RoutingModel -> result RoutingModel)
    (f : RoutingModel -> X -> RoutingModel)
    (idx : X -> nat) (lo hi : X -> Z) (xs : list X) :
  (forall x r, body x r = CumulVar_SetRange "Time" (idx x) (lo x) (hi x) r) ->
  (forall r x, f r x = set_range "Time" (idx x) (lo x) (hi x) r) ->
  (forall x, In x xs -> int64 (lo x) && int64 (hi x) = true) ->
  forall r dc dt,
    dimensions r = [dc; dt] -> dim_name dc = "Capacity" -> dim_name dt = "Time" ->
    for_in xs body r
    = if forallb (fun x => nonempty
                    (fold_left (fun rs x => alter (narrow (lo x) (hi x)) (idx x) rs)
                               xs (dim_cumul_range dt) !! idx x)) xs
      then Ok (fold_left f xs r)
      else Raise SolverFail.
Proof.
  intros Hbody Hf. induction xs as [|x xs IH]; intros Hfit r dc dt Hd Hc Ht.
  - reflexivity.
  - cbn [for_in fold_left forallb].
    rewrite Hbody, (CumulVar_SetRange_Time r dc dt _ _ _ Hd Hc Ht).
    rewrite (Hfit x (or_introl eq_refl)).
    set (rs1 := alter (narrow (lo x) (hi x)) (idx x) (dim_cumul_range dt)).
    destruct (set_range_dimensions r dc dt (idx x) (lo x) (hi x) Hd Hc Ht) as [Hd1 _].
    specialize (IH (fun y Hy => Hfit y (or_intror Hy))
                   (set_range "Time" (idx x) (lo x) (hi x) r) dc
                   (dim_SetRange (idx x) (lo x) (hi x) dt) Hd1 Hc Ht).
    cbn [dim_cumul_range dim_SetRange] in IH. fold rs1 in IH.
    destruct (nonempty (rs1 !! idx x)) eqn:Hx; cbn [bind].
    + rewrite IH, Hf.
      destruct (forallb _ xs) eqn:Hxs.
      * rewrite (checked_range_nonempty idx lo hi xs rs1 (idx x) Hx); [reflexivity|].
        rewrite forallb_forall in Hxs. exact Hxs.
      * now rewrite andb_false_r.
    + now rewrite (narrow_fold_stays_empty idx lo hi xs rs1 (idx x) Hx).
Qed.

(** A loop of [SetRange] calls that ends without an exception: every bound
    fits 64 bits, every variable it touches is left a value, and each
    variable is narrowed. *)
Lemma SetRange_loop_Ok {X} (body : X -> RoutingModel -> result RoutingModel)
    (f : RoutingModel -> X -> RoutingModel)
    (idx : X -> nat) (lo hi : X -> Z) (xs : list X) :
  (forall x r, body x r = CumulVar_SetRange "Time" (idx x) (lo x) (hi x) r) ->
  (forall r x, f r x = set_range "Time" (idx x) (lo x) (hi x) r) ->
  forall r r' dc dt,
    dimensions r = [dc; dt] -> dim_name dc = "Capacity" -> dim_name dt = "Time" ->
    for_in xs body r = Ok r' ->
    r' = fold_left f xs r
    /\ forall x, In x xs ->
         int64 (lo x) && int64 (hi x) = true
         /\ nonempty
              (fold_left (fun rs x => alter (narrow (lo x) (hi x)) (idx x) rs)
                         xs (dim_cumul_range dt) !! idx x) = true.
Proof.
  intros Hbody Hf. induction xs as [|x xs IH]; intros r r' dc dt Hd Hc Ht Hrun.
  - cbn in Hrun. inversion Hrun. split; [reflexivity | intros x []].
  - cbn [for_in fold_left] in Hrun |- *.
    rewrite Hbody, (CumulVar_SetRange_Time r dc dt _ _ _ Hd Hc Ht) in Hrun.
    destruct (int64 (lo x) && int64 (hi x)) eqn:Hfit; [|discriminate].
    set (rs1 := alter (narrow (lo x) (hi x)) (idx x) (dim_cumul_range dt)) in *.
    destruct (nonempty (rs1 !! idx x)) eqn:Hx; [|discriminate]. cbn [bind] in Hrun.
    destruct (set_range_dimensions r dc dt (idx x) (lo x) (hi x) Hd Hc Ht) as [Hd1 _].
    destruct (IH _ r' dc (dim_SetRange (idx x) (lo x) (hi x) dt) Hd1 Hc Ht Hrun)
      as [Hr' Hxs].
    cbn [dim_cumul_range dim_SetRange] in Hxs. fold rs1 in Hxs.
    split; [now rewrite Hf|].
    intros y [<-|Hy].
    + split; [exact Hfit|].
      apply (checked_range_nonempty idx lo hi xs rs1 (idx x) Hx).
      intros z Hz. exact (proj2 (Hxs z Hz)).
    + exact (Hxs y Hy).
Qed.

Lemma fold_left_pointwise {A B} (f g : A -> B -> A) (l : list B) :
  (forall a b, f a b = g a b) -> forall a, fold_left f l a = fold_left g l a.
Proof.
  intros H. induction l as [|b l IH]; intros a; simpl; [reflexivity|].
  now rewrite H, IH.
Qed.

Lemma table_int64_row df n row :
  table_int64 df = true -> df !! n = Some row ->
  int64 (demand row) = true /\ int64 (tw_start row) = true /\ int64 (tw_end row) = true.
Proof.
  intros Hfit Hrow. unfold table_int64 in Hfit. rewrite forallb_forall in Hfit.
  specialize (Hfit row). rewrite !andb_true_iff in Hfit. 
  assert (Hin : In row df)
    by (apply list_elem_of_In; eapply list_elem_of_lookup_2; exact Hrow).
  tauto.
Qed.

Lemma demand_callback_int64 df index :
  table_int64 df = true -> int64 (demand_callback df index) = true.
Proof.
  intros Hfit. unfold demand_callback, demands. rewrite lookup_map.
  destruct (df !! IndexToNode (script_manager df) index) as [row|] eqn:Hrow;
    cbn [fmap option_fmap option_map default]; unfold id.
  - now destruct (table_int64_row df _ row Hfit Hrow).
  - reflexivity.
Qed.

(** The check of the first loop, in terms of the table. *)
Lemma windows_check df :
  forallb (fun x : nat * (Z * Z) =>
             nonempty (window_ranges df !! NodeToIndex (script_manager df) (fst x)))
          (enumerate (time_windows df))
  = windows_accepted df.
Proof.
  destruct (window_ranges_exact df) as [Hnode _].
  apply eq_true_iff_eq. unfold windows_accepted. rewrite !forallb_forall. split.
  - intros H row Hrow.
    apply list_elem_of_In, list_elem_of_lookup_1 in Hrow as [n Hn].
    assert (Hx : In (n, (tw_start row, tw_end row)) (enumerate (time_windows df))).
    { apply In_enumerate. unfold time_windows. rewrite lookup_map, Hn. reflexivity. }
    specialize (H _ Hx). cbn [fst] in H. unfold NodeToIndex in H.
    rewrite (Hnode n row Hn) in H. exact H.
  - intros H [n [s e]] Hx. apply In_enumerate_inv in Hx.
    unfold time_windows in Hx. rewrite lookup_map in Hx.
    destruct (df !! n) as [row|] eqn:Hn; [|discriminate].
    cbn [fmap option_fmap option_map] in Hx. inversion Hx; subst s e.
    cbn [fst]. unfold NodeToIndex. rewrite (Hnode n row Hn).
    apply (H row). apply list_elem_of_In. eapply list_elem_of_lookup_2. exact Hn.
Qed.

(** The model before the two loops. *)
Lemma model_before_loops df time_matrix :
  let r0 := AddDimension (RegisterTransitCallback (time_callback df time_matrix)) 30
              max_route_duration false "Time"
              (AddDimensionWithVehicleCapacity
                 (RegisterUnaryTransitCallback (demand_callback df)) 0
                 vehicle_capacities true "Capacity"
                 (SetArcCostEvaluatorOfAllVehicles
                    (RegisterTransitCallback (time_callback df time_matrix))
                    (NewRoutingModel (script_manager df)))) in
  dimensions r0
  = [capacity_dimension df;
     time_dimension df time_matrix
       (replicate (GetNumberOfIndices (script_manager df)) (0%Z, max_route_duration))].
Proof. reflexivity. Qed.

(** When lines 54-100 end without an exception they leave the model
    [script_routing]; the integers of the table then fit 64 bits and every
    window leaves its variable a value. *)
Lemma declare_routing_Ok df time_matrix r :
  declare_routing df time_matrix = Ok r ->
  r = script_routing df time_matrix
  /\ forall n row, df !! n = Some row ->
       int64 (demand row) = true /\ int64 (tw_start row) = true
       /\ int64 (tw_end row) = true /\ window_accepted row = true.
Proof.
  unfold declare_routing. intros Hrun.
  destruct (forallb _ (seq 0 (Size (script_manager df)))) eqn:Hdem;
    cbn [bind] in Hrun; [|discriminate].
  apply bind_Ok in Hrun as (r1 & Hloop1 & Hrun).
  apply bind_Ok in Hrun as (r2 & Hloop2 & Hrun). inversion Hrun; subst r2. clear Hrun.
  pose proof (model_before_loops df time_matrix) as Hd0. cbv zeta in Hd0.
  destruct (SetRange_loop_Ok
              (fun '(node_idx, (start, end_)) (routing : RoutingModel) =>
                 CumulVar_SetRange "Time" (NodeToIndex (script_manager df) node_idx)
                   start end_ routing)
              (fun (routing : RoutingModel) (x : nat * (Z * Z)) =>
                 set_range "Time" (NodeToIndex (script_manager df) (fst x))
                   (fst (snd x)) (snd (snd x)) routing)
              (fun x => NodeToIndex (script_manager df) (fst x))
              (fun x => fst (snd x)) (fun x => snd (snd x))
              (enumerate (time_windows df))
              ltac:(intros [n [s e]] r0; reflexivity) ltac:(reflexivity)
              _ r1 _ _ Hd0 eq_refl eq_refl Hloop1) as [Hr1 Hwin].
  destruct (SetRange_fold
              (fun (routing : RoutingModel) (x : nat * (Z * Z)) =>
                 set_range "Time" (NodeToIndex (script_manager df) (fst x))
                   (fst (snd x)) (snd (snd x)) routing)
              (fun x => NodeToIndex (script_manager df) (fst x))
              (fun x => fst (snd x)) (fun x => snd (snd x))
              (enumerate (time_windows df)) ltac:(reflexivity)
              _ _ _ Hd0 eq_refl eq_refl) as [_ Hd1].
  rewrite <- Hr1 in Hd1.
  destruct (SetRange_loop_Ok
              (fun (v : nat) (routing : RoutingModel) =>
                 CumulVar_SetRange "Time" (Start (script_manager df) v) 0
                   max_route_duration routing)
              (fun (routing : RoutingModel) (v : nat) =>
                 set_range "Time" (Start (script_manager df) v) 0 max_route_duration routing)
              (fun v => Start (script_manager df) v)
              (fun _ => 0%Z) (fun _ => max_route_duration)
              (seq 0 num_vehicles)
              ltac:(intros v r0; reflexivity) ltac:(reflexivity)
              r1 r _ _ Hd1 eq_refl eq_refl Hloop2) as [Hr _].
  split.
  - rewrite Hr, Hr1. unfold script_routing. cbv zeta.
    rewrite (fold_left_pointwise _
               (fun routing '(node_idx, (start, end_)) =>
                  set_range "Time" (NodeToIndex (script_manager df) node_idx)
                    start end_ routing))
      by (intros r0 [n [s e]]; reflexivity).
    reflexivity.
  - intros n row Hrow.
    assert (Hx : In (n, (tw_start row, tw_end row)) (enumerate (time_windows df))).
    { apply In_enumerate. unfold time_windows. rewrite lookup_map, Hrow. reflexivity. }
    destruct (Hwin _ Hx) as [Hfit Hne]. cbn [fst snd] in Hfit, Hne.
    apply andb_true_iff in Hfit as [Hs He].
    change (fold_left _ (enumerate (time_windows df)) _) with (window_ranges df) in Hne.
    unfold NodeToIndex in Hne.
    rewrite (proj1 (window_ranges_exact df) n row Hrow) in Hne.
    repeat split; try assumption.
    rewrite forallb_forall in Hdem.
    assert (Hn : n < num_nodes df)
      by (rewrite num_nodes_length; eapply lookup_lt_Some; exact Hrow).
    specialize (Hdem n). rewrite in_seq in Hdem.
    unfold Size in Hdem. cbn [mgr_nodes mgr_vehicles script_manager] in Hdem.
    unfold num_vehicles in Hdem. specialize (Hdem ltac:(lia)).
    unfold demand_callback, demands, IndexToNode in Hdem.
    cbn [mgr_nodes mgr_depot script_manager] in Hdem.
    apply Nat.ltb_lt in Hn. rewrite Hn, lookup_map, Hrow in Hdem. exact Hdem.
Qed.

(** Lines 54-100 on a table whose integers fit 64 bits: they leave the model
    [script_routing] when every window leaves its variable a value; else the
    solver fails in the first loop. *)
Lemma declare_routing_spec df time_matrix :
  num_nodes df <> 0 ->
  table_int64 df = true ->
  declare_routing df time_matrix
  = if windows_accepted df then Ok (script_routing df time_matrix) else Raise SolverFail.
Proof.
  intros Hn Hfit. unfold declare_routing.
  replace (forallb (fun index => int64 (demand_callback df index))
                   (seq 0 (Size (script_manager df)))) with true
    by (symmetry; apply forallb_forall; intros i _; now apply demand_callback_int64).
  cbn [bind].
  pose proof (model_before_loops df time_matrix) as Hd0. cbv zeta in Hd0.
  assert (Hint : forall x : nat * (Z * Z), In x (enumerate (time_windows df)) ->
            int64 (fst (snd x)) && int64 (snd (snd x)) = true).
  { intros [n [s e]] Hx. apply In_enumerate_inv in Hx.
    unfold time_windows in Hx. rewrite lookup_map in Hx.
    destruct (df !! n) as [row|] eqn:Hrow; [|discriminate].
    cbn [fmap option_fmap option_map] in Hx. inversion Hx; subst s e. cbn [fst snd].
    destruct (table_int64_row df n row Hfit Hrow) as (_ & -> & ->). reflexivity. }
  rewrite (SetRange_loop
             (fun '(node_idx, (start, end_)) (routing : RoutingModel) =>
                CumulVar_SetRange "Time" (NodeToIndex (script_manager df) node_idx)
                  start end_ routing)
             (fun (routing : RoutingModel) (x : nat * (Z * Z)) =>
                set_range "Time" (NodeToIndex (script_manager df) (fst x))
                  (fst (snd x)) (snd (snd x)) routing)
             (fun x => NodeToIndex (script_manager df) (fst x))
             (fun x => fst (snd x)) (fun x => snd (snd x))
             (enumerate (time_windows df))
             ltac:(intros [n [s e]] r0; reflexivity) ltac:(reflexivity)
             Hint _ _ _ Hd0 eq_refl eq_refl).
  cbn [dim_cumul_range time_dimension].
  change (fold_left _ (enumerate (time_windows df))
            (replicate (GetNumberOfIndices (script_manager df)) (0%Z, max_route_duration)))
    with (window_ranges df).
  rewrite windows_check.
  destruct (windows_accepted df) eqn:Hacc; [|reflexivity]. cbn [bind].
  destruct (SetRange_fold
              (fun (routing : RoutingModel) (x : nat * (Z * Z)) =>
                 set_range "Time" (NodeToIndex (script_manager df) (fst x))
                   (fst (snd x)) (snd (snd x)) routing)
              (fun x => NodeToIndex (script_manager df) (fst x))
              (fun x => fst (snd x)) (fun x => snd (snd x))
              (enumerate (time_windows df)) ltac:(reflexivity)
              _ _ _ Hd0 eq_refl eq_refl) as [_ Hd1].
  rewrite (SetRange_loop
             (fun (v : nat) (routing : RoutingModel) =>
                CumulVar_SetRange "Time" (Start (script_manager df) v) 0
                  max_route_duration routing)
             (fun (routing : RoutingModel) (v : nat) =>
                set_range "Time" (Start (script_manager df) v) 0 max_route_duration routing)
             (fun v => Start (script_manager df) v)
             (fun _ => 0%Z) (fun _ => max_route_duration)
             (seq 0 num_vehicles)
             ltac:(intros v r0; reflexivity) ltac:(reflexivity)
             ltac:(intros; reflexivity) _ _ _ Hd1 eq_refl eq_refl).
  cbn [dim_cumul_range with_range time_dimension].
  change (fold_left _ (enumerate (time_windows df))
            (replicate (GetNumberOfIndices (script_manager df)) (0%Z, max_route_duration)))
    with (window_ranges df).
  change (fold_left _ (seq 0 num_vehicles) (window_ranges df)) with (time_ranges df).
  replace (forallb _ (seq 0 num_vehicles)) with true.
  - unfold script_routing. cbv zeta.
    rewrite (fold_left_pointwise _
               (fun routing '(node_idx, (start, end_)) =>
                  set_range "Time" (NodeToIndex (script_manager df) node_idx)
                    start end_ routing))
      by (intros r0 [n [s e]]; reflexivity).
    reflexivity.
  - symmetry. apply forallb_forall. intros v Hv. apply in_seq in Hv.
    destruct (time_ranges_exact df Hn) as [Hnode Hother].
    unfold windows_accepted in Hacc. rewrite forallb_forall in Hacc.
    unfold Start. cbn [mgr_nodes mgr_depot script_manager].
    destruct (Nat.eqb_spec v 0) as [->|Hv0].
    + destruct (lookup_lt_is_Some_2 df depot_index) as [row Hrow].
      { rewrite <- num_nodes_length. unfold depot_index. lia. }
      rewrite (Hnode _ row Hrow). apply (Hacc row).
      apply list_elem_of_In. eapply list_elem_of_lookup_2. exact Hrow.
    + rewrite Hother; [reflexivity|].
      unfold GetNumberOfIndices, Size. cbn [mgr_nodes mgr_vehicles script_manager].
      unfold num_vehicles in *. lia.
Qed.

(** ** C4: the run without a solution *)

Lemma print_routes_lines df s line :
  In line (print_routes df s) -> line <> "No solution found.".
Proof.
  unfold print_routes. intros Hin. apply in_flat_map in Hin as ([v nodes] & _ & Hin).
  unfold print_route in Hin. simpl in Hin. destruct Hin as [<-|Hin]; [discriminate|].
  apply in_app_or in Hin as [Hin|[<-|[]]]; [|discriminate].
  apply in_map_iff in Hin as ([name t] & <- & _). discriminate.
Qed.

(** C4. When lines 54-100 have left the model and the search returns no
    solution, the run is exactly this: the call of the search, the line
    ["No solution found."], and [exit()]; it ends in the outcome [Exited],
    which carries no dictionary, and nothing about a route is printed.  In
    no other run on that model is that line printed. *)
Theorem C4_no_solution_signal {M : PyMath} (solve : Solver)
    df dist_matrix time_matrix routing :
  build_matrices df = Ok (dist_matrix, time_matrix) ->
  num_nodes df <> 0 ->
  declare_routing df time_matrix = Ok routing ->
  routing = script_routing df time_matrix
  /\ (solve routing params = None ->
      script solve df =
        {| effects := [SolveWithParameters routing params;
                       print "No solution found."];
           outcome := Exited |})
  /\ (In (print "No solution found.") (effects (script solve df)) ->
      solve routing params = None).
Proof.
  intros Hms Hn Hmodel.
  split; [exact (proj1 (declare_routing_Ok df time_matrix routing Hmodel))|].
  unfold script. rewrite Hms.
  destruct (Nat.eqb_spec (num_nodes df) 0) as [|_]; [contradiction|].
  rewrite Hmodel.
  destruct (solve routing params) as [a|] eqn:Hsolve.
  - split; [discriminate|]. intros Hin. exfalso.
    destruct (extract_routes df (empty_store routing a)) as [s'|]; simpl in Hin.
    + destruct Hin as [Hin|Hin]; [discriminate|].
      apply in_map_iff in Hin as (line & Heq & Hin). inversion Heq; subst.
      now apply print_routes_lines in Hin.
    + destruct Hin as [Hin|[]]. discriminate.
  - split; reflexivity.
Qed.

Lemma C4_no_solution_signal_witness :
  let routing := script_routing example_df example_time_matrix in
  routing = script_routing example_df example_time_matrix
  /\ (no_solution routing params = None ->
      script (M := small_angle_math) no_solution example_df =
        {| effects := [SolveWithParameters routing params;
                       print "No solution found."];
           outcome := Exited |})
  /\ (In (print "No solution found.")
         (effects (script (M := small_angle_math) no_solution example_df)) ->
      no_solution routing params = None).
Proof.
  apply (C4_no_solution_signal (M := small_angle_math) no_solution example_df
           example_dist_matrix example_time_matrix
           (script_routing example_df example_time_matrix)).
  - vm_compute. reflexivity.
  - vm_compute. discriminate.
  - vm_compute. reflexivity.
Defined.

(** ** C6: malformed tables *)

(** C6, refuted as stated: on a table with a negative demand nothing is
    detected; the script calls the search, and with a search that returns the
    feasible assignment above it goes on to record and report a route. *)
Lemma C6_malformed_instance_reaches_search :
  malformed negative_demand_df example_time_matrix = true
  /\ search_attempted
       (script (M := small_angle_math) (try_candidate negative_demand_solution)
          negative_demand_df)
  /\ exists s,
       outcome (script (M := small_angle_math) (try_candidate negative_demand_solution)
                  negative_demand_df) = Plots s
       /\ vehicle_routes s = [(0, [0; 1; 2; 0])]
       /\ vehicle_loads s = [(0, 2%Z)].
Proof.
  split; [vm_compute; reflexivity|]. split.
  - exists (script_routing negative_demand_df example_time_matrix), params.
    vm_compute. left. reflexivity.
  - eexists. split; [vm_compute; reflexivity|]. split; reflexivity.
Qed.

Lemma inverted_window_not_accepted df :
  inverted_window df = true -> windows_accepted df = false.
Proof.
  intros Hinv. unfold inverted_window in Hinv. apply existsb_exists in Hinv as (row & Hin & Hrow).
  destruct (windows_accepted df) eqn:Hacc; [|reflexivity].
  unfold windows_accepted in Hacc. rewrite forallb_forall in Hacc.
  specialize (Hacc row Hin). unfold window_accepted in Hacc.
  apply Z.leb_le in Hacc. apply Z.ltb_lt in Hrow. lia.
Qed.

(** C6, amended.  The script checks nothing about the table itself.  On a
    table with a depot row whose matrices are built and whose integers fit 64
    bits: when every window meets [0 .. max_route_duration], whatever the
    demands are and whether or not the nodes can be reached, lines 54-100
    leave the model and the search is called on it; when a window does not,
    as when it closes before it opens, the library's [SetRange] fails on
    line 95, the run ends there with the library's exception and the search
    is never called. *)
Theorem C6_no_validation_before_search {M : PyMath} (solve : Solver)
    df dist_matrix time_matrix :
  build_matrices df = Ok (dist_matrix, time_matrix) ->
  num_nodes df <> 0 ->
  table_int64 df = true ->
  (windows_accepted df = true ->
   exists rest,
     effects (script solve df)
     = SolveWithParameters (script_routing df time_matrix) params :: rest)
  /\ (windows_accepted df = false ->
      script solve df = {| effects := []; outcome := Raised SolverFail |})
  /\ (inverted_window df = true -> windows_accepted df = false).
Proof.
  intros Hms Hn Hfit.
  pose proof (declare_routing_spec df time_matrix Hn Hfit) as Hmodel.
  split; [|split].
  - intros Hacc. rewrite Hacc in Hmodel. unfold script. rewrite Hms.
    destruct (Nat.eqb_spec (num_nodes df) 0) as [|_]; [contradiction|].
    rewrite Hmodel.
    destruct (solve _ _) as [a|]; [|eauto].
    destruct (extract_routes df _); eauto.
  - intros Hacc. rewrite Hacc in Hmodel. unfold script. rewrite Hms.
    destruct (Nat.eqb_spec (num_nodes df) 0) as [|_]; [contradiction|].
    rewrite Hmodel. reflexivity.
  - apply inverted_window_not_accepted.
Qed.

Lemma C6_no_validation_before_search_witness :
  (windows_accepted inverted_window_df = true ->
   exists rest,
     effects (script (M := small_angle_math) (try_candidate example_solution)
                inverted_window_df)
     = SolveWithParameters (script_routing inverted_window_df example_time_matrix) params
       :: rest)
  /\ (windows_accepted inverted_window_df = false ->
      script (M := small_angle_math) (try_candidate example_solution) inverted_window_df
      = {| effects := []; outcome := Raised SolverFail |})
  /\ (inverted_window inverted_window_df = true ->
      windows_accepted inverted_window_df = false).
Proof.
  apply (C6_no_validation_before_search (M := small_angle_math)
           (try_candidate example_solution) inverted_window_df
           example_dist_matrix example_time_matrix).
  - vm_compute. reflexivity.
  - vm_compute. discriminate.
  - vm_compute. reflexivity.
Defined.

(** ** The loops of section 2 *)

Lemma cell_replicate {A} n (z : A) i j :
  i < n -> j < n -> cell (replicate n (replicate n z)) i j = Some z.
Proof.
  intros Hi Hj. unfold cell. rewrite lookup_replicate_2 by exact Hi. simpl.
  now apply lookup_replicate_2.
Qed.

(** [mx[i][j] = x] leaves every other cell as it was. *)
Lemma cell_update_other {A} (mx : list (list A)) i j k l x :
  (k <> i \/ l <> j) ->
  cell (alter (<[j := x]>) i mx) k l = cell mx k l.
Proof.
  intros Hne. unfold cell. destruct (Nat.eq_dec i k) as [->|Hik].
  - rewrite list_lookup_alter_eq. destruct (mx !! k) as [row|]; simpl; [|reflexivity].
    apply list_lookup_insert_ne. destruct Hne; congruence.
  - now rewrite list_lookup_alter_ne.
Qed.

Lemma cell_update {A} (mx : list (list A)) i j x :
  cell (alter (<[j := x]>) i mx) i j = (fun _ => x) <$> cell mx i j.
Proof.
  unfold cell. rewrite list_lookup_alter_eq.
  destruct (mx !! i) as [row|]; simpl; [|reflexivity].
  rewrite list_lookup_insert. destruct (decide (j = j /\ j < length row)) as [[_ Hj]|Hn].
  - apply lookup_lt_is_Some_2 in Hj as [y Hy]. now rewrite Hy.
  - destruct (row !! j) eqn:Hrow; [|reflexivity].
    exfalso. apply Hn. split; [reflexivity|]. now apply lookup_lt_Some in Hrow.
Qed.

(** A property that every round of a loop keeps holds when the loop ends. *)
Lemma for_in_preserves {A S} (P : S -> Prop) (body : A -> S -> result S) l :
  (forall x s s', P s -> body x s = Ok s' -> P s') ->
  forall s s', P s -> for_in l body s = Ok s' -> P s'.
Proof.
  intros Hbody. induction l as [|x l IH]; simpl; intros s s' Hs Hrun.
  - inversion Hrun; subst. exact Hs.
  - destruct (body x s) as [s1|e] eqn:Hx; simpl in Hrun; [|discriminate].
    eapply IH; [|exact Hrun]. eapply Hbody; eauto.
Qed.

(** One round of the inner loop writes at most the cell [(i, j)], and only
    when [i] and [j] differ. *)
Lemma matrix_cell_other {M : PyMath} df i j dm tm dm' tm' k l :
  matrix_cell df i j (dm, tm) = Ok (dm', tm') ->
  (i = j \/ k <> i \/ l <> j) ->
  cell dm' k l = cell dm k l /\ cell tm' k l = cell tm k l.
Proof.
  unfold matrix_cell. intros H Hne. destruct (Nat.eqb_spec i j) as [Heq|Hij].
  - inversion H; subst. auto.
  - destruct Hne as [Hne|Hne]; [contradiction|].
    repeat (apply bind_Ok in H as (? & _ & H)).
    inversion H; subst. split; now apply cell_update_other.
Qed.

Section Loops.
Context {M : PyMath}.
Variable df : DataFrame.

Lemma matrix_cell_step i j ms ms' :
  matrix_cell df i j ms = Ok ms' ->
  (i = j /\ ms' = ms)
  \/ (i <> j /\ exists d t,
        computed df i j = Ok (d, t)
        /\ ms' = (alter (<[j := Float d]>) i (fst ms), alter (<[j := t]>) i (snd ms))).
Proof.
  destruct ms as [dm tm]. unfold matrix_cell, computed. intros H.
  destruct (Nat.eqb_spec i j) as [Heq|Hne].
  - left. inversion H; subst. auto.
  - right. split; [exact Hne|].
    apply bind_Ok in H as (lat_i & Hlati & H). apply bind_Ok in H as (lon_i & Hloni & H).
    apply bind_Ok in H as (lat_j & Hlatj & H). apply bind_Ok in H as (lon_j & Hlonj & H).
    apply bind_Ok in H as (d & Hd & H). apply bind_Ok in H as (t & Ht & H).
    inversion H; subst. exists d, t.
    rewrite Hlati, Hloni, Hlatj, Hlonj. cbn [bind]. rewrite Hd. cbn [bind].
    rewrite Ht. split; reflexivity.
Qed.

Lemma step_defined n i j ms ms' :
  defined n ms -> matrix_cell df i j ms = Ok ms' -> defined n ms'.
Proof.
  intros Hdef Hstep k l Hk Hl. destruct (Hdef k l Hk Hl) as [Hd Ht].
  apply matrix_cell_step in Hstep as [[_ ->]|(_ & d & t & _ & ->)]; [auto|].
  cbn [fst snd] in *.
  destruct (Nat.eq_dec k i) as [->|Hki]; [destruct (Nat.eq_dec l j) as [->|Hlj]|].
  - rewrite !cell_update. destruct Hd as [? ->], Ht as [? ->]. simpl. eauto.
  - rewrite !cell_update_other by auto. auto.
  - rewrite !cell_update_other by auto. auto.
Qed.

Lemma step_written_stable i j ms ms' k l :
  written df ms k l -> matrix_cell df i j ms = Ok ms' -> written df ms' k l.
Proof.
  intros (d & t & Hc & Hd & Ht) Hstep.
  apply matrix_cell_step in Hstep as [[_ ->]|(_ & d' & t' & Hc' & ->)];
    [exists d, t; auto|].
  cbn [fst snd] in *.
  destruct (Nat.eq_dec k i) as [->|Hki]; [destruct (Nat.eq_dec l j) as [->|Hlj]|].
  - exists d', t'. cbn [fst snd]. rewrite !cell_update, Hd, Ht. auto.
  - exists d, t. cbn [fst snd]. rewrite !cell_update_other by auto. auto.
  - exists d, t. cbn [fst snd]. rewrite !cell_update_other by auto. auto.
Qed.

Lemma step_writes n i j ms ms' :
  defined n ms -> i < n -> j < n -> i <> j ->
  matrix_cell df i j ms = Ok ms' -> written df ms' i j.
Proof.
  intros Hdef Hi Hj Hne Hstep. destruct (Hdef i j Hi Hj) as [[x Hd] [y Ht]].
  apply matrix_cell_step in Hstep as [[Heq _]|(_ & d & t & Hc & ->)]; [contradiction|].
  exists d, t. cbn [fst snd] in *. rewrite !cell_update, Hd, Ht. auto.
Qed.

(** The inner loop, for row [i], over the columns [js]. *)
Lemma row_loop n i js : forall ms ms',
  defined n ms ->
  for_in js (matrix_cell df i) ms = Ok ms' ->
  defined n ms'
  /\ (forall k l, written df ms k l -> written df ms' k l)
  /\ (i < n -> forall j, In j js -> j < n -> j <> i -> written df ms' i j).
Proof.
  induction js as [|j js IH]; simpl; intros ms ms' Hdef Hrun.
  - inversion Hrun; subst. split; [exact Hdef|]. split; [auto|]. intros _ j [].
  - apply bind_Ok in Hrun as (ms1 & Hstep & Hrun).
    pose proof (step_defined n i j ms ms1 Hdef Hstep) as Hdef1.
    destruct (IH ms1 ms' Hdef1 Hrun) as (Hdef' & Hstable & Hrow).
    split; [exact Hdef'|]. split.
    + intros k l Hw. apply Hstable. exact (step_written_stable i j ms ms1 k l Hw Hstep).
    + intros Hi j' [<-|Hin] Hj' Hne.
      * apply Hstable. apply (step_writes n i j ms ms1); auto.
      * apply Hrow; auto.
Qed.

(** The outer loop, over the rows [rows]. *)
Lemma matrix_loop n js rows : forall ms ms',
  defined n ms ->
  for_in rows (fun i => for_in js (matrix_cell df i)) ms = Ok ms' ->
  defined n ms'
  /\ (forall k l, written df ms k l -> written df ms' k l)
  /\ (forall i, In i rows -> i < n ->
        forall j, In j js -> j < n -> j <> i -> written df ms' i j).
Proof.
  induction rows as [|i rows IH]; simpl; intros ms ms' Hdef Hrun.
  - inversion Hrun; subst. split; [exact Hdef|]. split; [auto|]. intros i [].
  - apply bind_Ok in Hrun as (ms1 & Hrow & Hrun).
    destruct (row_loop n i js ms ms1 Hdef Hrow) as (Hdef1 & Hstable1 & Hrow1).
    destruct (IH ms1 ms' Hdef1 Hrun) as (Hdef' & Hstable & Hrows).
    split; [exact Hdef'|]. split; [auto|].
    intros i' [<-|Hin] Hi' j Hj Hjn Hne.
    + apply Hstable. apply Hrow1; auto.
    + apply Hrows; auto.
Qed.

(** The loops leave the diagonal as it was. *)
Lemma loops_keep_diagonal js rows k : forall ms ms',
  for_in rows (fun i => for_in js (matrix_cell df i)) ms = Ok ms' ->
  cell (fst ms') k k = cell (fst ms) k k /\ cell (snd ms') k k = cell (snd ms) k k.
Proof.
  intros ms ms' Hrun.
  set (P := fun s : list (list Number) * list (list Z) =>
              cell (fst s) k k = cell (fst ms) k k
              /\ cell (snd s) k k = cell (snd ms) k k).
  change (P ms'). eapply (for_in_preserves P); [| |exact Hrun]; [|split; reflexivity].
  intros i s s' Hs Hrow.
  eapply (for_in_preserves P); [| exact Hs | exact Hrow].
  intros j [dm tm] [dm' tm'] [Hd Ht] Hcell. unfold P in *. simpl in *.
  destruct (matrix_cell_other df i j dm tm dm' tm' k k Hcell) as [Hd' Ht'].
  - destruct (Nat.eq_dec i j) as [Hij|Hij]; [now left|].
    right. destruct (Nat.eq_dec k i); [right; congruence | left; congruence].
  - rewrite Hd', Ht'. auto.
Qed.

(** When the loops end, every cell off the diagonal holds what the body
    computes for it. *)
Lemma build_matrices_written dist_matrix time_matrix i j :
  build_matrices df = Ok (dist_matrix, time_matrix) ->
  i < num_nodes df -> j < num_nodes df -> i <> j ->
  written df (dist_matrix, time_matrix) i j.
Proof.
  unfold build_matrices. intros Hrun Hi Hj Hne.
  set (n := num_nodes df) in *.
  assert (Hdef : defined n (replicate n (replicate n (Int 0)),
                            replicate n (replicate n 0%Z))).
  { intros k l Hk Hl. cbn [fst snd]. rewrite !cell_replicate by assumption. eauto. }
  destruct (matrix_loop n _ _ _ _ Hdef Hrun) as (_ & _ & Hw).
  apply Hw; auto; apply in_seq; lia.
Qed.
End Loops.

(** ** C7: the diagonals of the matrices *)

(** C7. When the two loops of section 2 end without an exception, every
    diagonal cell of both matrices still holds the integer 0 it was created
    with: [dist_matrix[i][i] = 0] and [time_matrix[i][i] = 0] for every node
    [i]. *)
Theorem C7_matrix_diagonal_zero {M : PyMath} df dist_matrix time_matrix :
  build_matrices df = Ok (dist_matrix, time_matrix) ->
  forall i, i < num_nodes df ->
    cell dist_matrix i i = Some (Int 0) /\ cell time_matrix i i = Some 0%Z.
Proof.
  unfold build_matrices. intros Hrun i Hi.
  destruct (loops_keep_diagonal df _ _ i _ _ Hrun) as [Hd Ht].
  cbn [fst snd] in Hd, Ht. rewrite Hd, Ht.
  split; now apply cell_replicate.
Qed.

Lemma C7_matrix_diagonal_zero_witness :
  cell example_dist_matrix 1 1 = Some (Int 0)
  /\ cell example_time_matrix 1 1 = Some 0%Z.
Proof.
  apply (C7_matrix_diagonal_zero (M := small_angle_math) example_df
           example_dist_matrix example_time_matrix).
  - vm_compute. reflexivity.
  - cbn. lia.
Defined.

(** ** IEEE 754 arithmetic, from the specification of the primitive floats *)

Section SpecFloatFacts.
Variables prec emax : Z.

Lemma binary_round_aux_opp s m e l :
  binary_round_aux prec emax (negb s) m e l
  = SFopp (binary_round_aux prec emax s m e l).
Proof.
  unfold binary_round_aux.
  destruct (shr_fexp prec emax m e l) as [mrs' e'].
  destruct (shr_fexp prec emax _ e' loc_Exact) as [mrs'' e''].
  destruct (shr_m mrs'') as [|p|p]; simpl; try reflexivity.
  destruct (e'' <=? emax - prec)%Z; reflexivity.
Qed.

Lemma binary_round_opp s m e :
  binary_round prec emax (negb s) m e = SFopp (binary_round prec emax s m e).
Proof.
  unfold binary_round. destruct (shl_align _ _ _) as [mz ez].
  apply binary_round_aux_opp.
Qed.

Lemma SFmul_comm x y : SFmul prec emax x y = SFmul prec emax y x.
Proof.
  destruct x as [sx|sx| |sx mx ex], y as [sy|sy| |sy my ey]; simpl;
    try reflexivity; try (now rewrite xorb_comm).
  now rewrite xorb_comm, Pos.mul_comm, Z.add_comm.
Qed.

Lemma SFmul_opp_opp x y :
  SFmul prec emax (SFopp x) (SFopp y) = SFmul prec emax x y.
Proof.
  assert (Hx : forall a b, xorb (negb a) (negb b) = xorb a b)
    by (intros [] []; reflexivity).
  destruct x as [sx|sx| |sx mx ex], y as [sy|sy| |sy my ey]; simpl;
    try reflexivity; now rewrite Hx.
Qed.

Lemma SFdiv_opp_l x y :
  SFdiv prec emax (SFopp x) y = SFopp (SFdiv prec emax x y).
Proof.
  assert (Hx : forall a b, xorb (negb a) b = negb (xorb a b))
    by (intros [] []; reflexivity).
  destruct x as [sx|sx| |sx mx ex], y as [sy|sy| |sy my ey]; simpl;
    try reflexivity; try (now rewrite Hx).
  destruct (SFdiv_core_binary prec emax (Z.pos mx) ex (Z.pos my) ey) as [[mz ez] lz].
  rewrite Hx. apply binary_round_aux_opp.
Qed.

Lemma binary_normalize_opp m e :
  binary_normalize prec emax (- m) e false
  = match m with
    | Z0 => S754_zero false
    | _ => SFopp (binary_normalize prec emax m e false)
    end.
Proof.
  destruct m as [|p|p]; simpl; try reflexivity.
  - apply (binary_round_opp false).
  - rewrite <- (binary_round_opp true). reflexivity.
Qed.

(** Subtracting the other way round gives the opposite, unless both
    differences are the positive zero. *)
Lemma SFsub_swap x y :
  SFsub prec emax y x = SFopp (SFsub prec emax x y)
  \/ (SFsub prec emax y x = S754_zero false /\ SFsub prec emax x y = S754_zero false).
Proof.
  destruct x as [sx|sx| |sx mx ex], y as [sy|sy| |sy my ey]; simpl;
    try (left; reflexivity);
    try (destruct sx, sy; simpl; auto; fail).
  rewrite (Z.min_comm ey ex).
  set (A := cond_Zopp sx _). set (B := cond_Zopp sy _).
  replace (B - A)%Z with (- (A - B))%Z by lia.
  rewrite binary_normalize_opp.
  destruct (A - B)%Z; simpl; auto.
Qed.
End SpecFloatFacts.

Lemma float_mul_comm (x y : float) : (x * y = y * x)%float.
Proof. apply Prim2SF_inj. rewrite !mul_spec. apply SFmul_comm. Qed.

Lemma float_mul_opp_opp (x y : float) : (- x * - y = x * y)%float.
Proof. apply Prim2SF_inj. rewrite !mul_spec, !opp_spec. apply SFmul_opp_opp. Qed.

Lemma float_div_opp_l (x y : float) : (- x / y = - (x / y))%float.
Proof. apply Prim2SF_inj. rewrite opp_spec, !div_spec, opp_spec. apply SFdiv_opp_l. Qed.

Lemma float_sub_swap (x y : float) :
  (y - x = - (x - y))%float \/ (y - x = x - y)%float.
Proof.
  destruct (SFsub_swap prec emax (Prim2SF x) (Prim2SF y)) as [H|[H1 H2]].
  - left. apply Prim2SF_inj. rewrite opp_spec, !sub_spec. exact H.
  - right. apply Prim2SF_inj. rewrite !sub_spec. unfold SF64sub. now rewrite H1, H2.
Qed.

Lemma not_negative_spec x : not_negative x <-> SFnot_negative (Prim2SF x).
Proof.
  unfold not_negative. rewrite ltb_spec.
  change (Prim2SF 0) with (S754_zero false).
  destruct (Prim2SF x) as [s|s| |s m e]; simpl; unfold SFltb; simpl;
    try tauto; destruct s; simpl; split; congruence.
Qed.

Lemma binary_round_aux_sign prec emax s m e l :
  match binary_round_aux prec emax s m e l with
  | S754_zero s' | S754_infinity s' | S754_finite s' _ _ => s' = s
  | S754_nan => True
  end.
Proof.
  unfold binary_round_aux.
  destruct (shr_fexp prec emax m e l) as [mrs' e'].
  destruct (shr_fexp prec emax _ e' loc_Exact) as [mrs'' e''].
  destruct (shr_m mrs'') as [|p|p]; simpl; auto.
  destruct (e'' <=? emax - prec)%Z; reflexivity.
Qed.

Lemma SFmul_not_negative prec emax x y :
  SFnot_negative x -> SFnot_negative y -> SFnot_negative (SFmul prec emax x y).
Proof.
  destruct x as [sx|sx| |sx mx ex], y as [sy|sy| |sy my ey]; simpl; auto;
    try (intros -> ->; reflexivity).
  intros -> ->. simpl.
  pose proof (binary_round_aux_sign prec emax false (Z.pos (mx * my)) (ex + ey) loc_Exact) as H.
  destruct (binary_round_aux _ _ _ _ _ _); simpl; auto.
Qed.

Lemma SFsqrt_not_negative prec emax x : SFnot_negative (SFsqrt prec emax x).
Proof.
  destruct x as [sx|sx| |sx mx ex]; simpl; auto.
  - destruct sx; simpl; auto.
  - destruct sx; simpl; auto.
    destruct (SFsqrt_core_binary prec emax (Z.pos mx) ex) as [[mz ez] lz].
    pose proof (binary_round_aux_sign prec emax false mz ez lz) as H.
    destruct (binary_round_aux _ _ _ _ _ _); simpl; auto.
Qed.

Lemma float_mul_not_negative (x y : float) :
  not_negative x -> not_negative y -> not_negative (x * y)%float.
Proof.
  rewrite !not_negative_spec, mul_spec. apply SFmul_not_negative.
Qed.

Lemma float_sqrt_not_negative (x : float) : not_negative (PrimFloat.sqrt x).
Proof. rewrite not_negative_spec, sqrt_spec. apply SFsqrt_not_negative. Qed.

Lemma float_mul_nan_l (x y : float) :
  Prim2SF x = S754_nan -> Prim2SF (x * y)%float = S754_nan.
Proof. intros H. rewrite mul_spec, H. reflexivity. Qed.

Lemma not_negative_leb (x : float) :
  not_negative x -> Prim2SF x <> S754_nan -> (0 <=? x)%float = true.
Proof.
  rewrite not_negative_spec, leb_spec. change (Prim2SF 0) with (S754_zero false).
  destruct (Prim2SF x) as [s|s| |s m e]; simpl; unfold SFleb; simpl;
    try congruence; intros ->; reflexivity.
Qed.

Lemma round_half_even_nonneg m e : (0 <= round_half_even m e)%Z.
Proof.
  unfold round_half_even. destruct (0 <=? e)%Z eqn:He.
  - apply Z.leb_le in He. apply Z.mul_nonneg_nonneg; [lia|].
    now apply Z.pow_nonneg.
  - apply Z.leb_gt in He.
    assert (Hd : (0 < 2 ^ (- e))%Z) by (apply Z.pow_pos_nonneg; lia).
    assert (Hq : (0 <= Z.pos m / 2 ^ (- e))%Z) by (apply Z.div_pos; lia).
    destruct (2 * (Z.pos m mod 2 ^ (- e)) ?= 2 ^ (- e))%Z; [|lia|lia].
    destruct (Z.even _); lia.
Qed.

Lemma round_not_negative x z : not_negative x -> round x = Ok z -> (0 <= z)%Z.
Proof.
  rewrite not_negative_spec. unfold round.
  destruct (Prim2SF x) as [s|s| |s m e]; simpl; intros Hs H; inversion H; subst.
  - lia.
  - simpl. apply round_half_even_nonneg.
Qed.

Lemma round_Ok_not_nan x z : round x = Ok z -> Prim2SF x <> S754_nan.
Proof. unfold round. intros H Hn. rewrite Hn in H. discriminate. Qed.

(** ** C10: symmetry and sign of the matrices *)

Lemma small_angle_math_facts : CLibraryFacts small_angle_math.
Proof.
  split.
  - intros x s H. simpl in *. inversion H; subst. reflexivity.
  - intros x. simpl. change (2 =? 2)%float with true. simpl.
    now rewrite float_mul_opp_opp.
  - intros x r H Hx. simpl in H.
    destruct (PrimFloat.abs x <=? 1)%float; inversion H; subst. exact Hx.
Qed.

Section Haversine.
Context {M : PyMath} {facts : CLibraryFacts M}.
Local Open Scope py_scope.

Lemma sin_half_difference_squared x y s p :
  math_sin ((y - x) / 2)%float = Ok s -> float_pow s 2%float = Ok p ->
  exists s', math_sin ((x - y) / 2)%float = Ok s' /\ float_pow s' 2%float = Ok p.
Proof.
  intros Hs Hp. destruct (float_sub_swap y x) as [Hswap|Hswap]; rewrite Hswap.
  - rewrite float_div_opp_l. exists (- s)%float.
    split; [now apply sin_odd | now rewrite square_even].
  - eauto.
Qed.

(** The distance does not depend on the order of the two points. *)
Lemma haversine_symmetric lat1 lon1 lat2 lon2 d :
  haversine lat1 lon1 lat2 lon2 = Ok d ->
  haversine lat2 lon2 lat1 lon1 = Ok d.
Proof.
  unfold haversine. intros H.
  apply bind_Ok in H as (a1 & Ha1 & H). apply bind_Ok in H as (b1 & Hb1 & H).
  apply bind_Ok in H as (a2 & Ha2 & H). apply bind_Ok in H as (b2 & Hb2 & H).
  apply bind_Ok in H as (s1 & Hs1 & H). apply bind_Ok in H as (p1 & Hp1 & H).
  apply bind_Ok in H as (c1 & Hc1 & H). apply bind_Ok in H as (c2 & Hc2 & H).
  apply bind_Ok in H as (s2 & Hs2 & H). apply bind_Ok in H as (p2 & Hp2 & H).
  destruct (sin_half_difference_squared _ _ _ _ Hs1 Hp1) as (s1' & Hs1' & Hp1').
  destruct (sin_half_difference_squared _ _ _ _ Hs2 Hp2) as (s2' & Hs2' & Hp2').
  rewrite Ha2, Hb2, Ha1, Hb1. cbn [bind].
  rewrite Hs1'. cbn [bind]. rewrite Hp1'. cbn [bind].
  rewrite Hc2, Hc1. cbn [bind].
  rewrite Hs2'. cbn [bind]. rewrite Hp2'. cbn [bind].
  rewrite (float_mul_comm c2 c1). exact H.
Qed.

(** The distance is not negative. *)
Lemma haversine_not_negative lat1 lon1 lat2 lon2 d :
  haversine lat1 lon1 lat2 lon2 = Ok d -> not_negative d.
Proof.
  unfold haversine. intros H.
  do 10 (apply bind_Ok in H as (? & _ & H)).
  apply bind_Ok in H as (r & Hr & H). apply bind_Ok in H as (r' & Hr' & H).
  inversion H; subst.
  assert (Hsqrt : not_negative r).
  { unfold math_sqrt in Hr. destruct (_ && _); inversion Hr; subst.
    apply float_sqrt_not_negative. }
  pose proof (asin_not_negative _ _ Hr' Hsqrt) as Hasin.
  apply float_mul_not_negative; [reflexivity|].
  apply float_mul_not_negative; [reflexivity | exact Hasin].
Qed.
End Haversine.

Lemma computed_symmetric {M : PyMath} {facts : CLibraryFacts M} df i j d t :
  computed df i j = Ok (d, t) -> computed df j i = Ok (d, t).
Proof.
  unfold computed. intros H.
  apply bind_Ok in H as (lat_i & Hlati & H). apply bind_Ok in H as (lon_i & Hloni & H).
  apply bind_Ok in H as (lat_j & Hlatj & H). apply bind_Ok in H as (lon_j & Hlonj & H).
  apply bind_Ok in H as (d' & Hd & H).
  rewrite Hlatj, Hlonj, Hlati, Hloni. cbn [bind].
  rewrite (haversine_symmetric _ _ _ _ _ Hd). exact H.
Qed.

Lemma computed_not_negative {M : PyMath} {facts : CLibraryFacts M} df i j d t :
  computed df i j = Ok (d, t) ->
  (0 <=? d)%float = true /\ round (d * 2)%float = Ok t /\ (0 <= t)%Z.
Proof.
  unfold computed. intros H.
  do 4 (apply bind_Ok in H as (? & _ & H)).
  apply bind_Ok in H as (d' & Hd & H). apply bind_Ok in H as (t' & Ht & H).
  inversion H; subst.
  pose proof (haversine_not_negative _ _ _ _ _ Hd) as Hnn.
  split; [|split; [exact Ht|]].
  - apply not_negative_leb; [exact Hnn|]. intros Hnan.
    apply (round_Ok_not_nan _ _ Ht). now apply float_mul_nan_l.
  - eapply round_not_negative; [|exact Ht].
    apply float_mul_not_negative; [exact Hnn | reflexivity].
Qed.

(** C10. Provided the C library's [sin] is odd, its square does not depend
    on the sign and its [asin] maps numbers that are not negative to numbers
    that are not negative: when the two loops of section 2 end without an
    exception, both matrices are symmetric and hold no negative entry, and
    each travel time is the rounding of twice the distance in the same
    cell (0 on the diagonal). *)
Theorem C10_matrices_symmetric_not_negative {M : PyMath} (facts : CLibraryFacts M)
    df dist_matrix time_matrix :
  build_matrices df = Ok (dist_matrix, time_matrix) ->
  forall i j, i < num_nodes df -> j < num_nodes df ->
    exists d t,
      cell dist_matrix i j = Some d /\ cell dist_matrix j i = Some d
      /\ at_least_zero d
      /\ cell time_matrix i j = Some t /\ cell time_matrix j i = Some t
      /\ (0 <= t)%Z
      /\ time_of_distance d t.
Proof.
  intros Hrun i j Hi Hj. destruct (Nat.eq_dec i j) as [<-|Hne].
  - unfold build_matrices in Hrun.
    destruct (loops_keep_diagonal df _ _ i _ _ Hrun) as [Hd Ht]. cbn [fst snd] in Hd, Ht.
    rewrite cell_replicate in Hd by assumption.
    rewrite cell_replicate in Ht by assumption.
    exists (Int 0), 0%Z. simpl. repeat split; auto; lia.
  - destruct (build_matrices_written df _ _ i j Hrun Hi Hj Hne) as (d & t & Hc & Hd & Ht).
    destruct (build_matrices_written df _ _ j i Hrun Hj Hi ltac:(congruence))
      as (d' & t' & Hc' & Hd' & Ht').
    apply computed_symmetric in Hc'. rewrite Hc in Hc'. inversion Hc'; subst d' t'.
    destruct (computed_not_negative df i j d t Hc) as (Hdn & Hround & Htn).
    cbn [fst snd] in Hd, Ht, Hd', Ht'.
    exists (Float d), t. simpl. repeat split; auto.
Qed.

Lemma C10_matrices_symmetric_not_negative_witness :
  exists d t,
    cell example_dist_matrix 1 2 = Some d /\ cell example_dist_matrix 2 1 = Some d
    /\ at_least_zero d
    /\ cell example_time_matrix 1 2 = Some t /\ cell example_time_matrix 2 1 = Some t
    /\ (0 <= t)%Z
    /\ time_of_distance d t.
Proof.
  apply (C10_matrices_symmetric_not_negative (M := small_angle_math)
           small_angle_math_facts example_df example_dist_matrix example_time_matrix).
  - vm_compute. reflexivity.
  - cbn. lia.
  - cbn. lia.
Defined.

(** * Further properties of the script *)

(** ** Section 4 on any assignment *)

Lemma route_loop_defined df s fuel i rn rt tl r :
  route_loop df s fuel i rn rt tl = Some r ->
  is_Some (route_from (manager (routing s)) (NextVar (solution s)) fuel i).
Proof.
  revert i rn rt tl. induction fuel as [|fuel IH]; intros i rn rt tl H;
    simpl in H |- *; [discriminate|].
  destruct (IsEnd (manager (routing s)) i); [eauto|].
  destruct (IH _ _ _ _ H) as [p Hp]. rewrite Hp. simpl. eauto.
Qed.

Lemma extract_vehicle_defined df v s s1 :
  extract_vehicle df v s = Some s1 ->
  is_Some (vehicle_route (manager (routing s)) (solution s) v)
  /\ routing s1 = routing s /\ solution s1 = solution s.
Proof.
  intros H.
  assert (Hdef : is_Some (vehicle_route (manager (routing s)) (solution s) v)).
  { unfold extract_vehicle in H.
    destruct (route_loop df s _ _ [] [] 0%Z) as [r|] eqn:Hloop; [|discriminate].
    exact (route_loop_defined _ _ _ _ _ _ _ _ Hloop). }
  split; [exact Hdef|]. destruct Hdef as [p Hp].
  rewrite (extract_vehicle_spec df s v p Hp) in H. inversion H; subst.
  destruct (2 <? length p); auto.
Qed.

Lemma for_each_extract_defined df vs : forall s s',
  for_each vs (extract_vehicle df) s = Some s' ->
  forall v, In v vs ->
    is_Some (vehicle_route (manager (routing s)) (solution s) v).
Proof.
  induction vs as [|w vs IH]; intros s s' H v Hv; [destruct Hv|].
  simpl in H. destruct (extract_vehicle df w s) as [s1|] eqn:Hw; [|discriminate].
  simpl in H. destruct (extract_vehicle_defined _ _ _ _ Hw) as (Hdef & Hr & Hs).
  destruct Hv as [<-|Hv]; [exact Hdef|].
  rewrite <- Hr, <- Hs. exact (IH _ _ H v Hv).
Qed.

(** When section 4 ends, on whatever model and assignment, every vehicle had
    a route, the model and the solution are as they were, and the three
    dictionaries hold one entry per route of more than two indices. *)
Lemma extract_routes_spec df r a s' :
  extract_routes df (empty_store r a) = Some s' ->
  (forall v, v < num_vehicles -> is_Some (vehicle_route (manager r) a v))
  /\ routing s' = r /\ solution s' = a
  /\ let kept := kept_routes (manager r) a (seq 0 num_vehicles) in
     vehicle_routes s' = map (fun e => (fst e, nodes_of (manager r) (snd e))) kept
     /\ vehicle_times s' = map (fun e => (fst e, times_of a (snd e))) kept
     /\ vehicle_loads s' = map (fun e => (fst e, load_of df (manager r) (snd e))) kept.
Proof.
  intros Hrun. unfold extract_routes in Hrun.
  assert (Hdef : forall v, v < num_vehicles -> is_Some (vehicle_route (manager r) a v)).
  { intros v Hv.
    apply (for_each_extract_defined df _ _ _ Hrun v). apply in_seq. lia. }
  split; [exact Hdef|].
  destruct (extract_loop_spec df num_vehicles 0 (empty_store r a))
    as (s'' & Hrun' & Hr & Hs & Hrest).
  - intros v Hv. apply Hdef. lia.
  - constructor.
  - constructor.
  - constructor.
  - rewrite Hrun in Hrun'. inversion Hrun'; subst s''.
    split; [exact Hr|]. split; [exact Hs|]. exact Hrest.
Qed.

Lemma kept_routes_keys m a vs :
  map fst (kept_routes m a vs) = List.filter (long_route m a) vs.
Proof.
  induction vs as [|v vs IH]; [reflexivity|].
  cbn [List.filter]. unfold long_route at 1.
  destruct (vehicle_route m a v) as [p|] eqn:Hp.
  - rewrite (kept_routes_cons _ _ _ _ _ Hp).
    destruct (2 <? length p); simpl; now rewrite IH.
  - rewrite <- IH. unfold kept_routes. simpl. rewrite Hp. reflexivity.
Qed.

Lemma map_fst_entries {A} (f : list nat -> A) (kept : list (nat * list nat)) :
  map fst (map (fun e => (fst e, f (snd e))) kept) = map fst kept.
Proof. induction kept as [|[v p] kept IH]; simpl; [reflexivity | now rewrite IH]. Qed.

Lemma IndexToNode_IsEnd df e :
  IsEnd (script_manager df) e = true -> IndexToNode (script_manager df) e = depot_index.
Proof.
  unfold IsEnd, IndexToNode, Size. cbn [mgr_nodes mgr_vehicles mgr_depot script_manager].
  unfold num_vehicles. intros H. apply Nat.leb_le in H.
  destruct (Nat.ltb_spec e (num_nodes df)); [lia | reflexivity].
Qed.

Lemma removelast_map {A B} (f : A -> B) (l : list A) :
  removelast (map f l) = map f (removelast l).
Proof.
  induction l as [|x [|y l] IH]; [reflexivity | reflexivity|].
  change (f x :: removelast (map f (y :: l)) = f x :: map f (removelast (y :: l))).
  now rewrite IH.
Qed.

(** X1. Whatever assignment the search returned, when section 4 ends its
    output is well formed: the three dictionaries have the same keys, the
    vehicles whose route has more than two indices, in ascending order; every
    recorded route has more than two nodes and starts and ends at the depot;
    its list of times has the same length; and its load is the sum of the
    demands of its nodes, the final depot left out. *)
Theorem X1_extraction_output_well_formed df time_matrix a s' :
  extract_routes df (empty_store (script_routing df time_matrix) a) = Some s' ->
  let m := script_manager df in
  map fst (vehicle_routes s') = List.filter (long_route m a) (seq 0 num_vehicles)
  /\ map fst (vehicle_times s') = map fst (vehicle_routes s')
  /\ map fst (vehicle_loads s') = map fst (vehicle_routes s')
  /\ forall v route_nodes,
       dict_get v (vehicle_routes s') = Some route_nodes ->
       2 < length route_nodes
       /\ head route_nodes = Some depot_index
       /\ last route_nodes = Some depot_index
       /\ exists route_times total_load,
            dict_get v (vehicle_times s') = Some route_times
            /\ length route_times = length route_nodes
            /\ dict_get v (vehicle_loads s') = Some total_load
            /\ total_load
               = Zsum (map (fun node => default 0%Z (demands df !! node))
                           (removelast route_nodes)).
Proof.
  intros Hrun m. destruct (script_routing_spec df time_matrix) as [Hm _].
  destruct (extract_routes_spec _ _ _ _ Hrun) as (_ & _ & _ & Hroutes & Htimes & Hloads).
  rewrite Hm in Hroutes, Htimes, Hloads. fold m in Hroutes, Htimes, Hloads.
  rewrite Hroutes, Htimes, Hloads, !map_fst_entries.
  split; [apply kept_routes_keys|]. split; [reflexivity|]. split; [reflexivity|].
  intros v route_nodes Hget.
  apply dict_get_kept in Hget as (p & Hin & ->).
  assert (Hfun : forall y, In (v, y) (kept_routes m a (seq 0 num_vehicles)) -> y = p).
  { intros y Hy. exact (kept_routes_functional _ _ _ _ _ _ Hy Hin). }
  pose proof (kept_routes_In _ _ _ _ _ Hin) as (_ & Hp & Hlen).
  destruct (route_from_inv _ _ _ _ _ Hp) as (q & e & -> & He & _ & Hhd).
  unfold nodes_of. rewrite length_map. split; [exact Hlen|]. split.
  { destruct (q ++ [e]) as [|i p']; [discriminate|]. simpl in Hhd |- *.
    inversion Hhd. unfold m. now rewrite IndexToNode_Start. }
  split.
  { rewrite map_app. simpl. rewrite last_snoc. unfold m. now rewrite IndexToNode_IsEnd. }
  exists (times_of a (q ++ [e])), (load_of df m (q ++ [e])).
  split; [exact (dict_get_map_Some (times_of a) _ _ _ Hin Hfun)|].
  split; [unfold times_of; now rewrite !length_map|].
  split; [exact (dict_get_map_Some (load_of df m) _ _ _ Hin Hfun)|].
  unfold load_of. rewrite removelast_map, map_map. reflexivity.
Qed.

Lemma X1_extraction_output_well_formed_witness :
  let m := script_manager example_df in
  map fst (vehicle_routes example_store)
  = List.filter (long_route m example_solution) (seq 0 num_vehicles)
  /\ map fst (vehicle_times example_store) = map fst (vehicle_routes example_store)
  /\ map fst (vehicle_loads example_store) = map fst (vehicle_routes example_store)
  /\ forall v route_nodes,
       dict_get v (vehicle_routes example_store) = Some route_nodes ->
       2 < length route_nodes
       /\ head route_nodes = Some depot_index
       /\ last route_nodes = Some depot_index
       /\ exists route_times total_load,
            dict_get v (vehicle_times example_store) = Some route_times
            /\ length route_times = length route_nodes
            /\ dict_get v (vehicle_loads example_store) = Some total_load
            /\ total_load
               = Zsum (map (fun node => default 0%Z (demands example_df !! node))
                           (removelast route_nodes)).
Proof.
  apply (X1_extraction_output_well_formed example_df example_time_matrix
           example_solution example_store).
  vm_compute. reflexivity.
Defined.

(** X2. The loops of section 4 end exactly when, from the start of each of
    the three vehicles, following the successors reaches an end index: a
    chain that comes back on itself is the only way for them not to end. *)
Theorem X2_extraction_ends_iff df r a :
  0 < mgr_vehicles (manager r) ->
  (exists s', extract_routes df (empty_store r a) = Some s')
  <-> (forall v, v < num_vehicles ->
         exists fuel p,
           route_from (manager r) (NextVar a) fuel (Start (manager r) v) = Some p).
Proof.
  intros Hv. split.
  - intros [s' Hrun] v Hlt.
    destruct (extract_routes_spec _ _ _ _ Hrun) as (Hdef & _).
    destruct (Hdef v Hlt) as [p Hp]. unfold vehicle_route in Hp. eauto.
  - intros Hends.
    destruct (extract_loop_spec df num_vehicles 0 (empty_store r a))
      as (s' & Hrun & _); try constructor.
    + intros v Hlt. destruct (Hends v ltac:(lia)) as (fuel & p & Hp).
      exists p. exact (route_from_enough_fuel _ _ _ _ _ Hv Hp).
    + exists s'. exact Hrun.
Qed.

Lemma X2_extraction_ends_iff_witness :
  (exists s',
     extract_routes example_df
       (empty_store (script_routing example_df example_time_matrix) example_solution)
     = Some s')
  <-> (forall v, v < num_vehicles ->
         exists fuel p,
           route_from (manager (script_routing example_df example_time_matrix))
             (NextVar example_solution) fuel
             (Start (manager (script_routing example_df example_time_matrix)) v)
           = Some p).
Proof.
  apply (X2_extraction_ends_iff example_df
           (script_routing example_df example_time_matrix) example_solution).
  vm_compute. lia.
Defined.

(** ** The report and the colours *)

Lemma flat_map_ext_In {A B} (f g : A -> list B) (l : list A) :
  (forall x, In x l -> f x = g x) -> flat_map f l = flat_map g l.
Proof.
  induction l as [|x l IH]; intros H; [reflexivity|]. simpl.
  rewrite (H x) by now left. rewrite IH; [reflexivity|].
  intros y Hy. apply H. now right.
Qed.

Lemma flat_map_map {A B C} (f : B -> list C) (g : A -> B) (l : list A) :
  flat_map f (map g l) = flat_map (fun x => f (g x)) l.
Proof. induction l as [|x l IH]; simpl; [reflexivity | now rewrite IH]. Qed.

Lemma zip_map_map {A B C} (f : A -> B) (g : A -> C) (l : list A) :
  zip (map f l) (map g l) = map (fun x => (f x, g x)) l.
Proof. induction l as [|x l IH]; simpl; [reflexivity | now rewrite IH]. Qed.

(** X3. When section 4 ends, the report is, for each recorded vehicle in
    ascending order: a header with that vehicle's number and load, one line
    for every index of its route with the city of the node and the Time cumul
    there, and an empty line.  The [zip] drops no stop and each dictionary
    lookup finds the entry of the vehicle being printed. *)
Theorem X3_report_lines df r a s' :
  extract_routes df (empty_store r a) = Some s' ->
  print_routes df s'
  = flat_map (fun e => report_of df (manager r) a (fst e) (snd e))
             (kept_routes (manager r) a (seq 0 num_vehicles)).
Proof.
  intros Hrun.
  destruct (extract_routes_spec _ _ _ _ Hrun) as (_ & _ & _ & Hroutes & Htimes & Hloads).
  unfold print_routes. rewrite Hroutes, flat_map_map.
  apply flat_map_ext_In. intros [v p] Hin. cbn [fst snd].
  assert (Hfun : forall y, In (v, y) (kept_routes (manager r) a (seq 0 num_vehicles)) ->
                           y = p).
  { intros y Hy. exact (kept_routes_functional _ _ _ _ _ _ Hy Hin). }
  unfold print_route, report_of.
  rewrite Htimes, Hloads.
  rewrite (dict_get_map_Some (times_of a) _ _ _ Hin Hfun).
  rewrite (dict_get_map_Some (load_of df (manager r)) _ _ _ Hin Hfun).
  cbn [default]. unfold id, nodes_of, times_of.
  rewrite (map_map (IndexToNode (manager r))), zip_map_map, map_map. reflexivity.
Qed.

Lemma X3_report_lines_witness :
  print_routes example_df example_store
  = flat_map (fun e => report_of example_df
                         (manager (script_routing example_df example_time_matrix))
                         example_solution (fst e) (snd e))
             (kept_routes (manager (script_routing example_df example_time_matrix))
                example_solution (seq 0 num_vehicles)).
Proof.
  apply (X3_report_lines example_df (script_routing example_df example_time_matrix)
           example_solution example_store).
  vm_compute. reflexivity.
Defined.

Example example_report :
  print_routes example_df example_store
  = [ newline +:+ "Vehicle 0 route (load=12):";
      "  Depot at t=0"; "  Kallio at t=16"; "  Espoo at t=50"; "  Depot at t=85";
      "" ].
Proof. vm_compute. reflexivity. Qed.

Lemma route_colors_first (routes : list (nat * list nat)) :
  length routes <= length colors ->
  route_colors routes = zip_with (fun e c => (fst e, Ok c)) routes colors.
Proof.
  intros Hlen.
  destruct routes as [|[v0 n0] [|[v1 n1] [|[v2 n2] [|[v3 n3] [|[v4 n4] [|e routes]]]]]];
    try reflexivity.
  simpl in Hlen. lia.
Qed.

Lemma kept_routes_length m a vs : length (kept_routes m a vs) <= length vs.
Proof.
  rewrite <- (length_map fst), kept_routes_keys. apply filter_length_le.
Qed.

(** X4. When section 4 ends there are at most three routes to plot, fewer
    than colours: the routes get the first colours of the list in order, the
    lookup [colors[idx % len(colors)]] never wraps around, and no two routes
    share a colour. *)
Theorem X4_route_colours_distinct df r a s' :
  extract_routes df (empty_store r a) = Some s' ->
  length (vehicle_routes s') <= num_vehicles
  /\ route_colors (vehicle_routes s')
     = zip_with (fun e c => (fst e, Ok c)) (vehicle_routes s') colors
  /\ NoDup (map snd (route_colors (vehicle_routes s'))).
Proof.
  intros Hrun.
  destruct (extract_routes_spec _ _ _ _ Hrun) as (_ & _ & _ & Hroutes & _).
  assert (Hlen : length (vehicle_routes s') <= num_vehicles).
  { rewrite Hroutes, length_map.
    etransitivity; [apply kept_routes_length|]. now rewrite length_seq. }
  split; [exact Hlen|].
  assert (Hcol : route_colors (vehicle_routes s')
                 = zip_with (fun e c => (fst e, Ok c)) (vehicle_routes s') colors).
  { apply route_colors_first. unfold num_vehicles in Hlen. simpl. lia. }
  split; [exact Hcol|]. rewrite Hcol.
  unfold num_vehicles in Hlen.
  destruct (vehicle_routes s') as [|e0 [|e1 [|e2 [|e3 l]]]]; simpl in Hlen |- *;
    [| | | | lia];
    repeat (apply NoDup_cons; split;
            [intros Hin;
             repeat (apply elem_of_cons in Hin as [Hin|Hin]; [discriminate Hin|]);
             now apply elem_of_nil in Hin|]);
    apply NoDup_nil_2.
Qed.

Lemma X4_route_colours_distinct_witness :
  length (vehicle_routes example_store) <= num_vehicles
  /\ route_colors (vehicle_routes example_store)
     = zip_with (fun e c => (fst e, Ok c)) (vehicle_routes example_store) colors
  /\ NoDup (map snd (route_colors (vehicle_routes example_store))).
Proof.
  apply (X4_route_colours_distinct example_df
           (script_routing example_df example_time_matrix) example_solution
           example_store).
  vm_compute. reflexivity.
Defined.

(** ** The ranges the accepted windows leave *)

(** X5. When lines 54-100 end without an exception on a table with a depot
    row, the model they leave has, for the Time cumul variable of every
    node's own index, the depot's included, the node's window cut to
    [0 .. max_route_duration] as its range, and that range holds a value; the
    depot's own index is the start of vehicle 0 only.  The starts of
    vehicles 1 and 2 and the ends of all vehicles keep the whole range
    [0 .. max_route_duration]: the depot's window in the table does not bind
    them. *)
Theorem X5_time_ranges_of_the_model df time_matrix routing :
  num_nodes df <> 0 ->
  declare_routing df time_matrix = Ok routing ->
  let m := script_manager df in
  let range := CumulVar_range routing "Time" in
  (forall node row, df !! node = Some row ->
     range (NodeToIndex m node)
     = Some (Z.max 0 (tw_start row), Z.min max_route_duration (tw_end row))
     /\ (Z.max 0 (tw_start row) <= Z.min max_route_duration (tw_end row))%Z)
  /\ Start m 0 = NodeToIndex m depot_index
  /\ (forall v, 0 < v < num_vehicles -> range (Start m v) = Some (0%Z, max_route_duration))
  /\ (forall v, v < num_vehicles -> range (End m v) = Some (0%Z, max_route_duration)).
Proof.
  intros Hn Hmodel m range.
  destruct (declare_routing_Ok df time_matrix routing Hmodel) as [Hr Hrows].
  destruct (time_ranges_exact df Hn) as [Hnode Hother].
  unfold range. rewrite Hr. clear range.
  split; [|split; [reflexivity|split]].
  - intros node row Hrow. rewrite CumulVar_range_Time. split.
    + exact (Hnode node row Hrow).
    + destruct (Hrows node row Hrow) as (_ & _ & _ & Hacc).
      unfold window_accepted in Hacc. now apply Z.leb_le in Hacc.
  - intros v Hv. rewrite CumulVar_range_Time. apply Hother.
    unfold m, Start, GetNumberOfIndices, Size.
    cbn [mgr_nodes mgr_vehicles mgr_depot script_manager]. unfold num_vehicles in *.
    destruct (Nat.eqb_spec v 0); lia.
  - intros v Hv. rewrite CumulVar_range_Time. apply Hother.
    unfold m, End, GetNumberOfIndices, Size.
    cbn [mgr_nodes mgr_vehicles mgr_depot script_manager]. unfold num_vehicles in *. lia.
Qed.

Lemma X5_time_ranges_of_the_model_witness :
  let m := script_manager example_df in
  let range := CumulVar_range (script_routing example_df example_time_matrix) "Time" in
  (forall node row, example_df !! node = Some row ->
     range (NodeToIndex m node)
     = Some (Z.max 0 (tw_start row), Z.min max_route_duration (tw_end row))
     /\ (Z.max 0 (tw_start row) <= Z.min max_route_duration (tw_end row))%Z)
  /\ Start m 0 = NodeToIndex m depot_index
  /\ (forall v, 0 < v < num_vehicles -> range (Start m v) = Some (0%Z, max_route_duration))
  /\ (forall v, v < num_vehicles -> range (End m v) = Some (0%Z, max_route_duration)).
Proof.
  apply (X5_time_ranges_of_the_model example_df example_time_matrix
           (script_routing example_df example_time_matrix)).
  - vm_compute. discriminate.
  - vm_compute. reflexivity.
Defined.

(** ** What a feasible assignment says of consecutive stops *)

Lemma arcs_lookup (p : list nat) : forall k i j,
  p !! k = Some i -> p !! S k = Some j -> In (i, j) (arcs p).
Proof.
  induction p as [|x p IH]; intros k i j Hi Hj; [discriminate|].
  destruct p as [|y p]; [discriminate|].
  destruct k as [|k].
  - inversion Hi; inversion Hj; subst. now left.
  - right. exact (IH k i j Hi Hj).
Qed.

Lemma arcs_prefix (P : nat * nat -> Prop) (l1 : list nat) : forall l2,
  Forall P (arcs (l1 ++ l2)) -> Forall P (arcs l1).
Proof.
  induction l1 as [|x l1 IH]; intros l2 H; [constructor|].
  destruct l1 as [|y l1]; [constructor|].
  change (Forall P ((x, y) :: arcs ((y :: l1) ++ l2))) in H.
  inversion H; subst. constructor; [assumption|]. now apply (IH l2).
Qed.

(** The recorded lists of a vehicle are those of its route in the
    assignment. *)
Lemma recorded_route df time_matrix a s' v route_nodes :
  IsFeasible (script_routing df time_matrix) a = true ->
  extract_routes df (empty_store (script_routing df time_matrix) a) = Some s' ->
  dict_get v (vehicle_routes s') = Some route_nodes ->
  let m := script_manager df in
  exists q,
    v < num_vehicles
    /\ vehicle_route m a v = Some (q ++ [End m v])
    /\ 2 < length (q ++ [End m v])
    /\ route_nodes = nodes_of m (q ++ [End m v])
    /\ dict_get v (vehicle_times s') = Some (times_of a (q ++ [End m v]))
    /\ dict_get v (vehicle_loads s') = Some (load_of df m (q ++ [End m v])).
Proof.
  intros Hf Hrun Hn m. subst m.
  destruct (extract_routes_feasible df time_matrix a Hf)
    as (s1 & Hrun1 & _ & _ & Hroutes & Htimes & Hloads).
  rewrite Hrun in Hrun1. inversion Hrun1; subst s1. clear Hrun1.
  rewrite Hroutes in Hn. apply dict_get_kept in Hn as (p & Hin & ->).
  pose proof (kept_routes_In _ _ _ _ _ Hin) as (Hv & Hp & Hlen). apply in_seq in Hv.
  destruct (script_feasible_route df time_matrix a v Hf ltac:(lia)) as (q & Hq & _).
  rewrite Hp in Hq. inversion Hq; subst p.
  exists q. repeat split; try assumption; try lia.
  - rewrite Htimes. apply (dict_get_map_Some (times_of a)); [exact Hin|].
    intros y Hy. exact (kept_routes_functional _ _ _ _ _ _ Hy Hin).
  - rewrite Hloads. apply (dict_get_map_Some (load_of df (script_manager df))); [exact Hin|].
    intros y Hy. exact (kept_routes_functional _ _ _ _ _ _ Hy Hin).
Qed.

(** One step along a feasible route, in the Time dimension. *)
Lemma time_step df time_matrix a v p k i j :
  IsFeasible (script_routing df time_matrix) a = true ->
  v < num_vehicles ->
  vehicle_route (script_manager df) a v = Some p ->
  p !! k = Some i -> p !! S k = Some j ->
  (0 <= CumulValue a "Time" j - CumulValue a "Time" i
        - time_callback df time_matrix i j <= 30)%Z.
Proof.
  intros Hf Hv Hp Hi Hj.
  destruct (script_feasible_route df time_matrix a v Hf Hv) as (q & Hq & _ & _ & _ & Htime).
  rewrite Hp in Hq. inversion Hq; subst p.
  apply dimension_holds_inv in Htime as (_ & Harcs & _).
  rewrite List.Forall_forall in Harcs.
  exact (Harcs (i, j) (arcs_lookup _ _ _ _ Hi Hj)).
Qed.

(** One step along a feasible route, in the Capacity dimension. *)
Lemma capacity_step df time_matrix a v p k i j :
  IsFeasible (script_routing df time_matrix) a = true ->
  v < num_vehicles ->
  vehicle_route (script_manager df) a v = Some p ->
  p !! k = Some i -> p !! S k = Some j ->
  CumulValue a "Capacity" j = (CumulValue a "Capacity" i + demand_callback df i)%Z.
Proof.
  intros Hf Hv Hp Hi Hj.
  destruct (script_feasible_route df time_matrix a v Hf Hv) as (q & Hq & _ & _ & Hcap & _).
  rewrite Hp in Hq. inversion Hq; subst p.
  apply dimension_holds_inv in Hcap as (_ & Harcs & _).
  rewrite List.Forall_forall in Harcs.
  pose proof (Harcs (i, j) (arcs_lookup _ _ _ _ Hi Hj)) as H.
  cbn [dim_transit dim_slack_max capacity_dimension] in H.
  unfold RegisterUnaryTransitCallback in H. lia.
Qed.

Lemma capacity_cumul_bounds df time_matrix a v p i :
  IsFeasible (script_routing df time_matrix) a = true ->
  v < num_vehicles ->
  vehicle_route (script_manager df) a v = Some p ->
  In i p ->
  (0 <= CumulValue a "Capacity" i <= 15)%Z.
Proof.
  intros Hf Hv Hp Hi.
  destruct (script_feasible_route df time_matrix a v Hf Hv) as (q & Hq & _ & _ & Hcap & _).
  rewrite Hp in Hq. inversion Hq; subst p.
  apply dimension_holds_inv in Hcap as (Hin & _ & _).
  destruct (Hin i Hi) as [_ Hc].
  apply in_range_inv in Hc as (l & u & Hlu & Hle).
  cbn [dim_capacities capacity_dimension] in Hlu.
  unfold num_vehicles, vehicle_capacities in *.
  destruct v as [|[|[|v]]]; [| | |lia]; inversion Hlu; subst; lia.
Qed.

(** X6. Along every recorded route of a feasible assignment, the time
    recorded at a stop is the time recorded at the stop before it plus the
    travel time between the two nodes in the time matrix plus a wait of at
    least 0 and at most 30. *)
Theorem X6_recorded_times_follow_travel_times df time_matrix a :
  IsFeasible (script_routing df time_matrix) a = true ->
  exists s',
    extract_routes df (empty_store (script_routing df time_matrix) a) = Some s'
    /\ forall v route_nodes route_times k n n' t t',
         dict_get v (vehicle_routes s') = Some route_nodes ->
         dict_get v (vehicle_times s') = Some route_times ->
         route_nodes !! k = Some n -> route_nodes !! S k = Some n' ->
         route_times !! k = Some t -> route_times !! S k = Some t' ->
         let travel := default 0%Z (cell time_matrix n n') in
         (travel <= t' - t <= travel + 30)%Z.
Proof.
  intros Hf.
  destruct (extract_routes_feasible df time_matrix a Hf) as (s' & Hrun & _).
  exists s'. split; [exact Hrun|].
  intros v route_nodes route_times k n n' t t' Hn Ht Hk Hk' Hkt Hkt' travel.
  destruct (recorded_route df time_matrix a s' v route_nodes Hf Hrun Hn)
    as (q & Hv & Hp & _ & -> & Ht' & _).
  rewrite Ht in Ht'. inversion Ht'; subst route_times. clear Ht'.
  unfold nodes_of in Hk, Hk'. unfold times_of in Hkt, Hkt'.
  rewrite lookup_map in Hk. rewrite lookup_map in Hk'.
  rewrite lookup_map in Hkt. rewrite lookup_map in Hkt'.
  destruct ((q ++ [End (script_manager df) v]) !! k) as [i|] eqn:Hi; [|discriminate].
  destruct ((q ++ [End (script_manager df) v]) !! S k) as [j|] eqn:Hj; [|discriminate].
  cbn [fmap option_fmap option_map] in Hk, Hk', Hkt, Hkt'.
  inversion Hk; inversion Hk'; inversion Hkt; inversion Hkt'; subst.
  pose proof (time_step df time_matrix a v _ k i j Hf Hv Hp Hi Hj) as H.
  unfold travel, cell. unfold time_callback in H. lia.
Qed.

Lemma X6_recorded_times_follow_travel_times_witness :
  exists s',
    extract_routes example_df
      (empty_store (script_routing example_df example_time_matrix) example_solution)
    = Some s'
    /\ forall v route_nodes route_times k n n' t t',
         dict_get v (vehicle_routes s') = Some route_nodes ->
         dict_get v (vehicle_times s') = Some route_times ->
         route_nodes !! k = Some n -> route_nodes !! S k = Some n' ->
         route_times !! k = Some t -> route_times !! S k = Some t' ->
         let travel := default 0%Z (cell example_time_matrix n n') in
         (travel <= t' - t <= travel + 30)%Z.
Proof.
  apply (X6_recorded_times_follow_travel_times example_df example_time_matrix
           example_solution).
  vm_compute. reflexivity.
Defined.

(** ** The load along a route *)

Lemma Zsum_app (l1 l2 : list Z) : Zsum (l1 ++ l2) = (Zsum l1 + Zsum l2)%Z.
Proof. induction l1 as [|x l1 IH]; simpl; [reflexivity | rewrite IH; lia]. Qed.

Lemma route_start df time_matrix a v p :
  IsFeasible (script_routing df time_matrix) a = true ->
  v < num_vehicles ->
  vehicle_route (script_manager df) a v = Some p ->
  p !! 0 = Some (Start (script_manager df) v)
  /\ CumulValue a "Capacity" (Start (script_manager df) v) = 0%Z
  /\ exists q, p = q ++ [End (script_manager df) v]
               /\ Forall (fun j => IsEnd (script_manager df) j = false) q.
Proof.
  intros Hf Hv Hp.
  destruct (script_feasible_route df time_matrix a v Hf Hv)
    as (q & Hq & Hhd & Hne & Hcap & _).
  rewrite Hp in Hq. inversion Hq; subst p.
  apply dimension_holds_inv in Hcap as (_ & _ & Hfix).
  split; [|split; [exact (Hfix eq_refl) | exists q; split; [reflexivity | exact Hne]]].
  destruct q as [|i q]; simpl in Hhd |- *; now rewrite Hhd.
Qed.

(** The Capacity cumul at a stop is the sum of the demands at the stops
    before it. *)
Lemma running_load df time_matrix a v p :
  IsFeasible (script_routing df time_matrix) a = true ->
  v < num_vehicles ->
  vehicle_route (script_manager df) a v = Some p ->
  forall k i, p !! k = Some i ->
    CumulValue a "Capacity" i = Zsum (map (demand_callback df) (take k p)).
Proof.
  intros Hf Hv Hp.
  destruct (route_start df time_matrix a v p Hf Hv Hp) as (H0 & Hfix & _).
  induction k as [|k IH]; intros i Hi.
  - rewrite H0 in Hi. inversion Hi; subst i. rewrite Hfix. reflexivity.
  - destruct (p !! k) as [i'|] eqn:Hi'.
    + rewrite (capacity_step df time_matrix a v p k i' i Hf Hv Hp Hi' Hi).
      rewrite (take_S_r p k i' Hi'), map_app, Zsum_app, (IH i' eq_refl).
      simpl. lia.
    + apply lookup_ge_None in Hi'. apply lookup_lt_Some in Hi. lia.
Qed.

(** X7. On every route of a feasible assignment, the Capacity cumul at each
    stop is the sum of the demands of the nodes visited before it, and it
    lies between 0 and 15; so along every recorded route the demands summed
    up to any stop never leave [0 .. 15], not only their total. *)
Theorem X7_running_load_within_capacity df time_matrix a :
  IsFeasible (script_routing df time_matrix) a = true ->
  let m := script_manager df in
  (forall v, v < num_vehicles ->
     exists p,
       vehicle_route m a v = Some p
       /\ forall k i, p !! k = Some i ->
            CumulValue a "Capacity" i
            = Zsum (map (fun j => default 0%Z (demands df !! IndexToNode m j)) (take k p))
            /\ (0 <= CumulValue a "Capacity" i <= 15)%Z)
  /\ exists s',
       extract_routes df (empty_store (script_routing df time_matrix) a) = Some s'
       /\ forall v route_nodes k,
            dict_get v (vehicle_routes s') = Some route_nodes ->
            k < length route_nodes ->
            (0 <= Zsum (map (fun node => default 0%Z (demands df !! node))
                            (take k route_nodes)) <= 15)%Z.
Proof.
  intros Hf m. split.
  - intros v Hv.
    destruct (script_feasible_route df time_matrix a v Hf Hv) as (q & Hp & _).
    exists (q ++ [End m v]). split; [exact Hp|]. intros k i Hi. split.
    + exact (running_load df time_matrix a v _ Hf Hv Hp k i Hi).
    + apply (capacity_cumul_bounds df time_matrix a v _ i Hf Hv Hp).
      apply list_elem_of_In. eapply list_elem_of_lookup_2. exact Hi.
  - destruct (extract_routes_feasible df time_matrix a Hf) as (s' & Hrun & _).
    exists s'. split; [exact Hrun|].
    intros v route_nodes k Hn Hk.
    destruct (recorded_route df time_matrix a s' v route_nodes Hf Hrun Hn)
      as (q & Hv & Hp & _ & -> & _).
    unfold nodes_of in Hk |- *. rewrite length_map in Hk.
    destruct (lookup_lt_is_Some_2 _ _ Hk) as [i Hi].
    rewrite firstn_map, map_map.
    pose proof (running_load df time_matrix a v _ Hf Hv Hp k i Hi) as Hrunning.
    unfold demand_callback in Hrunning. rewrite <- Hrunning.
    apply (capacity_cumul_bounds df time_matrix a v _ i Hf Hv Hp).
    apply list_elem_of_In. eapply list_elem_of_lookup_2. exact Hi.
Qed.

Lemma X7_running_load_within_capacity_witness :
  let m := script_manager example_df in
  (forall v, v < num_vehicles ->
     exists p,
       vehicle_route m example_solution v = Some p
       /\ forall k i, p !! k = Some i ->
            CumulValue example_solution "Capacity" i
            = Zsum (map (fun j => default 0%Z (demands example_df !! IndexToNode m j))
                        (take k p))
            /\ (0 <= CumulValue example_solution "Capacity" i <= 15)%Z)
  /\ exists s',
       extract_routes example_df
         (empty_store (script_routing example_df example_time_matrix) example_solution)
       = Some s'
       /\ forall v route_nodes k,
            dict_get v (vehicle_routes s') = Some route_nodes ->
            k < length route_nodes ->
            (0 <= Zsum (map (fun node => default 0%Z (demands example_df !! node))
                            (take k route_nodes)) <= 15)%Z.
Proof.
  apply (X7_running_load_within_capacity example_df example_time_matrix example_solution).
  vm_compute. reflexivity.
Defined.

(** ** Tables that have a feasible assignment *)

(** Every index below the model's size lies on the route of some vehicle and
    has a successor there. *)
Lemma index_on_route df time_matrix a i :
  IsFeasible (script_routing df time_matrix) a = true ->
  i < Size (script_manager df) ->
  exists v p k j,
    v < num_vehicles
    /\ vehicle_route (script_manager df) a v = Some p
    /\ p !! k = Some i /\ p !! S k = Some j.
Proof.
  intros Hf Hi.
  destruct (script_routing_spec df time_matrix) as [Hm _].
  pose proof (feasible_once _ a i Hf) as Hc. rewrite Hm in Hc. specialize (Hc Hi).
  assert (Hin : In i (all_routes (script_manager df) a)).
  { apply (count_occ_In Nat.eq_dec). lia. }
  apply in_flat_map in Hin as (v & Hv & Hin). apply in_seq in Hv.
  cbn [mgr_vehicles script_manager] in Hv.
  destruct (script_feasible_route df time_matrix a v Hf ltac:(lia)) as (q & Hp & _).
  rewrite Hp in Hin. cbn [default] in Hin. unfold id in Hin.
  apply in_app_or in Hin as [Hq|[He|[]]].
  - apply list_elem_of_In, list_elem_of_lookup_1 in Hq as [k Hk].
    pose proof (lookup_lt_Some _ _ _ Hk) as Hlt.
    destruct (lookup_lt_is_Some_2 (q ++ [End (script_manager df) v]) (S k)) as [j Hj].
    { rewrite length_app. simpl. lia. }
    exists v, (q ++ [End (script_manager df) v]), k, j.
    split; [lia|]. split; [exact Hp|]. split; [|exact Hj].
    now apply lookup_app_l_Some.
  - unfold End in He. lia.
Qed.

(** X8. A table for which the model has a feasible assignment at all has
    every demand between -15 and 15, and a depot demand between 0 and 15: a
    customer asking for more than one vehicle holds leaves the search
    without a solution, whatever the other rows are. *)
Theorem X8_feasible_table_demands_bounded df time_matrix a :
  IsFeasible (script_routing df time_matrix) a = true ->
  (forall node row, df !! node = Some row -> (-15 <= demand row <= 15)%Z)
  /\ (forall row, df !! depot_index = Some row -> (0 <= demand row <= 15)%Z).
Proof.
  intros Hf.
  assert (Hstep : forall node row, df !! node = Some row ->
            exists v p k j, v < num_vehicles
              /\ vehicle_route (script_manager df) a v = Some p
              /\ p !! k = Some node /\ p !! S k = Some j
              /\ CumulValue a "Capacity" j
                 = (CumulValue a "Capacity" node + demand row)%Z).
  { intros node row Hrow.
    pose proof (lookup_lt_Some _ _ _ Hrow) as Hlt. rewrite <- num_nodes_length in Hlt.
    destruct (index_on_route df time_matrix a node Hf) as (v & p & k & j & Hv & Hp & Hk & Hj).
    { unfold Size. cbn [mgr_nodes mgr_vehicles script_manager]. unfold num_vehicles. lia. }
    exists v, p, k, j. repeat (split; [assumption|]).
    rewrite (capacity_step df time_matrix a v p k node j Hf Hv Hp Hk Hj).
    unfold demand_callback, IndexToNode. cbn [mgr_nodes mgr_depot script_manager].
    apply Nat.ltb_lt in Hlt. rewrite Hlt.
    unfold demands. rewrite lookup_map, Hrow. reflexivity. }
  assert (Hb : forall v p k i, v < num_vehicles ->
            vehicle_route (script_manager df) a v = Some p -> p !! k = Some i ->
            (0 <= CumulValue a "Capacity" i <= 15)%Z).
  { intros v p k i Hv Hp Hk.
    apply (capacity_cumul_bounds df time_matrix a v p i Hf Hv Hp).
    apply list_elem_of_In. eapply list_elem_of_lookup_2. exact Hk. }
  split.
  - intros node row Hrow.
    destruct (Hstep node row Hrow) as (v & p & k & j & Hv & Hp & Hk & Hj & Heq).
    pose proof (Hb v p k node Hv Hp Hk). pose proof (Hb v p (S k) j Hv Hp Hj). lia.
  - intros row Hrow.
    destruct (script_feasible_route df time_matrix a 0 Hf) as (q & Hp & _).
    { unfold num_vehicles. lia. }
    destruct (route_start df time_matrix a 0 _ Hf ltac:(unfold num_vehicles; lia) Hp)
      as (H0 & Hfix & _).
    destruct (Hstep depot_index row Hrow) as (v & p & k & j & Hv & Hp' & Hk & Hj & Heq).
    change (Start (script_manager df) 0) with depot_index in Hfix.
    pose proof (Hb v p (S k) j Hv Hp' Hj). lia.
Qed.

Lemma X8_feasible_table_demands_bounded_witness :
  (forall node row, example_df !! node = Some row -> (-15 <= demand row <= 15)%Z)
  /\ (forall row, example_df !! depot_index = Some row -> (0 <= demand row <= 15)%Z).
Proof.
  apply (X8_feasible_table_demands_bounded example_df example_time_matrix example_solution).
  vm_compute. reflexivity.
Defined.

(** ** The depot on a route *)

Lemma count_occ_flat_map_two {A} (f : A -> list nat) (vs : list A) v v' i :
  v <> v' -> In v vs -> In v' vs -> In i (f v) -> In i (f v') ->
  2 <= count_occ Nat.eq_dec (flat_map f vs) i.
Proof.
  intros Hne Hv Hv' Hi Hi'.
  assert (Hone : forall w ws, In w ws -> In i (f w) ->
            1 <= count_occ Nat.eq_dec (flat_map f ws) i).
  { intros w ws Hw Hiw.
    assert (Hin : In i (flat_map f ws)) by (apply in_flat_map; eauto).
    apply (count_occ_In Nat.eq_dec) in Hin. lia. }
  induction vs as [|x vs IH]; [destruct Hv|].
  cbn [flat_map]. rewrite count_occ_app.
  destruct Hv as [->|Hv], Hv' as [->|Hv'].
  - congruence.
  - apply (count_occ_In Nat.eq_dec) in Hi. pose proof (Hone v' vs Hv' Hi'). lia.
  - apply (count_occ_In Nat.eq_dec) in Hi'. pose proof (Hone v vs Hv Hi). lia.
  - pose proof (IH Hv Hv'). lia.
Qed.

(** An index below the model's size that stands for the depot is the start
    of a vehicle. *)
Lemma depot_index_is_start df i :
  i < Size (script_manager df) ->
  IndexToNode (script_manager df) i = depot_index ->
  exists v, v < num_vehicles /\ i = Start (script_manager df) v.
Proof.
  unfold Size, IndexToNode, Start, num_vehicles, depot_index.
  cbn [mgr_nodes mgr_vehicles mgr_depot script_manager]. unfold num_vehicles, depot_index.
  intros Hi Hn. destruct (Nat.ltb_spec i (num_nodes df)) as [Hlt|Hge].
  - exists 0. split; [lia|]. simpl. exact Hn.
  - destruct (Nat.eq_dec i (num_nodes df)) as [->|Hne].
    + exists 1. split; [lia|]. simpl. lia.
    + exists 2. split; [lia|]. simpl. lia.
Qed.

(** The stops of a route strictly between its start and its end are
    customers. *)
Lemma interior_is_customer df time_matrix a v p k i :
  IsFeasible (script_routing df time_matrix) a = true ->
  v < num_vehicles ->
  vehicle_route (script_manager df) a v = Some p ->
  0 < k -> S k < length p -> p !! k = Some i ->
  IndexToNode (script_manager df) i = i /\ i <> depot_index /\ i < num_nodes df.
Proof.
  intros Hf Hv Hp Hk Hlen Hi.
  destruct (route_start df time_matrix a v p Hf Hv Hp) as (H0 & _ & q & -> & Hne).
  assert (Hiq : q !! k = Some i).
  { rewrite lookup_app_l in Hi; [exact Hi|]. rewrite length_app in Hlen. simpl in Hlen. lia. }
  assert (Hsize : i < Size (script_manager df)).
  { rewrite List.Forall_forall in Hne.
    assert (Hin : In i q) by (apply list_elem_of_In; eapply list_elem_of_lookup_2; exact Hiq).
    specialize (Hne i Hin). unfold IsEnd in Hne. apply Nat.leb_gt in Hne. exact Hne. }
  assert (Hnd : IndexToNode (script_manager df) i <> depot_index).
  { intros Hdep.
    destruct (depot_index_is_start df i Hsize Hdep) as (v' & Hv' & ->).
    destruct (Nat.eq_dec v' v) as [->|Hvv].
    - pose proof (route_from_NoDup _ _ _ _ _ Hp) as Hnodup.
      pose proof (NoDup_lookup _ _ _ _ Hnodup H0 Hi). lia.
    - destruct (script_feasible_route df time_matrix a v' Hf Hv') as (q' & Hp' & _).
      destruct (route_start df time_matrix a v' _ Hf Hv' Hp') as (H0' & _).
      destruct (script_routing_spec df time_matrix) as [Hm _].
      pose proof (feasible_once _ a (Start (script_manager df) v') Hf) as Hc.
      rewrite Hm in Hc. specialize (Hc Hsize).
      pose proof (count_occ_flat_map_two
                    (fun v => default [] (vehicle_route (script_manager df) a v))
                    (seq 0 (mgr_vehicles (script_manager df))) v' v
                    (Start (script_manager df) v') Hvv) as Htwo.
      unfold all_routes in Hc. rewrite Hc in Htwo.
      enough (2 <= 1) by lia. apply Htwo.
      + apply in_seq. cbn [mgr_vehicles script_manager]. lia.
      + apply in_seq. cbn [mgr_vehicles script_manager]. lia.
      + rewrite Hp'. apply list_elem_of_In. eapply list_elem_of_lookup_2. exact H0'.
      + rewrite Hp. apply list_elem_of_In. eapply list_elem_of_lookup_2. exact Hi. }
  pose proof (IndexToNode_customer df i Hnd) as Heq.
  split; [exact Heq|]. split; [congruence|].
  unfold IndexToNode in Heq, Hnd. cbn [mgr_nodes mgr_depot script_manager] in Heq, Hnd.
  destruct (Nat.ltb_spec i (num_nodes df)); [assumption | congruence].
Qed.

(** X9. On every recorded route of a feasible assignment the depot stands at
    the two ends only: each stop in between is a customer row of the table,
    never the depot, so no vehicle returns to the depot in the middle of its
    route and none passes through the start of another vehicle. *)
Theorem X9_depot_only_at_route_ends df time_matrix a :
  IsFeasible (script_routing df time_matrix) a = true ->
  exists s',
    extract_routes df (empty_store (script_routing df time_matrix) a) = Some s'
    /\ forall v route_nodes k node,
         dict_get v (vehicle_routes s') = Some route_nodes ->
         0 < k -> S k < length route_nodes ->
         route_nodes !! k = Some node ->
         node <> depot_index /\ node < num_nodes df.
Proof.
  intros Hf.
  destruct (extract_routes_feasible df time_matrix a Hf) as (s' & Hrun & _).
  exists s'. split; [exact Hrun|].
  intros v route_nodes k node Hn Hk Hlen Hnode.
  destruct (recorded_route df time_matrix a s' v route_nodes Hf Hrun Hn)
    as (q & Hv & Hp & _ & -> & _).
  unfold nodes_of in Hlen, Hnode. rewrite length_map in Hlen. rewrite lookup_map in Hnode.
  destruct ((q ++ [End (script_manager df) v]) !! k) as [i|] eqn:Hi; [|discriminate].
  cbn [fmap option_fmap option_map] in Hnode. inversion Hnode; subst node.
  destruct (interior_is_customer df time_matrix a v _ k i Hf Hv Hp Hk Hlen Hi)
    as (Heq & Hne & Hlt).
  rewrite Heq. split; assumption.
Qed.

Lemma X9_depot_only_at_route_ends_witness :
  exists s',
    extract_routes example_df
      (empty_store (script_routing example_df example_time_matrix) example_solution)
    = Some s'
    /\ forall v route_nodes k node,
         dict_get v (vehicle_routes s') = Some route_nodes ->
         0 < k -> S k < length route_nodes ->
         route_nodes !! k = Some node ->
         node <> depot_index /\ node < num_nodes example_df.
Proof.
  apply (X9_depot_only_at_route_ends example_df example_time_matrix example_solution).
  vm_compute. reflexivity.
Defined.

(** ** The loads of the fleet *)

Lemma Zsum_cons (x : Z) (l : list Z) : Zsum (x :: l) = (x + Zsum l)%Z.
Proof. reflexivity. Qed.

Lemma Zsum_Permutation (l l' : list Z) : Permutation l l' -> Zsum l = Zsum l'.
Proof.
  induction 1 as [|x l l' _ IH|x y l|l l' l'' _ IH1 _ IH2]; simpl;
    [reflexivity | rewrite IH; reflexivity | lia | congruence].
Qed.

Lemma Zsum_flat_map {A B} (g : B -> Z) (f : A -> list B) (vs : list A) :
  Zsum (map g (flat_map f vs)) = Zsum (map (fun v => Zsum (map g (f v))) vs).
Proof.
  induction vs as [|v vs IH]; simpl; [reflexivity|].
  now rewrite map_app, Zsum_app, IH.
Qed.

Lemma map_lookup_seq {A} (d : A) (l : list A) :
  map (fun i => default d (l !! i)) (seq 0 (length l)) = l.
Proof.
  induction l as [|x l IH] using rev_ind; [reflexivity|].
  rewrite length_app, seq_app, map_app. cbn [length seq map plus].
  f_equal.
  - rewrite <- IH at 2. apply map_ext_in. intros i Hi. apply in_seq in Hi.
    rewrite lookup_app_l by lia. reflexivity.
  - rewrite lookup_app_r by lia. now rewrite Nat.sub_diag.
Qed.

(** The indices before the ends of the routes, counted. *)
Lemma count_occ_before_ends (m : RoutingIndexManager) (f : nat -> list nat) (vs : list nat) :
  (forall v, In v vs ->
     exists q e, f v = q ++ [e] /\ IsEnd m e = true
                 /\ Forall (fun j => IsEnd m j = false) q) ->
  forall i,
    count_occ Nat.eq_dec (flat_map (fun v => removelast (f v)) vs) i
    = if IsEnd m i then 0 else count_occ Nat.eq_dec (flat_map f vs) i.
Proof.
  induction vs as [|v vs IH]; intros Hall i.
  - simpl. now destruct (IsEnd m i).
  - cbn [flat_map]. rewrite !count_occ_app, IH by (intros; apply Hall; now right).
    destruct (Hall v (or_introl eq_refl)) as (q & e & -> & He & Hq).
    rewrite removelast_last, count_occ_app.
    destruct (IsEnd m i) eqn:Hi.
    + assert (Hnot : ~ In i q).
      { intros Hin. rewrite List.Forall_forall in Hq. specialize (Hq i Hin). congruence. }
      apply (count_occ_not_In Nat.eq_dec) in Hnot. lia.
    + assert (Hnot : ~ In i [e]) by (intros [->|[]]; congruence).
      apply (count_occ_not_In Nat.eq_dec) in Hnot. lia.
Qed.

Lemma count_occ_seq (n i : nat) :
  count_occ Nat.eq_dec (seq 0 n) i = if i <? n then 1 else 0.
Proof.
  destruct (Nat.ltb_spec i n) as [Hlt|Hge].
  - apply (proj1 (NoDup_count_occ' Nat.eq_dec (seq 0 n)) (List.seq_NoDup n 0)).
    apply in_seq. lia.
  - apply (count_occ_not_In Nat.eq_dec). rewrite in_seq. lia.
Qed.

(** On a feasible assignment the stops before the ends of the three routes
    are the indices below the model's size, each once. *)
Lemma routes_cover_indices df time_matrix a :
  IsFeasible (script_routing df time_matrix) a = true ->
  Permutation
    (flat_map (fun v => removelast (default [] (vehicle_route (script_manager df) a v)))
              (seq 0 num_vehicles))
    (seq 0 (Size (script_manager df))).
Proof.
  intros Hf. apply (Permutation_count_occ Nat.eq_dec). intros i.
  rewrite (count_occ_before_ends (script_manager df)).
  - rewrite count_occ_seq. unfold IsEnd.
    destruct (Nat.leb_spec (Size (script_manager df)) i) as [Hge|Hlt].
    + destruct (Nat.ltb_spec i (Size (script_manager df))); [lia | reflexivity].
    + destruct (Nat.ltb_spec i (Size (script_manager df))); [|lia].
      destruct (script_routing_spec df time_matrix) as [Hm _].
      pose proof (feasible_once _ a i Hf) as Hc. rewrite Hm in Hc.
      exact (Hc Hlt).
  - intros v Hv. apply in_seq in Hv.
    destruct (script_feasible_route df time_matrix a v Hf ltac:(lia))
      as (q & Hp & _ & Hne & _).
    rewrite Hp. exists q, (End (script_manager df) v).
    split; [reflexivity|]. split; [|exact Hne].
    unfold IsEnd, End. apply Nat.leb_le. lia.
Qed.

Lemma demands_over_indices df :
  Zsum (map (fun j => default 0%Z (demands df !! IndexToNode (script_manager df) j))
            (seq 0 (Size (script_manager df))))
  = (Zsum (demands df) + 2 * default 0%Z (demands df !! depot_index))%Z.
Proof.
  unfold Size. cbn [mgr_nodes mgr_vehicles script_manager]. unfold num_vehicles.
  replace (num_nodes df + 3 - 1) with (num_nodes df + 2) by lia.
  rewrite seq_app, map_app, Zsum_app. f_equal.
  - f_equal. etransitivity; [|apply (map_lookup_seq 0%Z (demands df))].
    replace (length (demands df)) with (num_nodes df)
      by (unfold demands, num_nodes, cities; now rewrite !length_map).
    apply map_ext_in. intros i Hi. apply in_seq in Hi.
    unfold IndexToNode. cbn [mgr_nodes mgr_depot script_manager].
    destruct (Nat.ltb_spec i (num_nodes df)); [reflexivity | lia].
  - cbn [seq map Zsum fold_right]. unfold IndexToNode.
    cbn [mgr_nodes mgr_depot script_manager].
    destruct (Nat.ltb_spec (0 + num_nodes df) (num_nodes df)); [lia|].
    destruct (Nat.ltb_spec (S (0 + num_nodes df)) (num_nodes df)); [lia|]. lia.
Qed.

(** The recorded loads are those of the routes with more than two stops; a
    route of two stops carries the depot's demand. *)
Lemma kept_loads df time_matrix a :
  IsFeasible (script_routing df time_matrix) a = true ->
  default 0%Z (demands df !! depot_index) = 0%Z ->
  forall vs, (forall v, In v vs -> v < num_vehicles) ->
    Zsum (map (fun e => load_of df (script_manager df) (snd e))
              (kept_routes (script_manager df) a vs))
    = Zsum (map (fun v => load_of df (script_manager df)
                            (default [] (vehicle_route (script_manager df) a v))) vs).
Proof.
  intros Hf Hdep. induction vs as [|v vs IH]; intros Hvs; [reflexivity|].
  assert (Hv : v < num_vehicles) by (apply Hvs; now left).
  destruct (script_feasible_route df time_matrix a v Hf Hv) as (q & Hp & Hhd & _).
  rewrite (kept_routes_cons _ _ _ _ _ Hp). cbn [map]. rewrite Zsum_cons.
  rewrite <- IH by (intros; apply Hvs; now right).
  rewrite Hp. cbn [default]. unfold id.
  destruct (Nat.ltb_spec 2 (length (q ++ [End (script_manager df) v]))) as [Hlong|Hshort].
  - reflexivity.
  - rewrite length_app in Hshort. simpl in Hshort.
    destruct q as [|i [|j q]]; simpl in Hshort; [| |lia].
    + simpl in Hhd. unfold End, Start, Size in Hhd.
      cbn [mgr_nodes mgr_vehicles mgr_depot script_manager] in Hhd.
      unfold num_vehicles, depot_index in *. destruct (v =? 0); lia.
    + simpl in Hhd. subst i. unfold load_of. cbn [app removelast map].
      rewrite IndexToNode_Start, Hdep. change (Zsum [0%Z]) with 0%Z. lia.
Qed.

(** X10. On a feasible assignment the loads of the three routes add up to
    the demands of the whole table, the depot's demand counted three times
    (once for each vehicle leaving it), and that total is at most 45; a table
    asking for more than the fleet holds leaves the search without a
    solution.  When the depot's demand is 0 the loads the script records add
    up to the total demand of the table: every demand is on some recorded
    route. *)
Theorem X10_loads_add_up_to_total_demand df time_matrix a :
  IsFeasible (script_routing df time_matrix) a = true ->
  let m := script_manager df in
  let depot_demand := default 0%Z (demands df !! depot_index) in
  Zsum (map (fun v => load_of df m (default [] (vehicle_route m a v)))
            (seq 0 num_vehicles))
  = (Zsum (demands df) + 2 * depot_demand)%Z
  /\ (Zsum (demands df) + 2 * depot_demand <= 45)%Z
  /\ (depot_demand = 0%Z ->
      exists s',
        extract_routes df (empty_store (script_routing df time_matrix) a) = Some s'
        /\ Zsum (map snd (vehicle_loads s')) = Zsum (demands df)).
Proof.
  intros Hf. cbv zeta.
  set (m := script_manager df). set (depot_demand := default 0%Z (demands df !! depot_index)).
  assert (Hsum : Zsum (map (fun v => load_of df m (default [] (vehicle_route m a v)))
                           (seq 0 num_vehicles))
                 = (Zsum (demands df) + 2 * depot_demand)%Z).
  { unfold load_of, depot_demand, m.
    rewrite <- demands_over_indices.
    rewrite <- (Zsum_flat_map
                  (fun j => default 0%Z (demands df !! IndexToNode (script_manager df) j))
                  (fun v => removelast (default [] (vehicle_route (script_manager df) a v)))).
    apply Zsum_Permutation, Permutation_map.
    exact (routes_cover_indices df time_matrix a Hf). }
  split; [exact Hsum|]. split.
  - rewrite <- Hsum. unfold num_vehicles. cbn [seq map]. rewrite !Zsum_cons.
    change (Zsum []) with 0%Z.
    assert (Hload : forall v, v < num_vehicles ->
              (load_of df m (default [] (vehicle_route m a v)) <= 15)%Z).
    { intros v Hv. unfold m.
      destruct (script_feasible_route df time_matrix a v Hf Hv) as (q & Hp & _).
      rewrite Hp. cbn [default]. unfold id.
      rewrite <- (capacity_cumul_is_load df time_matrix a v q Hf Hv Hp).
      apply (capacity_cumul_bounds df time_matrix a v _ _ Hf Hv Hp).
      apply in_or_app. right. now left. }
    pose proof (Hload 0 ltac:(unfold num_vehicles; lia)).
    pose proof (Hload 1 ltac:(unfold num_vehicles; lia)).
    pose proof (Hload 2 ltac:(unfold num_vehicles; lia)). lia.
  - intros Hdep.
    destruct (extract_routes_feasible df time_matrix a Hf)
      as (s' & Hrun & _ & _ & _ & _ & Hloads).
    exists s'. split; [exact Hrun|].
    rewrite Hloads, map_map. cbn [snd].
    rewrite (kept_loads df time_matrix a Hf Hdep).
    + fold m. rewrite Hsum, Hdep. lia.
    + intros v Hv. apply in_seq in Hv. lia.
Qed.

Lemma X10_loads_add_up_to_total_demand_witness :
  let m := script_manager example_df in
  let depot_demand := default 0%Z (demands example_df !! depot_index) in
  Zsum (map (fun v => load_of example_df m (default [] (vehicle_route m example_solution v)))
            (seq 0 num_vehicles))
  = (Zsum (demands example_df) + 2 * depot_demand)%Z
  /\ (Zsum (demands example_df) + 2 * depot_demand <= 45)%Z
  /\ (depot_demand = 0%Z ->
      exists s',
        extract_routes example_df
          (empty_store (script_routing example_df example_time_matrix) example_solution)
        = Some s'
        /\ Zsum (map snd (vehicle_loads s')) = Zsum (demands example_df)).
Proof.
  apply (X10_loads_add_up_to_total_demand example_df example_time_matrix example_solution).
  vm_compute. reflexivity.
Defined.

(** ** The matrices the script builds, and the callbacks that read them *)

Lemma map_length_alter_insert {A} (l : list (list A)) : forall i j x,
  map length (alter (<[j := x]>) i l) = map length l.
Proof.
  induction l as [|row l IH]; intros i j x; [reflexivity|].
  destruct i as [|i]; simpl.
  - now rewrite length_insert.
  - f_equal. apply IH.
Qed.

Lemma map_length_replicate {A} (n k : nat) (row : list A) :
  length row = k -> map length (replicate n row) = replicate n k.
Proof. intros H. induction n as [|n IH]; simpl; [reflexivity | now rewrite IH, H]. Qed.

Lemma matrix_cell_shape {M : PyMath} df i j ms ms' :
  matrix_cell df i j ms = Ok ms' ->
  map length (fst ms') = map length (fst ms)
  /\ map length (snd ms') = map length (snd ms).
Proof.
  intros H. destruct (matrix_cell_step df i j ms ms' H) as [[_ ->]|(_ & d & t & _ & ->)].
  - split; reflexivity.
  - cbn [fst snd]. split; apply map_length_alter_insert.
Qed.

Lemma build_matrices_shape {M : PyMath} df dist_matrix time_matrix :
  build_matrices df = Ok (dist_matrix, time_matrix) ->
  map length dist_matrix = replicate (num_nodes df) (num_nodes df)
  /\ map length time_matrix = replicate (num_nodes df) (num_nodes df).
Proof.
  unfold build_matrices. intros Hrun.
  set (n := num_nodes df) in *.
  pose (P := fun ms : list (list Number) * list (list Z) =>
               map length (fst ms) = replicate n n /\ map length (snd ms) = replicate n n).
  change (P (dist_matrix, time_matrix)).
  eapply (for_in_preserves P); [| |exact Hrun].
  - intros i ms ms' HP Hrow.
    eapply (for_in_preserves P); [| exact HP | exact Hrow].
    intros j s s' [Hd Ht] Hcell.
    destruct (matrix_cell_shape df i j s s' Hcell) as [Hd' Ht'].
    split; congruence.
  - split; cbn [fst snd]; apply map_length_replicate, length_replicate.
Qed.

Lemma replicate_shape {A} (mx : list (list A)) (n : nat) :
  map length mx = replicate n n ->
  length mx = n /\ Forall (fun row => length row = n) mx.
Proof.
  intros H. split.
  - rewrite <- (length_map length mx), H. apply length_replicate.
  - apply List.Forall_forall. intros row Hrow.
    assert (Hin : In (length row) (map length mx)) by now apply in_map.
    rewrite H in Hin. apply list_elem_of_In, elem_of_replicate in Hin. tauto.
Qed.

(** X11. When the two loops of section 2 end without an exception, both
    matrices are square with one row and one column for every row of the
    table: no write of the loops went out of range and none changed a
    length. *)
Theorem X11_matrices_square {M : PyMath} df dist_matrix time_matrix :
  build_matrices df = Ok (dist_matrix, time_matrix) ->
  let n := num_nodes df in
  length dist_matrix = n /\ Forall (fun row => length row = n) dist_matrix
  /\ length time_matrix = n /\ Forall (fun row => length row = n) time_matrix.
Proof.
  intros Hrun n. destruct (build_matrices_shape df _ _ Hrun) as [Hd Ht].
  destruct (replicate_shape _ _ Hd) as [Hd1 Hd2].
  destruct (replicate_shape _ _ Ht) as [Ht1 Ht2].
  repeat split; assumption.
Qed.

Lemma X11_matrices_square_witness :
  let n := num_nodes example_df in
  length example_dist_matrix = n
  /\ Forall (fun row => length row = n) example_dist_matrix
  /\ length example_time_matrix = n
  /\ Forall (fun row => length row = n) example_time_matrix.
Proof.
  apply (X11_matrices_square (M := small_angle_math) example_df).
  vm_compute. reflexivity.
Defined.

(** A cell of the time matrix the script builds. *)
Lemma built_time_cell {M : PyMath} {facts : CLibraryFacts M} df dist_matrix time_matrix i j :
  build_matrices df = Ok (dist_matrix, time_matrix) ->
  i < num_nodes df -> j < num_nodes df ->
  exists t, cell time_matrix i j = Some t /\ cell time_matrix j i = Some t
            /\ (0 <= t)%Z /\ (i = j -> t = 0%Z).
Proof.
  intros Hrun Hi Hj. destruct (Nat.eq_dec i j) as [<-|Hne].
  - unfold build_matrices in Hrun.
    destruct (loops_keep_diagonal df _ _ i _ _ Hrun) as [_ Ht]. cbn [fst snd] in Ht.
    rewrite cell_replicate in Ht by assumption.
    exists 0%Z. repeat split; auto; lia.
  - destruct (build_matrices_written df _ _ i j Hrun Hi Hj Hne) as (d & t & Hc & _ & Ht).
    destruct (build_matrices_written df _ _ j i Hrun Hj Hi ltac:(congruence))
      as (d' & t' & Hc' & _ & Ht').
    apply computed_symmetric in Hc'. rewrite Hc in Hc'. inversion Hc'; subst d' t'.
    destruct (computed_not_negative df i j d t Hc) as (_ & _ & Htn).
    cbn [fst snd] in Ht, Ht'.
    exists t. repeat split; auto. congruence.
Qed.

Lemma IndexToNode_lt df i :
  num_nodes df <> 0 -> IndexToNode (script_manager df) i < num_nodes df.
Proof.
  intros Hn. unfold IndexToNode. cbn [mgr_nodes mgr_depot script_manager].
  destruct (Nat.ltb_spec i (num_nodes df)); [assumption | unfold depot_index; lia].
Qed.

Lemma SetRange_fold_arc_cost {X} (f : RoutingModel -> X -> RoutingModel)
    (idx : X -> nat) (lo hi : X -> Z) (xs : list X) :
  (forall r x, f r x = set_range "Time" (idx x) (lo x) (hi x) r) ->
  forall r, arc_cost (fold_left f xs r) = arc_cost r.
Proof.
  intros Hf. induction xs as [|x xs IH]; intros r; simpl; [reflexivity|].
  rewrite IH, Hf. reflexivity.
Qed.

Lemma script_arc_cost df time_matrix :
  arc_cost (script_routing df time_matrix) = time_callback df time_matrix.
Proof.
  unfold script_routing.
  set (r0 := AddDimension _ _ _ _ _ _).
  set (f1 := fun (routing : RoutingModel) (x : nat * (Z * Z)) => _).
  set (f2 := fun (routing : RoutingModel) (v : nat) => _).
  rewrite (SetRange_fold_arc_cost f2 (fun v => Start (script_manager df) v)
             (fun _ => 0%Z) (fun _ => max_route_duration))
    by (intros r v; reflexivity).
  rewrite (SetRange_fold_arc_cost f1 (fun x => NodeToIndex (script_manager df) (fst x))
             (fun x => fst (snd x)) (fun x => snd (snd x)))
    by (intros r [n [s e]]; reflexivity).
  reflexivity.
Qed.

(** X12. With the matrices the script builds for a table that has a depot
    row, the two callbacks never read out of range at an index of the
    manager, the only kind the library passes: the time callback returns the
    cell of the time matrix at the two nodes, which is not negative and the
    same in both directions, and 0 from a vehicle's start to a vehicle's end
    (both are the depot); the demand callback returns the demand of the
    node's row.  The cost of an arc in the model is the time callback. *)
Theorem X12_callbacks_read_in_range {M : PyMath} (facts : CLibraryFacts M)
    df dist_matrix time_matrix :
  build_matrices df = Ok (dist_matrix, time_matrix) ->
  num_nodes df <> 0 ->
  let m := script_manager df in
  (forall from_index to_index,
     from_index < GetNumberOfIndices m -> to_index < GetNumberOfIndices m ->
     cell time_matrix (IndexToNode m from_index) (IndexToNode m to_index)
     = Some (time_callback df time_matrix from_index to_index)
     /\ (0 <= time_callback df time_matrix from_index to_index)%Z
     /\ time_callback df time_matrix from_index to_index
        = time_callback df time_matrix to_index from_index)
  /\ (forall v v', v < num_vehicles -> v' < num_vehicles ->
        Start m v < GetNumberOfIndices m /\ End m v' < GetNumberOfIndices m
        /\ time_callback df time_matrix (Start m v) (End m v') = 0%Z)
  /\ (forall from_index,
        from_index < GetNumberOfIndices m ->
        exists row, df !! IndexToNode m from_index = Some row
                    /\ demand_callback df from_index = demand row)
  /\ arc_cost (script_routing df time_matrix) = time_callback df time_matrix.
Proof.
  intros Hrun Hn m.
  assert (Hcell : forall f t, exists x,
            cell time_matrix (IndexToNode m f) (IndexToNode m t) = Some x
            /\ cell time_matrix (IndexToNode m t) (IndexToNode m f) = Some x
            /\ (0 <= x)%Z /\ (IndexToNode m f = IndexToNode m t -> x = 0%Z)).
  { intros f t.
    apply (built_time_cell df dist_matrix time_matrix _ _ Hrun);
      apply IndexToNode_lt; exact Hn. }
  split; [|split; [|split]].
  - intros f t _ _. destruct (Hcell f t) as (x & Hft & Htf & Hx & _).
    pose proof Hft as Hft'.
    unfold time_callback. fold m. unfold cell in Hft, Htf. rewrite Hft, Htf.
    cbn [default]. unfold id. split; [exact Hft' | split; [exact Hx | reflexivity]].
  - intros v v' Hv Hv'. split; [|split].
    + unfold m, Start, GetNumberOfIndices, Size.
      cbn [mgr_nodes mgr_vehicles mgr_depot script_manager].
      unfold num_vehicles, depot_index in *. destruct (v =? 0); lia.
    + unfold m, End, GetNumberOfIndices, Size.
      cbn [mgr_nodes mgr_vehicles mgr_depot script_manager].
      unfold num_vehicles in *. lia.
    + destruct (Hcell (Start m v) (End m v')) as (x & Hft & _ & _ & H0).
      unfold time_callback. fold m. unfold cell in Hft. rewrite Hft.
      cbn [default]. unfold id. apply H0. unfold m.
      now rewrite IndexToNode_Start, IndexToNode_End.
  - intros f _.
    destruct (lookup_lt_is_Some_2 df (IndexToNode m f)) as [row Hrow].
    { rewrite <- num_nodes_length. apply IndexToNode_lt. exact Hn. }
    exists row. split; [exact Hrow|].
    unfold demand_callback, demands. fold m. rewrite lookup_map, Hrow. reflexivity.
  - apply script_arc_cost.
Qed.

Lemma X12_callbacks_read_in_range_witness :
  let m := script_manager example_df in
  (forall from_index to_index,
     from_index < GetNumberOfIndices m -> to_index < GetNumberOfIndices m ->
     cell example_time_matrix (IndexToNode m from_index) (IndexToNode m to_index)
     = Some (time_callback example_df example_time_matrix from_index to_index)
     /\ (0 <= time_callback example_df example_time_matrix from_index to_index)%Z
     /\ time_callback example_df example_time_matrix from_index to_index
        = time_callback example_df example_time_matrix to_index from_index)
  /\ (forall v v', v < num_vehicles -> v' < num_vehicles ->
        Start m v < GetNumberOfIndices m /\ End m v' < GetNumberOfIndices m
        /\ time_callback example_df example_time_matrix (Start m v) (End m v') = 0%Z)
  /\ (forall from_index,
        from_index < GetNumberOfIndices m ->
        exists row, example_df !! IndexToNode m from_index = Some row
                    /\ demand_callback example_df from_index = demand row)
  /\ arc_cost (script_routing example_df example_time_matrix)
     = time_callback example_df example_time_matrix.
Proof.
  apply (X12_callbacks_read_in_range small_angle_math_facts
           example_df example_dist_matrix example_time_matrix).
  - vm_compute. reflexivity.
  - vm_compute. discriminate.
Defined.

(** ** When the matrix loops raise *)

Lemma for_in_Raise {A S} (body : A -> S -> result S) (l : list A) : forall s e,
  for_in l body s = Raise e -> exists x s0, In x l /\ body x s0 = Raise e.
Proof.
  induction l as [|y l IH]; intros s e H; simpl in H; [discriminate|].
  destruct (body y s) as [s1|e1] eqn:Hb; cbn [bind] in H.
  - destruct (IH _ _ H) as (x & s0 & Hin & Hx). exists x, s0. split; [now right | exact Hx].
  - inversion H; subst e1. exists y, s. split; [now left | exact Hb].
Qed.

Lemma matrix_cell_Raise {M : PyMath} df i j ms e :
  matrix_cell df i j ms = Raise e ->
  i <> j
  /\ computed df i j = Raise e
  /\ forall row_i row_j, df !! i = Some row_i -> df !! j = Some row_j ->
       haversine (lat row_i) (lon row_i) (lat row_j) (lon row_j) = Raise e
       \/ exists d, haversine (lat row_i) (lon row_i) (lat row_j) (lon row_j) = Ok d
                    /\ round (d * 2)%float = Raise e.
Proof.
  destruct ms as [dm tm]. unfold matrix_cell, computed. intros H.
  destruct (Nat.eqb_spec i j) as [Heq|Hne]; [discriminate|]. split; [exact Hne|].
  unfold getitem, lats, lons in *. rewrite !lookup_map in *.
  destruct (df !! i) as [ri|]; destruct (df !! j) as [rj|];
    cbn [fmap option_fmap option_map bind] in *;
    try (inversion H; subst; split; [reflexivity | intros; discriminate]).
  destruct (haversine (lat ri) (lon ri) (lat rj) (lon rj)) as [d|e1] eqn:Hd;
    cbn [bind] in *.
  - destruct (round (d * 2)%float) as [t|e2] eqn:Ht; cbn [bind] in *; [discriminate|].
    inversion H; subst e2. split; [reflexivity|].
    intros row_i row_j Hi Hj. inversion Hi; inversion Hj; subst.
    right. exists d. rewrite Hd, Ht. split; reflexivity.
  - inversion H; subst e1. split; [reflexivity|].
    intros row_i row_j Hi Hj. inversion Hi; inversion Hj; subst.
    left. exact Hd.
Qed.

(** X13. The loops of section 2 raise only what the distance formula or the
    rounding of a distance raises, for a pair of two different rows of the
    table: no lookup of the loops is out of range.  They end without an
    exception exactly when the formula and the rounding give a value for
    every such pair. *)
Theorem X13_matrices_fail_only_in_formula {M : PyMath} df :
  (forall e, build_matrices df = Raise e ->
     exists i j row_i row_j,
       i <> j /\ df !! i = Some row_i /\ df !! j = Some row_j
       /\ computed df i j = Raise e
       /\ (haversine (lat row_i) (lon row_i) (lat row_j) (lon row_j) = Raise e
           \/ exists d, haversine (lat row_i) (lon row_i) (lat row_j) (lon row_j) = Ok d
                        /\ round (d * 2)%float = Raise e))
  /\ ((exists ms, build_matrices df = Ok ms)
      <-> (forall i j, i < num_nodes df -> j < num_nodes df -> i <> j ->
             exists d t, computed df i j = Ok (d, t))).
Proof.
  assert (Hraise : forall e, build_matrices df = Raise e ->
     exists i j row_i row_j,
       i <> j /\ df !! i = Some row_i /\ df !! j = Some row_j
       /\ computed df i j = Raise e
       /\ (haversine (lat row_i) (lon row_i) (lat row_j) (lon row_j) = Raise e
           \/ exists d, haversine (lat row_i) (lon row_i) (lat row_j) (lon row_j) = Ok d
                        /\ round (d * 2)%float = Raise e)).
  { intros e H. unfold build_matrices in H.
    apply for_in_Raise in H as (i & ms & Hi & H).
    apply for_in_Raise in H as (j & ms' & Hj & H).
    apply in_seq in Hi. apply in_seq in Hj.
    destruct (matrix_cell_Raise df i j ms' e H) as (Hne & Hc & Hwhere).
    destruct (lookup_lt_is_Some_2 df i) as [row_i Hrow_i];
      [rewrite <- num_nodes_length; lia|].
    destruct (lookup_lt_is_Some_2 df j) as [row_j Hrow_j];
      [rewrite <- num_nodes_length; lia|].
    exists i, j, row_i, row_j. repeat (split; [assumption|]).
    exact (Hwhere row_i row_j Hrow_i Hrow_j). }
  split; [exact Hraise|]. split.
  - intros [[dm tm] Hrun] i j Hi Hj Hne.
    destruct (build_matrices_written df dm tm i j Hrun Hi Hj Hne) as (d & t & Hc & _).
    exists d, t. exact Hc.
  - intros Hall. destruct (build_matrices df) as [ms|e] eqn:Hrun; [now exists ms|].
    destruct (Hraise e eq_refl) as (i & j & row_i & row_j & Hne & Hi & Hj & Hc & _).
    apply lookup_lt_Some in Hi. apply lookup_lt_Some in Hj.
    rewrite <- num_nodes_length in Hi, Hj.
    destruct (Hall i j Hi Hj Hne) as (d & t & Hok). congruence.
Qed.

(** ** A run of the script with a search that returns feasible assignments *)

(** X14. With a search that only returns feasible assignments, a run of the
    script on a table with a depot row whose matrices were built, with travel
    times that fit 64 bits, ends in one of three ways.  A call of lines 54-100 raises: the run ends with that
    exception and the search is not called.  Or the search finds nothing:
    the script prints [No solution found.] and exits.  Or the extraction
    loops end, the report of the recorded routes is printed and control
    reaches the plotting section.  The run never stays in an extraction
    loop. *)
Theorem X14_run_with_sound_search {M : PyMath} (solve : Solver)
    df dist_matrix time_matrix :
  sound solve ->
  build_matrices df = Ok (dist_matrix, time_matrix) ->
  matrix_int64 time_matrix = true ->
  num_nodes df <> 0 ->
  let routing := script_routing df time_matrix in
  (exists e,
     declare_routing df time_matrix = Raise e
     /\ script solve df = {| effects := []; outcome := Raised e |})
  \/ (declare_routing df time_matrix = Ok routing
      /\ solve routing params = None
      /\ script solve df
         = {| effects := [SolveWithParameters routing params; print "No solution found."];
              outcome := Exited |})
  \/ (exists a s',
        declare_routing df time_matrix = Ok routing
        /\ solve routing params = Some a
        /\ IsFeasible routing a = true
        /\ extract_routes df (empty_store routing a) = Some s'
        /\ script solve df
           = {| effects := SolveWithParameters routing params
                           :: map print (print_routes df s');
                outcome := Plots s' |}).
Proof.
  intros Hsound Hrun _ Hn routing. unfold script. rewrite Hrun.
  apply Nat.eqb_neq in Hn. rewrite Hn.
  destruct (declare_routing df time_matrix) as [r|e] eqn:Hmodel.
  - right. destruct (declare_routing_Ok df time_matrix r Hmodel) as [-> _].
    fold routing.
    destruct (solve routing params) as [a|] eqn:Hsolve.
    + right. pose proof (Hsound _ _ _ Hsolve) as Hf.
      destruct (extract_routes_feasible df time_matrix a Hf) as (s' & Hext & _).
      fold routing in Hext. rewrite Hext.
      exists a, s'. repeat split; assumption.
    + left. repeat split; reflexivity.
  - left. exists e. split; reflexivity.
Qed.

Lemma try_candidate_sound (candidate : Assignment) : sound (try_candidate candidate).
Proof.
  intros r p a H. unfold try_candidate in H.
  destruct (IsFeasible r candidate) eqn:Hf; [|discriminate].
  inversion H; subst. exact Hf.
Qed.

Lemma X14_run_with_sound_search_witness :
  let routing := script_routing example_df example_time_matrix in
  let solve := try_candidate example_solution in
  (exists e,
     declare_routing example_df example_time_matrix = Raise e
     /\ script (M := small_angle_math) solve example_df
        = {| effects := []; outcome := Raised e |})
  \/ (declare_routing example_df example_time_matrix = Ok routing
      /\ solve routing params = None
      /\ script (M := small_angle_math) solve example_df
         = {| effects := [SolveWithParameters routing params; print "No solution found."];
              outcome := Exited |})
  \/ (exists a s',
        declare_routing example_df example_time_matrix = Ok routing
        /\ solve routing params = Some a
        /\ IsFeasible routing a = true
        /\ extract_routes example_df (empty_store routing a) = Some s'
        /\ script (M := small_angle_math) solve example_df
           = {| effects := SolveWithParameters routing params
                           :: map print (print_routes example_df s');
                outcome := Plots s' |}).
Proof.
  apply (X14_run_with_sound_search (M := small_angle_math)
           (try_candidate example_solution) example_df example_dist_matrix
           example_time_matrix).
  - apply try_candidate_sound.
  - vm_compute. reflexivity.
  - vm_compute. reflexivity.
  - vm_compute. discriminate.
Defined.

(** ** Times along a route *)

Lemma time_callback_not_negative {M : PyMath} {facts : CLibraryFacts M}
    df dist_matrix time_matrix i j :
  build_matrices df = Ok (dist_matrix, time_matrix) ->
  (0 <= time_callback df time_matrix i j)%Z.
Proof.
  intros Hrun. unfold time_callback.
  set (f := IndexToNode (script_manager df) i). set (t := IndexToNode (script_manager df) j).
  destruct (time_matrix !! f ≫= (.!! t)) as [x|] eqn:Hx; cbn [default]; [|lia].
  unfold id.
  destruct (build_matrices_shape df _ _ Hrun) as [_ Hshape].
  destruct (replicate_shape _ _ Hshape) as [Hlen Hrows].
  destruct (time_matrix !! f) as [row|] eqn:Hrow; [|discriminate].
  cbn [mbind option_bind] in Hx.
  assert (Hf : f < num_nodes df).
  { apply lookup_lt_Some in Hrow. lia. }
  assert (Ht : t < num_nodes df).
  { rewrite List.Forall_forall in Hrows.
    assert (Hin : In row time_matrix)
      by (apply list_elem_of_In; eapply list_elem_of_lookup_2; exact Hrow).
    rewrite <- (Hrows row Hin). eapply lookup_lt_Some. exact Hx. }
  destruct (built_time_cell df dist_matrix time_matrix f t Hrun Hf Ht) as (x' & Hc & _ & Hx' & _).
  unfold cell in Hc. rewrite Hrow in Hc. cbn [mbind option_bind] in Hc.
  rewrite Hx in Hc. inversion Hc; subst. exact Hx'.
Qed.

(** X15. With the time matrix the script builds, the times recorded along a
    route of a feasible assignment never decrease from one stop to the
    next. *)
Theorem X15_recorded_times_never_decrease {M : PyMath} (facts : CLibraryFacts M)
    df dist_matrix time_matrix a :
  build_matrices df = Ok (dist_matrix, time_matrix) ->
  IsFeasible (script_routing df time_matrix) a = true ->
  exists s',
    extract_routes df (empty_store (script_routing df time_matrix) a) = Some s'
    /\ forall v route_times k t t',
         dict_get v (vehicle_times s') = Some route_times ->
         route_times !! k = Some t -> route_times !! S k = Some t' ->
         (t <= t')%Z.
Proof.
  intros Hrun Hf.
  destruct (extract_routes_feasible df time_matrix a Hf)
    as (s' & Hext & _ & _ & _ & Htimes & _).
  exists s'. split; [exact Hext|].
  intros v route_times k t t' Ht Hk Hk'.
  rewrite Htimes in Ht. apply dict_get_kept in Ht as (p & Hin & ->).
  apply kept_routes_In in Hin as (Hv & Hp & _). apply in_seq in Hv.
  unfold times_of in Hk, Hk'. rewrite lookup_map in Hk. rewrite lookup_map in Hk'.
  destruct (p !! k) as [i|] eqn:Hi; [|discriminate].
  destruct (p !! S k) as [j|] eqn:Hj; [|discriminate].
  cbn [fmap option_fmap option_map] in Hk, Hk'. inversion Hk; inversion Hk'; subst.
  pose proof (time_step df time_matrix a v p k i j Hf ltac:(lia) Hp Hi Hj) as Hstep.
  pose proof (time_callback_not_negative df dist_matrix time_matrix i j Hrun). lia.
Qed.

Lemma X15_recorded_times_never_decrease_witness :
  exists s',
    extract_routes example_df
      (empty_store (script_routing example_df example_time_matrix) example_solution)
    = Some s'
    /\ forall v route_times k t t',
         dict_get v (vehicle_times s') = Some route_times ->
         route_times !! k = Some t -> route_times !! S k = Some t' ->
         (t <= t')%Z.
Proof.
  apply (X15_recorded_times_never_decrease small_angle_math_facts
           example_df example_dist_matrix example_time_matrix example_solution).
  - vm_compute. reflexivity.
  - vm_compute. reflexivity.
Defined.

(** ** The points of the routes on the map *)

Section PlotFacts.
Context {Point : Type}.
Variable to_crs : float -> float -> Point.

Lemma name_get_set (k k' : string) (x : Point) : forall d,
  name_get Point k' (name_set Point k x d)
  = if String.eqb k k' then Some x else name_get Point k' d.
Proof.
  induction d as [|[k0 y] d IH]; simpl.
  - reflexivity.
  - destruct (String.eqb_spec k0 k) as [->|Hne]; simpl.
    + destruct (String.eqb_spec k k'); reflexivity.
    + destruct (String.eqb_spec k0 k') as [->|Hne'].
      * destruct (String.eqb_spec k k'); [congruence | reflexivity].
      * exact IH.
Qed.

Lemma coords_fold (name : string) (rows : list Row) : forall d,
  name_get Point name
    (fold_left (fun d row => name_set Point (city row) (geometry Point to_crs row) d) rows d)
  = match last (List.filter (fun r => String.eqb (city r) name) rows) with
    | Some r => Some (geometry Point to_crs r)
    | None => name_get Point name d
    end.
Proof.
  induction rows as [|row rows IH]; intros d; [reflexivity|].
  cbn [fold_left List.filter]. rewrite IH, name_get_set.
  destruct (String.eqb (city row) name).
  - rewrite last_cons. destruct (last (List.filter _ rows)); reflexivity.
  - reflexivity.
Qed.

(** [coords[name]] is the point of the last row with that name. *)
Lemma coords_lookup df name :
  name_get Point name (coords Point to_crs df)
  = geometry Point to_crs <$> last_named df name.
Proof.
  unfold coords, last_named. rewrite coords_fold.
  destruct (last (List.filter _ df)); reflexivity.
Qed.

Lemma last_named_In df row : In row df -> is_Some (last_named df (city row)).
Proof.
  intros Hin. unfold last_named.
  destruct (List.filter (fun r => String.eqb (city r) (city row)) df) as [|x l] eqn:Hf.
  - exfalso. assert (Hr : In row (List.filter (fun r => String.eqb (city r) (city row)) df)).
    { apply filter_In. split; [exact Hin | apply String.eqb_refl]. }
    rewrite Hf in Hr. destruct Hr.
  - rewrite last_cons. destruct (last l); eauto.
Qed.

Lemma filter_no_name (df : DataFrame) (name : string) :
  (forall r, In r df -> city r <> name) ->
  List.filter (fun r => String.eqb (city r) name) df = [].
Proof.
  induction df as [|y df IH]; intros H; [reflexivity|].
  cbn [List.filter]. destruct (String.eqb_spec (city y) name) as [Heq|Hne].
  - exfalso. exact (H y (or_introl eq_refl) Heq).
  - apply IH. intros r Hr. apply H. now right.
Qed.

Lemma last_named_unique df row :
  NoDup (cities df) -> In row df -> last_named df (city row) = Some row.
Proof.
  unfold last_named, cities. induction df as [|x df IH]; intros Hnd Hin; [destruct Hin|].
  cbn [map] in Hnd. apply NoDup_cons in Hnd as [Hx Hnd'].
  assert (Hnone : forall r, In r df -> city r <> city x).
  { intros r Hr Heq. apply Hx. rewrite <- Heq. apply list_elem_of_In. now apply in_map. }
  cbn [List.filter]. destruct Hin as [->|Hin].
  - rewrite String.eqb_refl, (filter_no_name df (city row) Hnone). reflexivity.
  - destruct (String.eqb_spec (city x) (city row)) as [Heq|Hne].
    + exfalso. apply (Hnone row Hin). congruence.
    + exact (IH Hnd' Hin).
Qed.

Lemma comprehension_defined {A B : Type} (f : A -> LookupError + B) (l : list A) :
  (forall x, In x l -> exists y, f x = inr y) ->
  exists ys, comprehension f l = inr ys /\ Forall2 (fun x y => f x = inr y) l ys.
Proof.
  induction l as [|x l IH]; intros H.
  - exists []. split; [reflexivity | constructor].
  - destruct (H x (or_introl eq_refl)) as [y Hy].
    destruct IH as (ys & Hys & Hall); [intros; apply H; now right|].
    exists (y :: ys). cbn [comprehension]. rewrite Hy, Hys.
    split; [reflexivity | now constructor].
Qed.
End PlotFacts.

(** The nodes of a recorded route are rows of the table. *)
Lemma recorded_nodes_in_table df time_matrix a s' v nodes node :
  num_nodes df <> 0 ->
  extract_routes df (empty_store (script_routing df time_matrix) a) = Some s' ->
  In (v, nodes) (vehicle_routes s') -> In node nodes -> node < num_nodes df.
Proof.
  intros Hn Hrun Hin Hnode.
  destruct (extract_routes_spec df _ a s' Hrun) as (_ & _ & _ & Hroutes & _).
  rewrite Hroutes in Hin. apply in_map_iff in Hin as ([v' p] & Heq & _).
  pose proof (f_equal snd Heq) as Hnodes. cbn [fst snd] in Hnodes. subst nodes.
  unfold nodes_of in Hnode. apply in_map_iff in Hnode as (i & <- & _).
  destruct (script_routing_spec df time_matrix) as [-> _].
  apply IndexToNode_lt. exact Hn.
Qed.

(** X16. In the plotting loop, for every recorded route, neither
    [cities[i]] nor [coords[c]] raises, and the route gets one point per
    stop.  The point of a stop is that of the last row of the table that
    bears the stop's city name: the stop's own row when the names of the
    table are all different, a later row's position when the name occurs
    again below. *)
Theorem X16_route_points_on_the_map {Point : Type} (to_crs : float -> float -> Point)
    df time_matrix a s' v nodes :
  num_nodes df <> 0 ->
  extract_routes df (empty_store (script_routing df time_matrix) a) = Some s' ->
  In (v, nodes) (vehicle_routes s') ->
  exists pts,
    route_points Point to_crs df nodes = inr pts
    /\ length pts = length nodes
    /\ (forall k node row, nodes !! k = Some node -> df !! node = Some row ->
          pts !! k = geometry Point to_crs <$> last_named df (city row))
    /\ (NoDup (cities df) ->
        forall k node row, nodes !! k = Some node -> df !! node = Some row ->
          pts !! k = Some (geometry Point to_crs row)).
Proof.
  intros Hn Hrun Hin.
  assert (Hrows : forall node, In node nodes -> exists row, df !! node = Some row).
  { intros node Hnode. apply lookup_lt_is_Some_2. rewrite <- num_nodes_length.
    exact (recorded_nodes_in_table df time_matrix a s' v nodes node Hn Hrun Hin Hnode). }
  unfold route_points.
  destruct (comprehension_defined
              (fun i => match cities df !! i with
                        | Some c => inr c
                        | None => inl CitiesIndexError
                        end) nodes) as (route_cities & -> & Hcities).
  { intros node Hnode. destruct (Hrows node Hnode) as [row Hrow].
    exists (city row). unfold cities. now rewrite lookup_map, Hrow. }
  assert (Hname : forall k node row, nodes !! k = Some node -> df !! node = Some row ->
            route_cities !! k = Some (city row)).
  { intros k node row Hk Hrow.
    destruct (Forall2_lookup_l _ _ _ _ _ Hcities Hk) as (c & Hc & Hf).
    unfold cities in Hf. rewrite lookup_map, Hrow in Hf.
    cbn [fmap option_fmap option_map] in Hf. inversion Hf; subst c. exact Hc. }
  destruct (comprehension_defined
              (fun c => match name_get Point c (coords Point to_crs df) with
                        | Some p => inr p
                        | None => inl CoordsKeyError
                        end) route_cities) as (pts & -> & Hpts).
  { intros c Hc. apply list_elem_of_In, list_elem_of_lookup_1 in Hc as [k Hk].
    destruct (Forall2_lookup_r _ _ _ _ _ Hcities Hk) as (node & Hnode & Hf).
    destruct (Hrows node) as [row Hrow].
    { apply list_elem_of_In. eapply list_elem_of_lookup_2. exact Hnode. }
    unfold cities in Hf. rewrite lookup_map, Hrow in Hf.
    cbn [fmap option_fmap option_map] in Hf. inversion Hf; subst c.
    rewrite coords_lookup.
    destruct (last_named_In df row) as [r ->].
    { apply list_elem_of_In. eapply list_elem_of_lookup_2. exact Hrow. }
    eexists. reflexivity. }
  assert (Hpoint : forall k node row, nodes !! k = Some node -> df !! node = Some row ->
            pts !! k = geometry Point to_crs <$> last_named df (city row)).
  { intros k node row Hk Hrow.
    destruct (Forall2_lookup_l _ _ _ _ _ Hpts (Hname k node row Hk Hrow)) as (p & Hp & Hf).
    rewrite coords_lookup in Hf. rewrite Hp.
    destruct (last_named df (city row)); cbn [fmap option_fmap option_map] in *;
      [inversion Hf; reflexivity | discriminate]. }
  exists pts. split; [reflexivity|]. split; [|split].
  - rewrite <- (Forall2_length _ _ _ Hpts). symmetry. exact (Forall2_length _ _ _ Hcities).
  - exact Hpoint.
  - intros Hnd k node row Hk Hrow. rewrite (Hpoint k node row Hk Hrow).
    rewrite (last_named_unique df row Hnd); [reflexivity|].
    apply list_elem_of_In. eapply list_elem_of_lookup_2. exact Hrow.
Qed.

Lemma X16_route_points_on_the_map_witness :
  exists pts,
    route_points (float * float) plate_carree example_df [0; 1; 2; 0] = inr pts
    /\ length pts = length [0; 1; 2; 0]
    /\ (forall k node row, [0; 1; 2; 0] !! k = Some node -> example_df !! node = Some row ->
          pts !! k = geometry (float * float) plate_carree <$> last_named example_df (city row))
    /\ (NoDup (cities example_df) ->
        forall k node row, [0; 1; 2; 0] !! k = Some node -> example_df !! node = Some row ->
          pts !! k = Some (geometry (float * float) plate_carree row)).
Proof.
  apply (X16_route_points_on_the_map plate_carree example_df example_time_matrix
           example_solution example_store 0 [0; 1; 2; 0]).
  - vm_compute. discriminate.
  - vm_compute. reflexivity.
  - vm_compute. left. reflexivity.
Defined.

(** When a name occurs twice, the stop at the first row bearing it is drawn
    at the second row's position. *)
Example same_name_points :
  route_points (float * float) plate_carree same_name_df [0; 1; 2; 0]
  = inr [ (24.9375, 60.1875); (24.75, 60.3125); (24.75, 60.3125); (24.9375, 60.1875) ]%float.
Proof. vm_compute. reflexivity. Qed.

(** ** Rounding a distance to a travel time *)

(** X17. [round] on a finite float with sign [s], mantissa [m] and exponent
    [e] gives the integer nearest to its magnitude, with the float's sign: the
    float itself when [e] is not negative, else an integer at most one half
    away, the even one when two integers are that near.  So a travel time
    [round(dist * 2)] differs from twice the distance by at most half a
    minute. *)
Theorem X17_round_to_nearest_ties_to_even x s m e :
  Prim2SF x = S754_finite s m e ->
  exists q,
    round x = Ok (cond_Zopp s q)
    /\ (0 <= q)%Z
    /\ ((0 <= e)%Z -> q = (Z.pos m * 2 ^ e)%Z)
    /\ ((e < 0)%Z ->
        let scale := (2 ^ (- e))%Z in
        let twice_error := (2 * Z.abs (q * scale - Z.pos m))%Z in
        (twice_error <= scale)%Z
        /\ (twice_error = scale -> Z.even q = true)).
Proof.
  intros Hx. exists (round_half_even m e). unfold round. rewrite Hx.
  split; [reflexivity|]. split; [apply round_half_even_nonneg|].
  unfold round_half_even. split.
  - intros He. apply Z.leb_le in He. now rewrite He.
  - intros He. cbv zeta. set (scale := (2 ^ (- e))%Z).
    destruct (Z.leb_spec 0 e) as [Hle|_]; [lia|].
    assert (Hd : (0 < scale)%Z) by (apply Z.pow_pos_nonneg; lia).
    pose proof (Z.div_mod (Z.pos m) scale ltac:(lia)) as Hdm.
    pose proof (Z.mod_pos_bound (Z.pos m) scale Hd) as Hr.
    set (q := (Z.pos m / scale)%Z) in *. set (r := (Z.pos m mod scale)%Z) in *.
    destruct (Z.compare_spec (2 * r) scale) as [Heq|Hlt|Hgt].
    + destruct (Z.even q) eqn:Hev.
      * split; [|intros _; exact Hev].
        replace (q * scale - Z.pos m)%Z with (- r)%Z by lia. lia.
      * split.
        -- replace ((q + 1) * scale - Z.pos m)%Z with (scale - r)%Z by lia. lia.
        -- intros _. rewrite Z.add_1_r, Z.even_succ, <- Z.negb_even, Hev. reflexivity.
    + split; replace (q * scale - Z.pos m)%Z with (- r)%Z by lia; lia.
    + split; replace ((q + 1) * scale - Z.pos m)%Z with (scale - r)%Z by lia; lia.
Qed.

Lemma X17_round_to_nearest_ties_to_even_witness :
  exists q,
    round 2.5%float = Ok (cond_Zopp false q)
    /\ (0 <= q)%Z
    /\ ((0 <= -51)%Z -> q = (5629499534213120 * 2 ^ (-51))%Z)
    /\ ((-51 < 0)%Z ->
        let scale := (2 ^ (- -51))%Z in
        let twice_error := (2 * Z.abs (q * scale - 5629499534213120))%Z in
        (twice_error <= scale)%Z
        /\ (twice_error = scale -> Z.even q = true)).
Proof.
  apply (X17_round_to_nearest_ties_to_even 2.5%float false 5629499534213120%positive
           (-51)%Z).
  vm_compute. reflexivity.
Defined.

(** ** A table without customers *)

(** X18. For a table with the depot row only, every feasible assignment
    sends each vehicle from its start straight to its end; the extraction
    then records no route, the report is empty and the plotting loop has
    nothing to draw. *)
Theorem X18_table_without_customers df time_matrix a :
  num_nodes df = 1 ->
  IsFeasible (script_routing df time_matrix) a = true ->
  let m := script_manager df in
  (forall v, v < num_vehicles -> vehicle_route m a v = Some [Start m v; End m v])
  /\ exists s',
       extract_routes df (empty_store (script_routing df time_matrix) a) = Some s'
       /\ vehicle_routes s' = [] /\ vehicle_times s' = [] /\ vehicle_loads s' = []
       /\ print_routes df s' = [].
Proof.
  intros Hn Hf m. subst m.
  assert (Hshort : forall v p, v < num_vehicles ->
            vehicle_route (script_manager df) a v = Some p -> length p <= 2).
  { intros v p Hv Hp.
    destruct (le_lt_dec (length p) 2) as [Hle|Hlt]; [exact Hle|].
    destruct (lookup_lt_is_Some_2 p 1 ltac:(lia)) as [i Hi].
    destruct (interior_is_customer df time_matrix a v p 1 i Hf Hv Hp ltac:(lia) Hlt Hi)
      as (_ & Hne & Hlt').
    unfold depot_index in Hne. lia. }
  split.
  - intros v Hv.
    destruct (script_feasible_route df time_matrix a v Hf Hv) as (q & Hp & Hhd & _).
    pose proof (Hshort v _ Hv Hp) as Hlen. rewrite length_app in Hlen. simpl in Hlen.
    rewrite Hp. destruct q as [|i [|j q]]; simpl in Hlen; [| |lia].
    + simpl in Hhd. unfold End, Start, Size in Hhd.
      cbn [mgr_nodes mgr_vehicles mgr_depot script_manager] in Hhd.
      unfold num_vehicles, depot_index in *. destruct (v =? 0); lia.
    + simpl in Hhd. subst i. reflexivity.
  - destruct (extract_routes_feasible df time_matrix a Hf)
      as (s' & Hrun & _ & _ & Hroutes & Htimes & Hloads).
    assert (Hkept : kept_routes (script_manager df) a (seq 0 num_vehicles) = []).
    { destruct (kept_routes (script_manager df) a (seq 0 num_vehicles)) as [|[v p] kept] eqn:Hk;
        [reflexivity|].
      assert (Hin : In (v, p) (kept_routes (script_manager df) a (seq 0 num_vehicles)))
        by (rewrite Hk; now left).
      apply kept_routes_In in Hin as (Hv & Hp & Hlen). apply in_seq in Hv.
      pose proof (Hshort v p ltac:(lia) Hp). lia. }
    cbv zeta in Hroutes, Htimes, Hloads. rewrite Hkept in Hroutes, Htimes, Hloads.
    exists s'. split; [exact Hrun|]. repeat (split; [assumption|]).
    unfold print_routes. rewrite Hroutes. reflexivity.
Qed.

Lemma X18_table_without_customers_witness :
  let m := script_manager depot_only_df in
  (forall v, v < num_vehicles ->
     vehicle_route m idle_solution v = Some [Start m v; End m v])
  /\ exists s',
       extract_routes depot_only_df
         (empty_store (script_routing depot_only_df [[0%Z]]) idle_solution) = Some s'
       /\ vehicle_routes s' = [] /\ vehicle_times s' = [] /\ vehicle_loads s' = []
       /\ print_routes depot_only_df s' = [].
Proof.
  apply (X18_table_without_customers depot_only_df [[0%Z]] idle_solution).
  - reflexivity.
  - vm_compute. reflexivity.
Defined.
